(** * PDF-Field-Mapper: field geometry, selection and import/export

    A shallow embedding of [src/App.tsx] (the multi-selection revision,
    the second of the two revisions the file holds): the [DrawingOverlay]
    pointer handlers, the field-store handlers of [App], [syncY],
    [handleExport] and [handleJsonUpload].

    Numbers.  A JavaScript number is modelled by the rational [Q] it
    denotes; [NaN] and the infinities are not represented, so the
    viewport rectangle is taken with non-zero width and height wherever a
    quotient by it matters.  Page numbers of typed fields are integers.
    The handlers are first given with exact arithmetic.  Where a result
    turns on a comparison of computed numbers (the lasso test, the snap
    test, the 0.5 threshold of a drawing) the pointer handlers are given
    again with the four operations as a parameter ([arith]), of which
    [exactArith] is the exact instance and [IEEE.arithmetic] the binary64
    one; what is proved of them for every instance holds of the code as a
    browser runs it.

    React state.  Each handler is a function from the state a render
    closed over (the [App] state and the [DrawingOverlay] state) to the
    state after the handler's [set...] calls; a handler that throws leaves
    the state as it was. *)

From Stdlib Require Import QArith Qabs Qround ZArith List String Ascii Bool Lia Lqa Permutation.
From Stdlib Require Import DecimalString.
From Stdlib Require PrimFloat SpecFloat FloatOps Uint63.
Import ListNotations.
Local Open Scope string_scope.
Local Open Scope Q_scope.

(** ** Thrown errors *)

Inductive Error : Type :=
| SyntaxError      (* JSON.parse rejects the text *)
| NotAnArray       (* new Error('El archivo JSON debe contener un arreglo de campos.') *)
| TypeError.       (* property read on undefined or null *)

Inductive Exc (A : Type) : Type :=
| Ok (a : A)
| Throw (e : Error).
Arguments Ok {A} a.
Arguments Throw {A} e.

(** ** JavaScript values and the few built-ins the handlers use *)

Module JS.

#[local] Set Warnings "-register-all".

Inductive value : Type :=
| VUndef
| VNull
| VBool (b : bool)
| VNum (q : Q)
| VStr (s : string)
| VArr (items : list value)
| VObj (props : list (string * value)).

(** [ToBoolean]: what [||] and [if (...)] test. *)
Definition truthy (v : value) : bool :=
  match v with
  | VUndef | VNull => false
  | VBool b => b
  | VNum q => negb (Qeq_bool q 0)
  | VStr s => negb (String.eqb s EmptyString)
  | VArr _ | VObj _ => true
  end.

Fixpoint lookup (k : string) (props : list (string * value)) : value :=
  match props with
  | [] => VUndef
  | (k', v) :: rest => if String.eqb k k' then v else lookup k rest
  end.

(** [v.k] for the property names the import reads ([id], [page], [x], ...):
    none of them lives on a prototype, so a primitive or an array answers
    [undefined], and [undefined]/[null] throw. *)
Definition get (v : value) (k : string) : Exc value :=
  match v with
  | VUndef | VNull => Throw TypeError
  | VObj props => Ok (lookup k props)
  | _ => Ok VUndef
  end.

Definition isArray (v : value) : bool :=
  match v with VArr _ => true | _ => false end.

(** [a || b] on values, with [b] already evaluated (used where [b] is a literal). *)
Definition or_else (a b : value) : value := if truthy a then a else b.

Definition Math_max (a b : Q) : Q := if Qle_bool a b then b else a.
Definition Math_min (a b : Q) : Q := if Qle_bool a b then a else b.
Definition Math_abs (a : Q) : Q := Qabs a.

(** [Number(x.toFixed(2))]: the nearest multiple of 1/100, a tie going away
    from zero ([toFixed] works on the magnitude and picks the larger [n]). *)
Definition toFixed2 (x : Q) : Q :=
  let n := Qfloor (Qabs x * 100 + (1 # 2)) in
  if Qle_bool 0 x then n # 100 else (- n)%Z # 100.

(** [s.substring(0, n)] *)
Fixpoint substring0 (n : nat) (s : string) : string :=
  match n, s with
  | S n', String c rest => String c (substring0 n' rest)
  | _, _ => EmptyString
  end.

(** [array.includes(id)] on an array of strings *)
Definition includes (ids : list string) (i : string) : bool :=
  existsb (String.eqb i) ids.

End JS.
Import JS.

(** ** Data model *)

(** [interface Field] *)
Module Field.
Record t : Type := mk {
  id : string;
  page : Z;
  x : Q;
  y : Q;
  width : Q;
  height : Q;
  variableName : string
}.
Definition with_y (f : t) (v : Q) : t :=
  mk (id f) (page f) (x f) v (width f) (height f) (variableName f).
Definition with_xy (f : t) (vx vy : Q) : t :=
  mk (id f) (page f) vx vy (width f) (height f) (variableName f).
Definition with_variableName (f : t) (s : string) : t :=
  mk (id f) (page f) (x f) (y f) (width f) (height f) s.
End Field.

(** An entry of [dragState.initialPositions] *)
Module Pos.
Record t : Type := mk { id : string; x : Q; y : Q; width : Q; height : Q }.
End Pos.

(** An element of the [updates] array handed to [onUpdateFields] *)
Module Update.
Record t : Type := mk { id : string; x : Q; y : Q }.
End Update.

Record Point : Type := mkPoint { px : Q; py : Q }.

(** A value of [pageDimensions] *)
Record PageDim : Type := mkPageDim { dim_width : Q; dim_height : Q }.

Record DragState : Type := mkDragState {
  startX : Q;
  startY : Q;
  initialPositions : list Pos.t;
  mainFieldId : string
}.

(** The [useState] cells of [App] that the handlers read or write. *)
Record App : Type := mkApp {
  fields : list Field.t;
  selectedFieldIds : list string;
  currentPage : Z;
  pageDimensions : Z -> option PageDim
}.

(** The [useState] cells of [DrawingOverlay]. *)
Record Overlay : Type := mkOverlay {
  isDrawing : bool;
  isLasso : bool;
  startPos : Point;
  currentPos : Point;
  dragState : option DragState;
  snapLineY : option Q
}.

Definition setFields (fs : list Field.t) (a : App) : App :=
  mkApp fs (selectedFieldIds a) (currentPage a) (pageDimensions a).
Definition setSelectedFieldIds (ids : list string) (a : App) : App :=
  mkApp (fields a) ids (currentPage a) (pageDimensions a).
Definition setCurrentPage (p : Z) (a : App) : App :=
  mkApp (fields a) (selectedFieldIds a) p (pageDimensions a).

Definition setIsDrawing (b : bool) (o : Overlay) : Overlay :=
  mkOverlay b (isLasso o) (startPos o) (currentPos o) (dragState o) (snapLineY o).
Definition setIsLasso (b : bool) (o : Overlay) : Overlay :=
  mkOverlay (isDrawing o) b (startPos o) (currentPos o) (dragState o) (snapLineY o).
Definition setStartPos (p : Point) (o : Overlay) : Overlay :=
  mkOverlay (isDrawing o) (isLasso o) p (currentPos o) (dragState o) (snapLineY o).
Definition setCurrentPos (p : Point) (o : Overlay) : Overlay :=
  mkOverlay (isDrawing o) (isLasso o) (startPos o) p (dragState o) (snapLineY o).
Definition setDragState (d : option DragState) (o : Overlay) : Overlay :=
  mkOverlay (isDrawing o) (isLasso o) (startPos o) (currentPos o) d (snapLineY o).
Definition setSnapLineY (s : option Q) (o : Overlay) : Overlay :=
  mkOverlay (isDrawing o) (isLasso o) (startPos o) (currentPos o) (dragState o) s.

(** The part of a [React.MouseEvent] the handlers read. *)
Record MouseEvent : Type := mkMouseEvent {
  clientX : Q;
  clientY : Q;
  shiftKey : bool;
  ctrlKey : bool;
  metaKey : bool
}.

(** [overlayRef.current.getBoundingClientRect()] *)
Record Rect : Type := mkRect {
  rect_left : Q;
  rect_top : Q;
  rect_width : Q;
  rect_height : Q
}.

Definition additive (e : MouseEvent) : bool :=
  shiftKey e || ctrlKey e || metaKey e.

(** ** The id source

    [generateId()] draws from [crypto.randomUUID] (or [Math.random]); it is
    modelled by an arbitrary supply [src : nat -> string] read at a counter
    that every call advances.  [Gen] threads the counter and the thrown
    error through a handler. *)

Definition Gen (A : Type) : Type := (nat -> string) -> nat -> Exc (A * nat).

Definition ret {A} (a : A) : Gen A := fun _ n => Ok (a, n).
Definition bind {A B} (c : Gen A) (k : A -> Gen B) : Gen B :=
  fun src n =>
    match c src n with
    | Ok (a, n') => k a src n'
    | Throw e => Throw e
    end.
Definition throw {A} (e : Error) : Gen A := fun _ _ => Throw e.
Definition lift {A} (r : Exc A) : Gen A :=
  fun _ n => match r with Ok a => Ok (a, n) | Throw e => Throw e end.
Definition generateId : Gen string := fun src n => Ok (src n, S n).

Notation "x <- c ;; k" := (bind c (fun x => k))
  (at level 61, c at next level, right associativity).

Fixpoint mapM {A B} (f : A -> Gen B) (l : list A) : Gen (list B) :=
  match l with
  | [] => ret []
  | a :: rest => b <- f a ;; bs <- mapM f rest ;; ret (b :: bs)
  end.

(** ** Field store: the handlers of [App] *)

(** [onAddField]: [setFields([...fields, field]); setSelectedFieldIds([field.id])] *)
Definition onAddField (f : Field.t) (a : App) : App :=
  setSelectedFieldIds [Field.id f] (setFields (fields a ++ [f])%list a).

(** [{ ...f, ...update }] *)
Definition applyUpdate (f : Field.t) (u : Update.t) : Field.t :=
  Field.mk (Update.id u) (Field.page f) (Update.x u) (Update.y u)
           (Field.width f) (Field.height f) (Field.variableName f).

(** [onUpdateFields]: every field takes the first update that carries its id. *)
Definition onUpdateFields (updates : list Update.t) (a : App) : App :=
  setFields
    (map (fun f =>
            match find (fun u => String.eqb (Update.id u) (Field.id f)) updates with
            | Some update => applyUpdate f update
            | None => f
            end) (fields a)) a.

(** The rename input's [onChange] for the field with id [i]. *)
Definition renameField (i : string) (name : string) (a : App) : App :=
  setFields
    (map (fun f => if String.eqb (Field.id f) i
                   then Field.with_variableName f name else f) (fields a)) a.

(** The trash button of the field with id [i]. *)
Definition deleteField (i : string) (a : App) : App :=
  setSelectedFieldIds
    (filter (fun j => negb (String.eqb j i)) (selectedFieldIds a))
    (setFields (filter (fun f => negb (String.eqb (Field.id f) i)) (fields a)) a).

(** "Eliminar seleccionados" *)
Definition deleteSelected (a : App) : App :=
  setSelectedFieldIds []
    (setFields
       (filter (fun f => negb (includes (selectedFieldIds a) (Field.id f))) (fields a)) a).

(** Click on the sidebar card of field [f]. *)
Definition clickCard (e : MouseEvent) (f : Field.t) (a : App) : App :=
  let isSelected := includes (selectedFieldIds a) (Field.id f) in
  let sel :=
    if additive e then
      if isSelected
      then filter (fun j => negb (String.eqb j (Field.id f))) (selectedFieldIds a)
      else (selectedFieldIds a ++ [Field.id f])%list
    else [Field.id f] in
  let a' := setSelectedFieldIds sel a in
  if Z.eqb (Field.page f) (currentPage a) then a' else setCurrentPage (Field.page f) a'.

(** [syncY]; [selectedFields[0].y] throws when no selected id is in the store. *)
Definition syncY (a : App) : Exc App :=
  if Nat.ltb (List.length (selectedFieldIds a)) 2 then Ok a
  else
    let selectedFields :=
      filter (fun f => includes (selectedFieldIds a) (Field.id f)) (fields a) in
    match selectedFields with
    | [] => Throw TypeError
    | first :: _ =>
        let targetY := Field.y first in
        Ok (setFields
              (map (fun f => if includes (selectedFieldIds a) (Field.id f)
                             then Field.with_y f targetY else f) (fields a)) a)
    end.

(** ** DrawingOverlay: the pointer handlers *)

(** [((c - origin) / extent) * 100] *)
Definition toPct (c origin extent : Q) : Q := ((c - origin) / extent) * 100.

(** [handleMouseDown]; [onOverlay] is [e.target === overlayRef.current]. *)
Definition handleMouseDown (e : MouseEvent) (onOverlay : bool) (r : Rect)
    (a : App) (o : Overlay) : App * Overlay :=
  if negb onOverlay then (a, o)
  else
    let x := toPct (clientX e) (rect_left r) (rect_width r) in
    let y := toPct (clientY e) (rect_top r) (rect_height r) in
    let o1 := setCurrentPos (mkPoint x y) (setStartPos (mkPoint x y) o) in
    let o2 := setIsLasso true o1 in
    if negb (shiftKey e) && negb (ctrlKey e) && negb (metaKey e)
    then (setSelectedFieldIds [] a, o2)
    else (a, o2).

(** The mode button: [setIsDrawing(!isDrawing); setIsLasso(false)]. *)
Definition toggleDrawingMode (o : Overlay) : Overlay :=
  setIsLasso false (setIsDrawing (negb (isDrawing o)) o).

Definition snapshot (f : Field.t) : Pos.t :=
  Pos.mk (Field.id f) (Field.x f) (Field.y f) (Field.width f) (Field.height f).

(** [onMouseDown] of the rectangle drawn for [field]. *)
Definition fieldMouseDown (e : MouseEvent) (field : Field.t)
    (a : App) (o : Overlay) : App * Overlay :=
  let isSelected := includes (selectedFieldIds a) (Field.id field) in
  let nextSelection :=
    if additive e then
      if isSelected
      then filter (fun j => negb (String.eqb j (Field.id field))) (selectedFieldIds a)
      else (selectedFieldIds a ++ [Field.id field])%list
    else
      if negb isSelected then [Field.id field] else selectedFieldIds a in
  let fieldsToDrag :=
    filter (fun f => includes nextSelection (Field.id f)) (fields a) in
  (setSelectedFieldIds nextSelection a,
   setDragState
     (Some (mkDragState (clientX e) (clientY e)
              (map snapshot fieldsToDrag) (Field.id field))) o).

(** The [for ... of fields] loop of the drag branch: the y of the first
    field that is not selected, is on the current page and lies within the
    margin of [mainNewY]; [None] when the loop ends without [break]. *)
Fixpoint snapScan (selected : list string) (page : Z) (snapMarginYPct mainNewY : Q)
    (fs : list Field.t) : option Q :=
  match fs with
  | [] => None
  | otherField :: rest =>
      if negb (includes selected (Field.id otherField))
         && Z.eqb (Field.page otherField) page
      then
        if Qle_bool (Math_abs (mainNewY - Field.y otherField)) snapMarginYPct
        then Some (Field.y otherField)
        else snapScan selected page snapMarginYPct mainNewY rest
      else snapScan selected page snapMarginYPct mainNewY rest
  end.

(** The body of [initialPositions.forEach]. *)
Definition dragUpdate (deltaX finalDeltaY : Q) (pos : Pos.t) : Update.t :=
  let newX := Pos.x pos + deltaX in
  let newY := Pos.y pos + finalDeltaY in
  let newX := Math_max 0 (Math_min (100 - Pos.width pos) newX) in
  let newY := Math_max 0 (Math_min (100 - Pos.height pos) newY) in
  Update.mk (Pos.id pos) newX newY.

(** The lasso test of one field. *)
Definition insideLasso (lx ly lw lh : Q) (f : Field.t) : bool :=
  Qle_bool lx (Field.x f)
  && Qle_bool ly (Field.y f)
  && Qle_bool (Field.x f + Field.width f) (lx + lw)
  && Qle_bool (Field.y f + Field.height f) (ly + lh).

(** [handleMouseMove]; [rect] is [overlayRef.current?.getBoundingClientRect()]. *)
Definition handleMouseMove (e : MouseEvent) (rect : option Rect)
    (a : App) (o : Overlay) : Exc (App * Overlay) :=
  match rect with
  | None => Ok (a, o)
  | Some r =>
    match dragState o with
    | Some ds =>
        let deltaX := ((clientX e - startX ds) / rect_width r) * 100 in
        let deltaY := ((clientY e - startY ds) / rect_height r) * 100 in
        match find (fun p => String.eqb (Pos.id p) (mainFieldId ds)) (initialPositions ds) with
        | None => Throw TypeError
        | Some mainFieldInitial =>
            let mainNewY := Pos.y mainFieldInitial + deltaY in
            let snapMarginYPct := (5 / rect_height r) * 100 in
            let snap := snapScan (selectedFieldIds a) (currentPage a)
                          snapMarginYPct mainNewY (fields a) in
            let mainNewY := match snap with Some sy => sy | None => mainNewY end in
            let finalDeltaY := mainNewY - Pos.y mainFieldInitial in
            let updates := map (dragUpdate deltaX finalDeltaY) (initialPositions ds) in
            Ok (onUpdateFields updates a, setSnapLineY snap o)
        end
    | None =>
        if isLasso o || isDrawing o then
          let x := Math_max 0 (Math_min 100 (toPct (clientX e) (rect_left r) (rect_width r))) in
          let y := Math_max 0 (Math_min 100 (toPct (clientY e) (rect_top r) (rect_height r))) in
          let o' := setCurrentPos (mkPoint x y) o in
          if isLasso o then
            let lx := Math_min (px (startPos o)) x in
            let ly := Math_min (py (startPos o)) y in
            let lw := Math_abs (x - px (startPos o)) in
            let lh := Math_abs (y - py (startPos o)) in
            let newlySelected :=
              map Field.id
                (filter (insideLasso lx ly lw lh)
                   (filter (fun f => Z.eqb (Field.page f) (currentPage a)) (fields a))) in
            Ok (setSelectedFieldIds newlySelected a, o')
          else Ok (a, o')
        else Ok (a, o)
    end
  end.

(** [`var_${n}`] *)
Definition var_name (n : nat) : string :=
  "var_" ++ NilZero.string_of_uint (Nat.to_uint n).

(** [handleMouseUp] (also the [onMouseLeave] handler). *)
Definition handleMouseUp (a : App) (o : Overlay) : Gen (App * Overlay) :=
  match dragState o with
  | Some _ => ret (a, setSnapLineY None (setDragState None o))
  | None =>
      if isLasso o then ret (a, setIsLasso false o)
      else if isDrawing o then
        let o' := setIsDrawing false o in
        let x := Math_min (px (startPos o)) (px (currentPos o)) in
        let y := Math_min (py (startPos o)) (py (currentPos o)) in
        let width := Math_abs (px (currentPos o) - px (startPos o)) in
        let height := Math_abs (py (currentPos o) - py (startPos o)) in
        if negb (Qle_bool width 0.5) && negb (Qle_bool height 0.5) then
          i <- generateId ;;
          ret (onAddField
                 (Field.mk i (currentPage a) x y width height
                    (var_name (List.length (fields a) + 1))) a, o')
        else ret (a, o')
      else ret (a, o)
  end.

(** ** Import / export codec *)

(** The object literal [handleJsonUpload] builds for one element.  The
    element is of type [any]: each property holds whatever value the
    document carries, [undefined] when the document has none. *)
Module JField.
Record t : Type := mk {
  id : value;
  page : value;
  variableName : value;
  x : value;
  y : value;
  width : value;
  height : value
}.
End JField.

(** A typed [Field] seen as the object it is at run time. *)
Definition toJField (f : Field.t) : JField.t :=
  JField.mk (VStr (Field.id f)) (VNum (inject_Z (Field.page f)))
            (VStr (Field.variableName f))
            (VNum (Field.x f)) (VNum (Field.y f))
            (VNum (Field.width f)) (VNum (Field.height f)).

(** The inverse view: defined when the object obeys [interface Field]. *)
Definition asField (j : JField.t) : option Field.t :=
  match JField.id j, JField.page j, JField.variableName j,
        JField.x j, JField.y j, JField.width j, JField.height j with
  | VStr i, VNum p, VStr v, VNum x, VNum y, VNum w, VNum h =>
      if Qeq_bool p (inject_Z (Qfloor p))
      then Some (Field.mk i (Qfloor p) x y w h v)
      else None
  | _, _, _, _, _, _, _ => None
  end.

(** [item.id || generateId()] *)
Definition idOrFresh (v : value) : Gen value :=
  if truthy v then ret v else (g <- generateId ;; ret (VStr g)).

(** [item.variableName || `var_${generateId().substring(0,4)}`] *)
Definition nameOrFresh (v : value) : Gen value :=
  if truthy v then ret v
  else (g <- generateId ;; ret (VStr ("var_" ++ substring0 4 g))).

(** The callback of [jsonData.map]. *)
Definition importItem (item : value) : Gen JField.t :=
  pc <- lift (get item "percentageCoordinates") ;;
  if truthy pc then
    id0 <- lift (get item "id") ;;
    i <- idOrFresh id0 ;;
    p <- lift (get item "page") ;;
    v <- lift (get item "variableName") ;;
    x <- lift (get pc "x") ;;
    y <- lift (get pc "y") ;;
    w <- lift (get pc "width") ;;
    h <- lift (get pc "height") ;;
    ret (JField.mk i p v x y w h)
  else
    id0 <- lift (get item "id") ;;
    i <- idOrFresh id0 ;;
    p <- lift (get item "page") ;;
    v0 <- lift (get item "variableName") ;;
    v <- nameOrFresh v0 ;;
    x <- lift (get item "x") ;;
    y <- lift (get item "y") ;;
    w <- lift (get item "width") ;;
    h <- lift (get item "height") ;;
    ret (JField.mk i (or_else p (VNum 1)) v
           (or_else x (VNum 0)) (or_else y (VNum 0))
           (or_else w (VNum 10)) (or_else h (VNum 5))).

(** The body of the [try] block up to [setFields]; [parsed] is the outcome
    of [JSON.parse(text)], [None] when it throws. *)
Definition importArray (parsed : option value) : Gen (list JField.t) :=
  match parsed with
  | None => throw SyntaxError
  | Some jsonData =>
      match jsonData with
      | VArr items => mapM importItem items
      | _ => throw NotAnArray
      end
  end.

Inductive Alert : Type :=
| AlertImported (count : nat)   (* `Se importaron ${n} campos exitosamente.` *)
| AlertJsonError.               (* 'Error al leer el archivo JSON. ...' *)

(** Where the id source stands when [jsonData.map] is left by a throw: the
    elements before the one whose callback throws have drawn their ids, and
    that callback throws on its first property read, before it draws any. *)
Fixpoint idsDrawnBeforeThrow (items : list value) (src : nat -> string) (n : nat) : nat :=
  match items with
  | [] => n
  | item :: rest =>
      match importItem item src n with
      | Ok (_, n') => idsDrawnBeforeThrow rest src n'
      | Throw _ => n
      end
  end.

(** Where the id source stands when the [try] block is left by a throw:
    [JSON.parse] and the array test throw before any id is drawn. *)
Definition counterAtThrow (parsed : option value) (src : nat -> string) (n : nat) : nat :=
  match parsed with
  | Some (VArr items) => idsDrawnBeforeThrow items src n
  | _ => n
  end.

(** [handleJsonUpload] on a chosen file: the new content of the [fields]
    cell, the alert shown, and the id counter. *)
Definition handleJsonUpload (parsed : option value) (store : list JField.t)
    (src : nat -> string) (n : nat) : list JField.t * Alert * nat :=
  match importArray parsed src n with
  | Ok (importedFields, n') =>
      (importedFields, AlertImported (List.length importedFields), n')
  | Throw _ => (store, AlertJsonError, counterAtThrow parsed src n)
  end.

Fixpoint traverse {A B} (f : A -> option B) (l : list A) : option (list B) :=
  match l with
  | [] => Some []
  | a :: rest =>
      match f a, traverse f rest with
      | Some b, Some bs => Some (b :: bs)
      | _, _ => None
      end
  end.

(** [handleJsonUpload] acting on the typed [App] state; defined when every
    imported object obeys [interface Field].  The selection is not touched. *)
Definition importJson (parsed : option value) (a : App)
    (src : nat -> string) (n : nat) : option (App * Alert * nat) :=
  match importArray parsed src n with
  | Ok (importedFields, n') =>
      match traverse asField importedFields with
      | Some fs => Some (setFields fs a, AlertImported (List.length importedFields), n')
      | None => None
      end
  | Throw _ => Some (a, AlertJsonError, counterAtThrow parsed src n)
  end.

(** The [field] object itself, as [JSON.stringify] writes it. *)
Definition fieldObject (f : Field.t) : value :=
  VObj [("id", VStr (Field.id f));
        ("page", VNum (inject_Z (Field.page f)));
        ("x", VNum (Field.x f));
        ("y", VNum (Field.y f));
        ("width", VNum (Field.width f));
        ("height", VNum (Field.height f));
        ("variableName", VStr (Field.variableName f))].

(** The callback of [fields.map] in [handleExport]. *)
Definition exportField (dims : Z -> option PageDim) (field : Field.t) : value :=
  match dims (Field.page field) with
  | None => fieldObject field
  | Some dim =>
      let pdfX := (Field.x field / 100) * dim_width dim in
      let pdfW := (Field.width field / 100) * dim_width dim in
      let pdfH := (Field.height field / 100) * dim_height dim in
      let pdfY := dim_height dim
                  - ((Field.y field + Field.height field) / 100) * dim_height dim in
      VObj [("id", VStr (Field.id field));
            ("variableName", VStr (Field.variableName field));
            ("page", VNum (inject_Z (Field.page field)));
            ("pdfCoordinates",
             VObj [("x", VNum (toFixed2 pdfX));
                   ("y", VNum (toFixed2 pdfY));
                   ("width", VNum (toFixed2 pdfW));
                   ("height", VNum (toFixed2 pdfH))]);
            ("percentageCoordinates",
             VObj [("x", VNum (toFixed2 (Field.x field)));
                   ("y", VNum (toFixed2 (Field.y field)));
                   ("width", VNum (toFixed2 (Field.width field)));
                   ("height", VNum (toFixed2 (Field.height field)))])]
  end.

(** [exportData]; the downloaded text is [JSON.stringify(exportData, null, 2)],
    and [JSON.parse] of that text gives [exportData] back (no value here is
    [undefined] or not finite). *)
Definition handleExport (a : App) : value :=
  VArr (map (exportField (pageDimensions a)) (fields a)).

(** [f] with its four coordinates rounded to 2 decimals. *)
Definition rounded (f : Field.t) : Field.t :=
  Field.mk (Field.id f) (Field.page f)
           (toFixed2 (Field.x f)) (toFixed2 (Field.y f))
           (toFixed2 (Field.width f)) (toFixed2 (Field.height f))
           (Field.variableName f).

(** ** Specification predicates and sample data *)

(** The page sizes of a one-page Letter document. *)
Definition letterDims (p : Z) : option PageDim :=
  if Z.eqb p 1 then Some (mkPageDim 612 792) else None.

(** Export then import gives every field back with its coordinates to 2
    decimals, whatever [pageDimensions] holds. *)
Definition roundTripAsStated (a : App) : Prop :=
  (forall f, In f (fields a) -> Field.id f <> EmptyString) ->
  forall (store : list JField.t) (src : nat -> string) (n : nat),
    fst (fst (handleJsonUpload (Some (handleExport a)) store src n))
    = map toJField (map rounded (fields a)).

(** [k in item] *)
Definition present (k : string) (props : list (string * value)) : bool :=
  existsb (String.eqb k) (map fst props).

(** The raw-shape rule read with "missing" as "the element has no such
    property": a property that is there is copied, one that is not takes
    the default. *)
Definition directOrDefault (k : string) (props : list (string * value))
    (dflt got : value) : Prop :=
  got = if present k props then lookup k props else dflt.

Definition rawShapeAsStated (props : list (string * value)) (j : JField.t) : Prop :=
  directOrDefault "page" props (VNum 1) (JField.page j)
  /\ directOrDefault "x" props (VNum 0) (JField.x j)
  /\ directOrDefault "y" props (VNum 0) (JField.y j)
  /\ directOrDefault "width" props (VNum 10) (JField.width j)
  /\ directOrDefault "height" props (VNum 5) (JField.height j)
  /\ (present "variableName" props = true ->
      JField.variableName j = lookup "variableName" props).

(** [{"x":5,"y":5,"width":20,"height":10,"page":2,"variableName":"foo"}] *)
Definition rawFoo : value :=
  VObj [("x", VNum 5); ("y", VNum 5); ("width", VNum 20); ("height", VNum 10);
        ("page", VNum 2); ("variableName", VStr "foo")].

(** [{"x":5,"y":5,"width":0,"height":10,"page":2,"variableName":"foo"}] *)
Definition rawZeroWidthProps : list (string * value) :=
  [("x", VNum 5); ("y", VNum 5); ("width", VNum 0); ("height", VNum 10);
   ("page", VNum 2); ("variableName", VStr "foo")].

(** A supply of ids for the examples: ["id0"], ["id1"], ... *)
Definition sampleIds (n : nat) : string :=
  "id" ++ NilZero.string_of_uint (Nat.to_uint n).

(** The overlay's rectangle has an area (it is on screen). *)
Definition visible (r : Rect) : Prop := 0 < rect_width r /\ 0 < rect_height r.

(** All four edges of [f] lie within the rectangle at [(lx, ly)] of size
    [lw] by [lh]. *)
Definition fullyInside (lx ly lw lh : Q) (f : Field.t) : Prop :=
  lx <= Field.x f /\ ly <= Field.y f
  /\ Field.x f + Field.width f <= lx + lw
  /\ Field.y f + Field.height f <= ly + lh.

(** The overlay as [useState] initialises it. *)
Definition initialOverlay : Overlay :=
  mkOverlay false false (mkPoint 0 0) (mkPoint 0 0) None None.

(** A 600 by 800 pixel overlay at the origin of the window. *)
Definition sampleRect : Rect := mkRect 0 0 600 800.

Definition plainEvent (cx cy : Q) : MouseEvent := mkMouseEvent cx cy false false false.

(** Fields A(y=10), B(y=30), C(y=50) on page 1. *)
Definition fieldA : Field.t := Field.mk "A" 1 10 10 20 5 "var_1".
Definition fieldB : Field.t := Field.mk "B" 1 40 30 20 5 "var_2".
Definition fieldC : Field.t := Field.mk "C" 1 70 50 20 5 "var_3".

(** A lasso in progress, pressed at (5%, 5%). *)
Definition lassoOverlay : Overlay :=
  mkOverlay false true (mkPoint 5 5) (mkPoint 5 5) None None.

Definition storeABC (selected : list string) : App :=
  mkApp [fieldA; fieldB; fieldC] selected 1 letterDims.

(** Every selected id names a field of the store. *)
Definition noDangling (a : App) : Prop :=
  forall i, In i (selectedFieldIds a) -> exists f, In f (fields a) /\ Field.id f = i.

(** The state after a one-page document is loaded. *)
Definition emptyApp : App := mkApp [] [] 1 letterDims.

(** [other] can stop the snap loop: it is not selected, it is on the
    current page, and its y is within the margin of the candidate. *)
Definition snapCandidate (selected : list string) (page : Z)
    (margin candidateY : Q) (other : Field.t) : Prop :=
  ~ In (Field.id other) selected
  /\ Field.page other = page
  /\ Qabs (candidateY - Field.y other) <= margin.

(** The rectangle of [f] lies on the page. *)
Definition onPage (f : Field.t) : Prop :=
  0 <= Field.x f /\ 0 <= Field.y f
  /\ Field.x f + Field.width f <= 100
  /\ Field.y f + Field.height f <= 100.

(** The first snapshot that carries a field's id holds that field's size:
    the update [onUpdateFields] hands to the field was clamped for it. *)
Definition snapshotsAgree (fs : list Field.t) (ps : list Pos.t) : Prop :=
  forall f p,
    In f fs ->
    find (fun q => String.eqb (Pos.id q) (Field.id f)) ps = Some p ->
    Pos.width p = Field.width f /\ Pos.height p = Field.height f.

(** A drag of field A alone, pressed at pixel (100, 100). *)
Definition dragOfA : Overlay :=
  mkOverlay false false (mkPoint 0 0) (mkPoint 0 0)
    (Some (mkDragState 100 100 [snapshot fieldA] "A")) None.

(** Field A next to two unselected fields at y = 12 and y = 12.5. *)
Definition fieldD : Field.t := Field.mk "D" 1 40 12 20 5 "var_2".
Definition fieldE : Field.t := Field.mk "E" 1 70 12.5 20 5 "var_3".
Definition storeADE : App := mkApp [fieldA; fieldD; fieldE] ["A"] 1 letterDims.



(** ** The rest of [App]: page navigation and document load *)

Definition setPageDimensions (dims : Z -> option PageDim) (a : App) : App :=
  mkApp (fields a) (selectedFieldIds a) (currentPage a) dims.

(** The previous-page button: [setCurrentPage(p => Math.max(1, p - 1))]. *)
Definition prevPage (a : App) : App :=
  setCurrentPage (Z.max 1 (currentPage a - 1)) a.

(** The next-page button: [setCurrentPage(p => Math.min(numPages, p + 1))]. *)
Definition nextPage (numPages : Z) (a : App) : App :=
  setCurrentPage (Z.min numPages (currentPage a + 1)) a.

(** What the handler reads of the document [pdfjsLib.getDocument] resolves
    to: the page count and, per page number, the viewport at scale 1.0
    ([None] when [getPage] rejects). *)
Record PdfDocument : Type := mkPdf {
  pdf_numPages : nat;
  pdf_viewport : Z -> option PageDim
}.

(** The loop [for (let i = 1; i <= pdf.numPages; i++) dims[i] = ...],
    entered at page [i] with [remaining] pages to go. *)
Fixpoint fetchDimensions (pdf : PdfDocument) (i : Z) (remaining : nat)
    (dims : list (Z * PageDim)) : option (list (Z * PageDim)) :=
  match remaining with
  | O => Some dims
  | S k =>
      match pdf_viewport pdf i with
      | None => None
      | Some viewport => fetchDimensions pdf (i + 1) k ((i, viewport) :: dims)
      end
  end.

(** [dims[p]] *)
Fixpoint dimsLookup (dims : list (Z * PageDim)) (p : Z) : option PageDim :=
  match dims with
  | [] => None
  | (k, d) :: rest => if Z.eqb p k then Some d else dimsLookup rest p
  end.

(** The [useState] cells of [App] beside those of [App] above. *)
Record Session : Type := mkSession {
  sessionApp : App;
  pdfFile : option string;
  pdfDocument : option PdfDocument;
  numPages : Z;
  isLoading : bool
}.

Definition withApp (a : App) (s : Session) : Session :=
  mkSession a (pdfFile s) (pdfDocument s) (numPages s) (isLoading s).

Inductive LoadAlert : Type :=
| AlertPdfError.   (* 'Error al cargar el PDF. Por favor, intenta con otro archivo.' *)

(** [handleFileUpload] on a chosen file, run to its end with no other
    event in between; [loaded] is what [file.arrayBuffer()] and
    [getDocument] resolve to, [None] when either rejects. *)
Definition handleFileUpload (file : string) (loaded : option PdfDocument)
    (s : Session) : Session * option LoadAlert :=
  match loaded with
  | None =>
      (mkSession (sessionApp s) (Some file) (pdfDocument s) (numPages s) false,
       Some AlertPdfError)
  | Some pdf =>
      let a1 := setSelectedFieldIds [] (setFields [] (setCurrentPage 1 (sessionApp s))) in
      match fetchDimensions pdf 1 (pdf_numPages pdf) [] with
      | None =>
          (mkSession a1 (Some file) (Some pdf) (Z.of_nat (pdf_numPages pdf)) false,
           Some AlertPdfError)
      | Some dims =>
          (mkSession (setPageDimensions (dimsLookup dims) a1)
             (Some file) (Some pdf) (Z.of_nat (pdf_numPages pdf)) false,
           None)
      end
  end.

(** How field [f] reads after an export and an import of the export: with
    known page dimensions its coordinates are rounded, without them they
    are the same numbers. *)
Definition cameBack (dims : Z -> option PageDim) (f f' : Field.t) : Prop :=
  Field.id f' = Field.id f
  /\ Field.page f' = Field.page f
  /\ Field.variableName f' = Field.variableName f
  /\ match dims (Field.page f) with
     | Some _ =>
         Field.x f' = toFixed2 (Field.x f) /\ Field.y f' = toFixed2 (Field.y f)
         /\ Field.width f' = toFixed2 (Field.width f)
         /\ Field.height f' = toFixed2 (Field.height f)
     | None =>
         Field.x f' == Field.x f /\ Field.y f' == Field.y f
         /\ Field.width f' = Field.width f /\ Field.height f' = Field.height f
     end.

(** ** The user interface as a transition system

    One state of the page: the cells of [App], the cells of
    [DrawingOverlay] and the position of the id source.  An event names the
    element of the JSX tree that receives it; [step] runs the handler the
    tree attaches to that element, under the condition the tree renders or
    enables it with.  A handler that throws leaves the state as it was. *)

Record World : Type := mkWorld {
  session : Session;
  overlay : Overlay;
  nextId : nat
}.

Inductive Event : Type :=
| CanvasDown (e : MouseEvent) (r : Rect)   (* mousedown, target the overlay itself *)
| FieldDown (e : MouseEvent) (k : nat)     (* mousedown on the rectangle of fields[k] *)
| PointerMove (e : MouseEvent) (r : Rect)  (* mousemove on the overlay or a child *)
| PointerUp                                (* mouseup or mouseleave *)
| ModeButton                               (* click on the mode button *)
| CardClick (e : MouseEvent) (k : nat)     (* click on the card of fields[k] *)
| CardTrash (k : nat)                      (* the trash button of that card *)
| CardRename (k : nat) (name : string)     (* typing in the card's name input *)
| TrashSelected                            (* "Eliminar seleccionados" *)
| SyncYButton                              (* "Sinc. Y" *)
| PrevButton
| NextButton
| ExportButton
| JsonChosen (parsed : option value)       (* a file picked in the JSON input *)
| PdfChosen (file : string) (loaded : option PdfDocument).

(** [DrawingOverlay] is rendered when [!isLoading && pdfDocument]. *)
Definition overlayMounted (s : Session) : bool :=
  negb (isLoading s) && match pdfDocument s with Some _ => true | None => false end.

Definition hasDocument (s : Session) : bool :=
  match pdfDocument s with Some _ => true | None => false end.

Definition withAppOverlay (a : App) (o : Overlay) (w : World) : World :=
  mkWorld (withApp a (session w)) o (nextId w).

(** [None] only for an import whose objects do not obey [interface Field],
    which the typed state cannot hold. *)
Definition step (src : nat -> string) (ev : Event) (w : World) : option World :=
  let s := session w in
  let a := sessionApp s in
  let o := overlay w in
  match ev with
  | CanvasDown e r =>
      if overlayMounted s then
        let '(a', o') := handleMouseDown e true r a o in Some (withAppOverlay a' o' w)
      else Some w
  | FieldDown e k =>
      if overlayMounted s then
        match nth_error (fields a) k with
        | Some field =>
            if Z.eqb (Field.page field) (currentPage a) then
              let '(a', o') := fieldMouseDown e field a o in Some (withAppOverlay a' o' w)
            else Some w
        | None => Some w
        end
      else Some w
  | PointerMove e r =>
      if overlayMounted s then
        match handleMouseMove e (Some r) a o with
        | Ok (a', o') => Some (withAppOverlay a' o' w)
        | Throw _ => Some w
        end
      else Some w
  | PointerUp =>
      if overlayMounted s then
        match handleMouseUp a o src (nextId w) with
        | Ok ((a', o'), n') => Some (mkWorld (withApp a' s) o' n')
        | Throw _ => Some w
        end
      else Some w
  | ModeButton =>
      if overlayMounted s then Some (withAppOverlay a (toggleDrawingMode o) w) else Some w
  | CardClick e k =>
      match nth_error (fields a) k with
      | Some field => Some (withAppOverlay (clickCard e field a) o w)
      | None => Some w
      end
  | CardTrash k =>
      match nth_error (fields a) k with
      | Some field => Some (withAppOverlay (deleteField (Field.id field) a) o w)
      | None => Some w
      end
  | CardRename k name =>
      match nth_error (fields a) k with
      | Some field =>
          if includes (selectedFieldIds a) (Field.id field)
             && Nat.eqb (List.length (selectedFieldIds a)) 1
          then Some (withAppOverlay (renameField (Field.id field) name a) o w)
          else Some w
      | None => Some w
      end
  | TrashSelected =>
      if Nat.ltb 0 (List.length (selectedFieldIds a))
      then Some (withAppOverlay (deleteSelected a) o w) else Some w
  | SyncYButton =>
      match syncY a with
      | Ok a' => Some (withAppOverlay a' o w)
      | Throw _ => Some w
      end
  | PrevButton =>
      if hasDocument s && Z.ltb 1 (currentPage a)
      then Some (withAppOverlay (prevPage a) o w) else Some w
  | NextButton =>
      if hasDocument s && Z.ltb (currentPage a) (numPages s)
      then Some (withAppOverlay (nextPage (numPages s) a) o w) else Some w
  | ExportButton => Some w
  | JsonChosen parsed =>
      if hasDocument s then
        match importJson parsed a src (nextId w) with
        | Some (a', _, n') => Some (mkWorld (withApp a' s) o n')
        | None => None
        end
      else Some w
  | PdfChosen file loaded =>
      Some (mkWorld (fst (handleFileUpload file loaded s)) initialOverlay (nextId w))
  end.

Fixpoint run (src : nat -> string) (evs : list Event) (w : World) : option World :=
  match evs with
  | [] => Some w
  | ev :: rest =>
      match step src ev w with
      | Some w' => run src rest w'
      | None => None
      end
  end.

(** Events that leave the document and the imported content alone: all
    but the two file inputs. *)
Definition editing (ev : Event) : Prop :=
  match ev with
  | JsonChosen _ | PdfChosen _ _ => False
  | _ => True
  end.

(** A press whose target is the overlay is a press inside the overlay's
    rectangle, and that rectangle has an area. *)
Definition wellPlaced (ev : Event) : Prop :=
  match ev with
  | CanvasDown e r =>
      visible r
      /\ rect_left r <= clientX e <= rect_left r + rect_width r
      /\ rect_top r <= clientY e <= rect_top r + rect_height r
  | _ => True
  end.

(** What holds of a field that was drawn in this document. *)
Definition drawnField (src : nat -> string) (w : World) (f : Field.t) : Prop :=
  (exists k, (k < nextId w)%nat /\ Field.id f = src k)
  /\ (1 <= Field.page f <= numPages (session w))%Z
  /\ 0.5 < Field.width f /\ Field.width f <= 100
  /\ 0.5 < Field.height f /\ Field.height f <= 100.

Definition onCanvas (p : Point) : Prop :=
  0 <= px p /\ px p <= 100 /\ 0 <= py p /\ py p <= 100.

(** The invariant of a session that edits one loaded document. *)
Definition SessionInv (src : nat -> string) (w : World) : Prop :=
  let a := sessionApp (session w) in
  noDangling a
  /\ NoDup (map Field.id (fields a))
  /\ (forall f, In f (fields a) -> drawnField src w f)
  /\ (1 <= currentPage a <= numPages (session w))%Z
  /\ (forall p, (1 <= p <= numPages (session w))%Z -> pageDimensions a p <> None)
  /\ onCanvas (startPos (overlay w)) /\ onCanvas (currentPos (overlay w)).

(** The state right after [pdf] was loaded into a fresh page. *)
Definition freshSession : Session :=
  mkSession (mkApp [] [] 1 (fun _ => None)) None None 0 false.

Definition loadedWorld (file : string) (pdf : PdfDocument) (n : nat) : World :=
  mkWorld (fst (handleFileUpload file (Some pdf) freshSession)) initialOverlay n.

(** What no store handler but add, delete and import changes of a field. *)
Definition core (f : Field.t) : string * Z * Q * Q :=
  (Field.id f, Field.page f, Field.width f, Field.height f).

(** Ids are unique and every field was drawn in this document. *)
Definition StoreOk (src : nat -> string) (w : World) (fs : list Field.t) : Prop :=
  NoDup (map Field.id fs) /\ forall f, In f fs -> drawnField src w f.

(** A second supply of ids for the examples: "u", "iu", "iiu", ... *)
Fixpoint tallyIds (n : nat) : string :=
  match n with
  | O => "u"
  | S k => String "i" (tallyIds k)
  end.

(** [w] is reached from a fresh page by loading [pdf], all of whose pages
    give a viewport, and then going through [evs], none of which is a file
    input; the id source never repeats an id. *)
Definition editingSession (src : nat -> string) (file : string) (pdf : PdfDocument)
    (n : nat) (evs : list Event) (w : World) : Prop :=
  (forall i j, src i = src j -> i = j)
  /\ (1 <= pdf_numPages pdf)%nat
  /\ (forall p, (1 <= p <= Z.of_nat (pdf_numPages pdf))%Z -> pdf_viewport pdf p <> None)
  /\ Forall editing evs /\ Forall wellPlaced evs
  /\ run src evs (loadedWorld file pdf n) = Some w.

(** A two-page Letter document. *)
Definition letterPdf : PdfDocument := mkPdf 2 (fun _ => Some (mkPageDim 612 792)).

(** Mode button, a move to (65%, 40%), a release: a field is drawn from the
    corner of the page; then a press on it and a move far to the right. *)
Definition sampleEvents : list Event :=
  [ModeButton; PointerMove (plainEvent 390 320) sampleRect; PointerUp;
   FieldDown (plainEvent 100 100) 0; PointerMove (plainEvent 900 100) sampleRect;
   PointerUp].

(** ** The single-selection revision

    The first revision in [src/App.tsx]: one selected id or none, every
    press on the empty canvas starts a drawing.  [Field], the id source and
    the codec are those above. *)

Module V1.

Record App : Type := mkApp {
  fields : list Field.t;
  selectedFieldId : option string;
  currentPage : Z
}.

Record Overlay : Type := mkOverlay {
  isDrawing : bool;
  startPos : Point;
  currentPos : Point
}.

(** [onAddField]: [setFields([...fields, field]); setSelectedFieldId(field.id)] *)
Definition onAddField (f : Field.t) (a : App) : App :=
  mkApp (fields a ++ [f])%list (Some (Field.id f)) (currentPage a).

(** [handleMouseDown]; [onOverlay] is [e.target === overlayRef.current]. *)
Definition handleMouseDown (e : MouseEvent) (onOverlay : bool) (r : Rect)
    (a : App) (o : Overlay) : App * Overlay :=
  if negb onOverlay then (a, o)
  else
    let x := toPct (clientX e) (rect_left r) (rect_width r) in
    let y := toPct (clientY e) (rect_top r) (rect_height r) in
    (mkApp (fields a) None (currentPage a), mkOverlay true (mkPoint x y) (mkPoint x y)).

Definition handleMouseMove (e : MouseEvent) (r : Rect) (o : Overlay) : Overlay :=
  if negb (isDrawing o) then o
  else
    let x := Math_max 0 (Math_min 100 (toPct (clientX e) (rect_left r) (rect_width r))) in
    let y := Math_max 0 (Math_min 100 (toPct (clientY e) (rect_top r) (rect_height r))) in
    mkOverlay (isDrawing o) (startPos o) (mkPoint x y).

(** [handleMouseUp] (also the [onMouseLeave] handler). *)
Definition handleMouseUp (a : App) (o : Overlay) : Gen (App * Overlay) :=
  if negb (isDrawing o) then ret (a, o)
  else
    let o' := mkOverlay false (startPos o) (currentPos o) in
    let x := Math_min (px (startPos o)) (px (currentPos o)) in
    let y := Math_min (py (startPos o)) (py (currentPos o)) in
    let width := Math_abs (px (currentPos o) - px (startPos o)) in
    let height := Math_abs (py (currentPos o) - py (startPos o)) in
    if negb (Qle_bool width 0.5) && negb (Qle_bool height 0.5) then
      i <- generateId ;;
      ret (onAddField
             (Field.mk i (currentPage a) x y width height
                (var_name (List.length (fields a) + 1))) a, o')
    else ret (a, o').

(** [onMouseDown] of the rectangle drawn for [field]: [onSelectField(field.id)]. *)
Definition fieldMouseDown (field : Field.t) (a : App) : App :=
  mkApp (fields a) (Some (Field.id field)) (currentPage a).

(** Click on the sidebar card of [field]. *)
Definition clickCard (field : Field.t) (a : App) : App :=
  let a' := mkApp (fields a) (Some (Field.id field)) (currentPage a) in
  if Z.eqb (Field.page field) (currentPage a) then a'
  else mkApp (fields a') (selectedFieldId a') (Field.page field).

(** The trash button of the card of the field with id [i]. *)
Definition deleteField (i : string) (a : App) : App :=
  let fs := filter (fun f => negb (String.eqb (Field.id f) i)) (fields a) in
  match selectedFieldId a with
  | Some j => if String.eqb j i then mkApp fs None (currentPage a)
              else mkApp fs (selectedFieldId a) (currentPage a)
  | None => mkApp fs (selectedFieldId a) (currentPage a)
  end.

(** The moves of one gesture, in order. *)
Fixpoint moves (ms : list (MouseEvent * Rect)) (o : Overlay) : Overlay :=
  match ms with
  | [] => o
  | (e, r) :: rest => moves rest (handleMouseMove e r o)
  end.

(** The selected id, if any, names a stored field. *)
Definition selectionValid (a : App) : Prop :=
  forall i, selectedFieldId a = Some i -> exists f, In f (fields a) /\ Field.id f = i.

End V1.

(** ** The pointer handlers under the browser's arithmetic

    The browser evaluates [+], [-], [*] and [/] on IEEE doubles: each gives
    the double nearest to the exact result.  A finite double is a rational,
    and [<=], [>], [Math.max], [Math.min] and [Math.abs] are exact on
    doubles.  The pointer handlers are given here with the four operations
    as a parameter, every other step as in the source: at [exactArith] they
    are the handlers above, at [IEEE.arithmetic] they compute what the
    browser computes on finite doubles. *)

Record arith : Type := mkArith {
  num_add : Q -> Q -> Q;
  num_sub : Q -> Q -> Q;
  num_mul : Q -> Q -> Q;
  num_div : Q -> Q -> Q
}.

Definition exactArith : arith := mkArith Qplus Qminus Qmult Qdiv.

Section Rounded.

Variable ar : arith.

Local Notation "a [+] b" := (num_add ar a b) (at level 50, left associativity).
Local Notation "a [-] b" := (num_sub ar a b) (at level 50, left associativity).
Local Notation "a [*] b" := (num_mul ar a b) (at level 40, left associativity).
Local Notation "a [/] b" := (num_div ar a b) (at level 40, left associativity).

(** [((c - origin) / extent) * 100] *)
Definition toPctWith (c origin extent : Q) : Q := ((c [-] origin) [/] extent) [*] 100.

(** [handleMouseDown] *)
Definition handleMouseDownWith (e : MouseEvent) (onOverlay : bool) (r : Rect)
    (a : App) (o : Overlay) : App * Overlay :=
  if negb onOverlay then (a, o)
  else
    let x := toPctWith (clientX e) (rect_left r) (rect_width r) in
    let y := toPctWith (clientY e) (rect_top r) (rect_height r) in
    let o1 := setCurrentPos (mkPoint x y) (setStartPos (mkPoint x y) o) in
    let o2 := setIsLasso true o1 in
    if negb (shiftKey e) && negb (ctrlKey e) && negb (metaKey e)
    then (setSelectedFieldIds [] a, o2)
    else (a, o2).

(** The [for ... of fields] loop of the drag branch. *)
Fixpoint snapScanWith (selected : list string) (page : Z) (snapMarginYPct mainNewY : Q)
    (fs : list Field.t) : option Q :=
  match fs with
  | [] => None
  | otherField :: rest =>
      if negb (includes selected (Field.id otherField))
         && Z.eqb (Field.page otherField) page
      then
        if Qle_bool (Math_abs (mainNewY [-] Field.y otherField)) snapMarginYPct
        then Some (Field.y otherField)
        else snapScanWith selected page snapMarginYPct mainNewY rest
      else snapScanWith selected page snapMarginYPct mainNewY rest
  end.

(** The body of [initialPositions.forEach]. *)
Definition dragUpdateWith (deltaX finalDeltaY : Q) (pos : Pos.t) : Update.t :=
  let newX := Pos.x pos [+] deltaX in
  let newY := Pos.y pos [+] finalDeltaY in
  let newX := Math_max 0 (Math_min (100 [-] Pos.width pos) newX) in
  let newY := Math_max 0 (Math_min (100 [-] Pos.height pos) newY) in
  Update.mk (Pos.id pos) newX newY.

(** The lasso test of one field. *)
Definition insideLassoWith (lx ly lw lh : Q) (f : Field.t) : bool :=
  Qle_bool lx (Field.x f)
  && Qle_bool ly (Field.y f)
  && Qle_bool (Field.x f [+] Field.width f) (lx [+] lw)
  && Qle_bool (Field.y f [+] Field.height f) (ly [+] lh).

(** [handleMouseMove] *)
Definition handleMouseMoveWith (e : MouseEvent) (rect : option Rect)
    (a : App) (o : Overlay) : Exc (App * Overlay) :=
  match rect with
  | None => Ok (a, o)
  | Some r =>
    match dragState o with
    | Some ds =>
        let deltaX := ((clientX e [-] startX ds) [/] rect_width r) [*] 100 in
        let deltaY := ((clientY e [-] startY ds) [/] rect_height r) [*] 100 in
        match find (fun p => String.eqb (Pos.id p) (mainFieldId ds)) (initialPositions ds) with
        | None => Throw TypeError
        | Some mainFieldInitial =>
            let mainNewY := Pos.y mainFieldInitial [+] deltaY in
            let snapMarginYPct := (5 [/] rect_height r) [*] 100 in
            let snap := snapScanWith (selectedFieldIds a) (currentPage a)
                          snapMarginYPct mainNewY (fields a) in
            let mainNewY := match snap with Some sy => sy | None => mainNewY end in
            let finalDeltaY := mainNewY [-] Pos.y mainFieldInitial in
            let updates := map (dragUpdateWith deltaX finalDeltaY) (initialPositions ds) in
            Ok (onUpdateFields updates a, setSnapLineY snap o)
        end
    | None =>
        if isLasso o || isDrawing o then
          let x := Math_max 0 (Math_min 100 (toPctWith (clientX e) (rect_left r) (rect_width r))) in
          let y := Math_max 0 (Math_min 100 (toPctWith (clientY e) (rect_top r) (rect_height r))) in
          let o' := setCurrentPos (mkPoint x y) o in
          if isLasso o then
            let lx := Math_min (px (startPos o)) x in
            let ly := Math_min (py (startPos o)) y in
            let lw := Math_abs (x [-] px (startPos o)) in
            let lh := Math_abs (y [-] py (startPos o)) in
            let newlySelected :=
              map Field.id
                (filter (insideLassoWith lx ly lw lh)
                   (filter (fun f => Z.eqb (Field.page f) (currentPage a)) (fields a))) in
            Ok (setSelectedFieldIds newlySelected a, o')
          else Ok (a, o')
        else Ok (a, o)
    end
  end.

(** [handleMouseUp] (also the [onMouseLeave] handler). *)
Definition handleMouseUpWith (a : App) (o : Overlay) : Gen (App * Overlay) :=
  match dragState o with
  | Some _ => ret (a, setSnapLineY None (setDragState None o))
  | None =>
      if isLasso o then ret (a, setIsLasso false o)
      else if isDrawing o then
        let o' := setIsDrawing false o in
        let x := Math_min (px (startPos o)) (px (currentPos o)) in
        let y := Math_min (py (startPos o)) (py (currentPos o)) in
        let width := Math_abs (px (currentPos o) [-] px (startPos o)) in
        let height := Math_abs (py (currentPos o) [-] py (startPos o)) in
        if negb (Qle_bool width 0.5) && negb (Qle_bool height 0.5) then
          i <- generateId ;;
          ret (onAddField
                 (Field.mk i (currentPage a) x y width height
                    (var_name (List.length (fields a) + 1))) a, o')
        else ret (a, o')
      else ret (a, o)
  end.

(** All four edges of [f] lie within the lasso rectangle, the far edges
    being the sums as the handler computes them. *)
Definition fullyInsideWith (lx ly lw lh : Q) (f : Field.t) : Prop :=
  lx <= Field.x f /\ ly <= Field.y f
  /\ Field.x f [+] Field.width f <= lx [+] lw
  /\ Field.y f [+] Field.height f <= ly [+] lh.

(** [other] can stop the snap loop: it is not selected, it is on the
    current page, and the distance of its y from the candidate, as the
    handler computes it, is within the margin. *)
Definition snapCandidateWith (selected : list string) (page : Z)
    (margin candidateY : Q) (other : Field.t) : Prop :=
  ~ In (Field.id other) selected
  /\ Field.page other = page
  /\ Math_abs (candidateY [-] Field.y other) <= margin.

End Rounded.

(** IEEE 754 binary64 through the kernel's primitive floats.  A finite
    double is carried as the rational it denotes; [ofQ] is exact on such
    rationals, and an operation whose result is not finite (a quotient by
    0, an overflow) is outside this model. *)
Module IEEE.

Import PrimFloat SpecFloat FloatOps.

#[local] Set Warnings "-inexact-float".

(** The rational a finite double denotes. *)
Definition toQ (f : float) : Q :=
  match Prim2SF f with
  | S754_finite s m e =>
      let magnitude :=
        if Z.leb 0 e then (Zpos m * 2 ^ e)%Z # 1
        else Zpos m # (2 ^ Z.to_pos (- e))%positive in
      if s then - magnitude else magnitude
  | _ => 0
  end.

(** [p] as an odd number times a power of two. *)
Fixpoint oddPart (p : positive) : positive * Z :=
  match p with
  | xO p' => let (m, t) := oddPart p' in (m, (t + 1)%Z)
  | _ => (p, 0%Z)
  end.

(** The double that denotes [q], for [q] a finite double: the odd part of
    the numerator, below 2^53, scaled by the remaining power of two. *)
Definition ofQ (q : Q) : float :=
  let q' := Qred q in
  let k := Z.log2 (Zpos (Qden q')) in
  match Qnum q' with
  | Z0 => PrimFloat.zero
  | Zpos p =>
      let (m, t) := oddPart p in
      Z.ldexp (PrimFloat.of_uint63 (Uint63.of_Z (Zpos m))) (t - k)
  | Zneg p =>
      let (m, t) := oddPart p in
      PrimFloat.opp (Z.ldexp (PrimFloat.of_uint63 (Uint63.of_Z (Zpos m))) (t - k))
  end.

Definition arithmetic : arith :=
  mkArith (fun a b => toQ (PrimFloat.add (ofQ a) (ofQ b)))
          (fun a b => toQ (PrimFloat.sub (ofQ a) (ofQ b)))
          (fun a b => toQ (PrimFloat.mul (ofQ a) (ofQ b)))
          (fun a b => toQ (PrimFloat.div (ofQ a) (ofQ b))).

(** The doubles written 22.833333333333332, 49.16666666666667, 0.3 and 0.8. *)
Definition d22_83 : Q := toQ 22.833333333333332%float.
Definition d49_16 : Q := toQ 49.16666666666667%float.
Definition d0_3 : Q := toQ 0.3%float.
Definition d0_8 : Q := toQ 0.8%float.

End IEEE.

(** The first revision's [handleMouseUp] with the subtraction as a
    parameter. *)
Module V1Rounded.

Definition handleMouseUpWith (ar : arith) (a : V1.App) (o : V1.Overlay)
    : Gen (V1.App * V1.Overlay) :=
  if negb (V1.isDrawing o) then ret (a, o)
  else
    let o' := V1.mkOverlay false (V1.startPos o) (V1.currentPos o) in
    let x := Math_min (px (V1.startPos o)) (px (V1.currentPos o)) in
    let y := Math_min (py (V1.startPos o)) (py (V1.currentPos o)) in
    let width := Math_abs (num_sub ar (px (V1.currentPos o)) (px (V1.startPos o))) in
    let height := Math_abs (num_sub ar (py (V1.currentPos o)) (py (V1.startPos o))) in
    if negb (Qle_bool width 0.5) && negb (Qle_bool height 0.5) then
      i <- generateId ;;
      ret (V1.onAddField
             (Field.mk i (V1.currentPage a) x y width height
                (var_name (List.length (V1.fields a) + 1))) a, o')
    else ret (a, o').

End V1Rounded.

(** A field whose right edge meets the lasso's to the last bit: x and
    width are the doubles 22.833333333333332 and 49.16666666666667. *)
Definition boundaryField : Field.t :=
  Field.mk "F" 1 IEEE.d22_83 10 IEEE.d49_16 5 "var_1".

Definition boundaryStore : App := mkApp [boundaryField] [] 1 letterDims.

(** The overlay after a press at pixel (16, 8) of the 600 by 800 overlay. *)
Definition boundaryLasso : Overlay :=
  snd (handleMouseDownWith IEEE.arithmetic (plainEvent 16 8) true sampleRect
         boundaryStore initialOverlay).

(** An 800 by 600 pixel overlay. *)
Definition wideRect : Rect := mkRect 0 0 800 600.

(** Field A, selected and pressed at pixel y = 100, beside field D at the
    same y = 10. *)
Definition fieldLevel : Field.t := Field.mk "D" 1 40 10 20 5 "var_2".
Definition storeLevel : App := mkApp [fieldA; fieldLevel] ["A"] 1 letterDims.

(** A drawing from x = 0.3 to x = 0.8 (3px and 8px of 1000px), 50 high. *)
Definition thresholdDrawing : Overlay :=
  mkOverlay true false (mkPoint IEEE.d0_3 10) (mkPoint IEEE.d0_8 60) None None.

(** * Properties *)

(** ** Comparisons *)

Lemma Qle_bool_true (a b : Q) : Qle_bool a b = true <-> a <= b.
Proof. apply Qle_bool_iff. Qed.

Lemma Qle_bool_false (a b : Q) : Qle_bool a b = false <-> b < a.
Proof.
  split; intro H.
  - apply Qnot_le_lt. intro Hle. apply Qle_bool_iff in Hle. congruence.
  - destruct (Qle_bool a b) eqn:E; [|reflexivity].
    apply Qle_bool_iff in E. exfalso. exact (Qlt_not_le _ _ H E).
Qed.

(** ** Codec *)

Lemma truthy_str (s : string) : s <> EmptyString -> truthy (VStr s) = true.
Proof.
  intro Hs. simpl. destruct (String.eqb_spec s EmptyString); [contradiction | reflexivity].
Qed.

Lemma get_truthy_object (item : value) (k : string) (v : value) :
  get item k = Ok v -> truthy v = true ->
  exists props, item = VObj props /\ lookup k props = v.
Proof.
  destruct item; simpl; intros Hg Ht; try discriminate;
    try (injection Hg as <-; discriminate).
  injection Hg as <-. eauto.
Qed.

Lemma get_defined (item : value) (k : string) (v : value) :
  get item k = Ok v -> forall k', exists v', get item k' = Ok v'.
Proof.
  destruct item; simpl; intros Hg k'; try discriminate; eauto.
Qed.

Lemma lookup_absent (k : string) (props : list (string * value)) :
  ~ In k (map fst props) -> lookup k props = VUndef.
Proof.
  induction props as [|[k' v] rest IH]; simpl; intro Hn; [reflexivity|].
  destruct (String.eqb_spec k k') as [->|Hne].
  - exfalso. apply Hn. now left.
  - apply IH. intro Hin. apply Hn. now right.
Qed.

Lemma mapM_length {A B} (f : A -> Gen B) (l : list A) src n bs n' :
  mapM f l src n = Ok (bs, n') -> List.length bs = List.length l.
Proof.
  revert n bs n'. induction l as [|a rest IH]; simpl; intros n bs n' H.
  - unfold ret in H. injection H as <- _. reflexivity.
  - unfold bind in H. destruct (f a src n) as [[b n1]|e]; [|discriminate].
    destruct (mapM f rest src n1) as [[bs1 n2]|e] eqn:E; [|discriminate].
    unfold ret in H. injection H as <- _. simpl. f_equal. eapply IH; eauto.
Qed.

(** Only a [null] (or [undefined]) element makes the callback throw: an
    array without one is imported whole, one field per element. *)
Lemma importItem_total (item : value) (src : nat -> string) (n : nat) :
  item <> VNull -> item <> VUndef ->
  exists j n', importItem item src n = Ok (j, n').
Proof.
  intros Hnull Hundef.
  assert (Hget : forall k, exists v, get item k = Ok v).
  { intro k. destruct item; simpl; eauto; contradiction. }
  destruct (Hget "percentageCoordinates") as [pc Hpc].
  destruct (Hget "id") as [i Hi], (Hget "page") as [p Hp],
           (Hget "variableName") as [v Hv], (Hget "x") as [x Hx],
           (Hget "y") as [y Hy], (Hget "width") as [w Hw], (Hget "height") as [h Hh].
  unfold importItem, bind, lift, idOrFresh, nameOrFresh, generateId, ret.
  rewrite Hpc. destruct (truthy pc) eqn:Ht.
  - rewrite Hi, Hp, Hv.
    assert (Hpcget : forall k, exists u, get pc k = Ok u).
    { intro k. destruct pc; simpl in Ht; try discriminate; simpl; eauto. }
    destruct (Hpcget "x") as [x' ->], (Hpcget "y") as [y' ->],
             (Hpcget "width") as [w' ->], (Hpcget "height") as [h' ->].
    destruct (truthy i); cbv [bind]; eauto.
  - rewrite Hi, Hp, Hv, Hx, Hy, Hw, Hh.
    destruct (truthy i), (truthy v); cbv [bind]; eauto.
Qed.

Lemma mapM_importItem_total (items : list value) (src : nat -> string) (n : nat) :
  (forall item, In item items -> item <> VNull /\ item <> VUndef) ->
  exists js n', mapM importItem items src n = Ok (js, n').
Proof.
  revert n. induction items as [|item rest IH]; intros n Hok.
  - simpl. unfold ret. eauto.
  - destruct (Hok item (or_introl eq_refl)) as [Hnull Hundef].
    destruct (importItem_total item src n Hnull Hundef) as (j & n1 & Hj).
    destruct (IH n1 (fun it Hit => Hok it (or_intror Hit))) as (js & n2 & Hjs).
    simpl. unfold bind. rewrite Hj, Hjs. unfold ret. eauto.
Qed.

Lemma import_array_total (items : list value) (store : list JField.t)
    (src : nat -> string) (n : nat) :
  (forall item, In item items -> item <> VNull /\ item <> VUndef) ->
  exists js n',
    handleJsonUpload (Some (VArr items)) store src n
    = (js, AlertImported (List.length items), n')
    /\ List.length js = List.length items.
Proof.
  intro Hok. destruct (mapM_importItem_total items src n Hok) as (js & n' & Hrun).
  pose proof (mapM_length _ _ _ _ _ _ Hrun) as Hlen.
  exists js, n'. unfold handleJsonUpload, importArray. rewrite Hrun, Hlen.
  split; reflexivity.
Qed.

(** *** Malformed input *)

(** Claim C8.  When [JSON.parse] throws, or yields a value that is not an
    array, [handleJsonUpload] shows the JSON error alert and the [fields]
    cell keeps exactly its content: nothing of the input is imported and
    no id is drawn. *)
Theorem import_malformed_rejected :
  forall (parsed : option value) (store : list JField.t) (src : nat -> string) (n : nat),
    (parsed = None \/ exists v, parsed = Some v /\ isArray v = false) ->
    handleJsonUpload parsed store src n = (store, AlertJsonError, n).
Proof.
  intros parsed store src n [-> | [v [-> Hv]]]; unfold handleJsonUpload; simpl.
  - reflexivity.
  - destruct v; simpl in Hv; try discriminate; reflexivity.
Qed.

Lemma import_malformed_rejected_witness :
  handleJsonUpload (Some (VObj [("id", VStr "a")])) [toJField (Field.mk "k" 1 1 2 3 4 "v")]
                   (fun _ => "u") 0%nat
  = ([toJField (Field.mk "k" 1 1 2 3 4 "v")], AlertJsonError, 0%nat).
Proof.
  apply import_malformed_rejected.
  right. exists (VObj [("id", VStr "a")]). split; reflexivity.
Defined.

(** *** Elements with a percentageCoordinates block *)

(** Claim C10.  An element whose [percentageCoordinates] is truthy is an
    object, and the field built from it carries the element's [page] and
    [variableName] as they are ([undefined] when the element has none, no
    default), the four coordinates read from the block, and the element's
    [id], a fresh id replacing a falsy one. *)
Theorem import_rich_shape_verbatim :
  forall (item pc : value) (src : nat -> string) (n : nat),
    get item "percentageCoordinates" = Ok pc ->
    truthy pc = true ->
    exists props j n',
      item = VObj props
      /\ importItem item src n = Ok (j, n')
      /\ JField.page j = lookup "page" props
      /\ JField.variableName j = lookup "variableName" props
      /\ (~ In "page" (map fst props) -> JField.page j = VUndef)
      /\ (~ In "variableName" (map fst props) -> JField.variableName j = VUndef)
      /\ (truthy (lookup "id" props) = true ->
          JField.id j = lookup "id" props /\ n' = n)
      /\ (truthy (lookup "id" props) = false ->
          JField.id j = VStr (src n) /\ n' = S n)
      /\ get pc "x" = Ok (JField.x j)
      /\ get pc "y" = Ok (JField.y j)
      /\ get pc "width" = Ok (JField.width j)
      /\ get pc "height" = Ok (JField.height j).
Proof.
  intros item pc src n Hg Ht.
  destruct (get_truthy_object _ _ _ Hg Ht) as [props [-> Hl]].
  assert (Hpc : forall k, exists v, get pc k = Ok v).
  { intro k. destruct pc; simpl in Ht; try discriminate; simpl; eauto. }
  destruct (Hpc "x") as [x Hx], (Hpc "y") as [y Hy],
           (Hpc "width") as [w Hw], (Hpc "height") as [h Hh].
  exists props.
  unfold importItem, bind, lift, idOrFresh. simpl get at 1. rewrite Hl, Ht.
  simpl get. rewrite Hx, Hy, Hw, Hh.
  destruct (truthy (lookup "id" props)) eqn:Hid; simpl;
    eexists; eexists; (split; [reflexivity|]); (split; [reflexivity|]); simpl;
    repeat split; auto using lookup_absent; try discriminate.
Qed.

Lemma import_rich_shape_verbatim_witness :
  exists props j n',
    VObj [("percentageCoordinates", VObj [("x", VNum 1)])] = VObj props
    /\ importItem (VObj [("percentageCoordinates", VObj [("x", VNum 1)])]) sampleIds 0%nat
       = Ok (j, n')
    /\ JField.page j = lookup "page" props
    /\ JField.variableName j = lookup "variableName" props
    /\ (~ In "page" (map fst props) -> JField.page j = VUndef)
    /\ (~ In "variableName" (map fst props) -> JField.variableName j = VUndef)
    /\ (truthy (lookup "id" props) = true ->
        JField.id j = lookup "id" props /\ n' = 0%nat)
    /\ (truthy (lookup "id" props) = false ->
        JField.id j = VStr (sampleIds 0) /\ n' = 1%nat)
    /\ get (VObj [("x", VNum 1)]) "x" = Ok (JField.x j)
    /\ get (VObj [("x", VNum 1)]) "y" = Ok (JField.y j)
    /\ get (VObj [("x", VNum 1)]) "width" = Ok (JField.width j)
    /\ get (VObj [("x", VNum 1)]) "height" = Ok (JField.height j).
Proof.
  apply (import_rich_shape_verbatim
           (VObj [("percentageCoordinates", VObj [("x", VNum 1)])])
           (VObj [("x", VNum 1)]) sampleIds 0%nat); reflexivity.
Defined.

(** An element with the block and nothing else: [page] and [variableName]
    come out [undefined], the missing coordinates too. *)
Example import_rich_shape_bare :
  importItem (VObj [("percentageCoordinates", VObj [("x", VNum 1)])]) sampleIds 0%nat
  = Ok (JField.mk (VStr "id0") VUndef VUndef (VNum 1) VUndef VUndef VUndef, 1%nat).
Proof. reflexivity. Qed.

(** *** Elements without the block *)

(** The rule as stated fails on an element whose [width] is the number 0
    (the property is there, and the field gets 10), and an element that is
    [null] makes the whole import fail. *)
Lemma import_raw_zero_width_not_direct :
  (exists j n',
      importItem (VObj rawZeroWidthProps) sampleIds 0%nat = Ok (j, n')
      /\ JField.width j = VNum 10
      /\ ~ rawShapeAsStated rawZeroWidthProps j)
  /\ handleJsonUpload (Some (VArr [VNull])) [] sampleIds 0%nat
     = ([], AlertJsonError, 0%nat).
Proof.
  split; [|reflexivity].
  eexists; eexists. split; [reflexivity|]. split; [reflexivity|].
  intros (_ & _ & _ & Hw & _). unfold directOrDefault in Hw. simpl in Hw.
  discriminate Hw.
Qed.

(** Claim C9 (amended).  For an element that is not [null] and whose
    [percentageCoordinates] is missing or falsy, each of [page], [x], [y],
    [width], [height] is the element's own value when that value is truthy
    and the default 1, 0, 0, 10, 5 when it is missing or falsy; the name is
    the element's when truthy and ["var_"] plus four characters of a fresh
    id otherwise; the id is the element's when truthy and a fresh id
    otherwise.  The file [[rawFoo]] imports as exactly one field with page
    2, x 5, y 5, width 20, height 10, name foo and a fresh id. *)
Theorem import_raw_shape_defaults :
  (forall (item pc : value) (src : nat -> string) (n : nat),
      get item "percentageCoordinates" = Ok pc ->
      truthy pc = false ->
      exists i p v x y w h,
        get item "id" = Ok i /\ get item "page" = Ok p
        /\ get item "variableName" = Ok v
        /\ get item "x" = Ok x /\ get item "y" = Ok y
        /\ get item "width" = Ok w /\ get item "height" = Ok h
        /\ let n1 := if truthy i then n else S n in
           importItem item src n
           = Ok (JField.mk
                   (if truthy i then i else VStr (src n))
                   (if truthy p then p else VNum 1)
                   (if truthy v then v else VStr ("var_" ++ substring0 4 (src n1)))
                   (if truthy x then x else VNum 0)
                   (if truthy y then y else VNum 0)
                   (if truthy w then w else VNum 10)
                   (if truthy h then h else VNum 5),
                 if truthy v then n1 else S n1))
  /\ (forall (store : list JField.t) (src : nat -> string) (n : nat),
        handleJsonUpload (Some (VArr [rawFoo])) store src n
        = ([JField.mk (VStr (src n)) (VNum 2) (VStr "foo")
                      (VNum 5) (VNum 5) (VNum 20) (VNum 10)],
           AlertImported 1, S n)).
Proof.
  split; [|reflexivity].
  intros item pc src n Hg Ht.
  destruct (get_defined _ _ _ Hg "id") as [i Hi].
  destruct (get_defined _ _ _ Hg "page") as [p Hp].
  destruct (get_defined _ _ _ Hg "variableName") as [v Hv].
  destruct (get_defined _ _ _ Hg "x") as [x Hx].
  destruct (get_defined _ _ _ Hg "y") as [y Hy].
  destruct (get_defined _ _ _ Hg "width") as [w Hw].
  destruct (get_defined _ _ _ Hg "height") as [h Hh].
  exists i, p, v, x, y, w, h. repeat (split; [assumption|]).
  unfold importItem, bind, lift, idOrFresh, nameOrFresh, or_else, generateId, ret.
  rewrite Hg, Ht, Hi, Hp, Hv, Hx, Hy, Hw, Hh.
  destruct (truthy i), (truthy v); reflexivity.
Qed.

Lemma import_raw_shape_defaults_witness :
  exists i p v x y w h,
    get (VObj rawZeroWidthProps) "id" = Ok i
    /\ get (VObj rawZeroWidthProps) "page" = Ok p
    /\ get (VObj rawZeroWidthProps) "variableName" = Ok v
    /\ get (VObj rawZeroWidthProps) "x" = Ok x
    /\ get (VObj rawZeroWidthProps) "y" = Ok y
    /\ get (VObj rawZeroWidthProps) "width" = Ok w
    /\ get (VObj rawZeroWidthProps) "height" = Ok h
    /\ let n1 := if truthy i then 0%nat else 1%nat in
       importItem (VObj rawZeroWidthProps) sampleIds 0%nat
       = Ok (JField.mk
               (if truthy i then i else VStr (sampleIds 0))
               (if truthy p then p else VNum 1)
               (if truthy v then v else VStr ("var_" ++ substring0 4 (sampleIds n1)))
               (if truthy x then x else VNum 0)
               (if truthy y then y else VNum 0)
               (if truthy w then w else VNum 10)
               (if truthy h then h else VNum 5),
             if truthy v then n1 else S n1).
Proof.
  apply (proj1 import_raw_shape_defaults (VObj rawZeroWidthProps) VUndef sampleIds 0%nat);
    reflexivity.
Defined.

(** ** Rounding to 2 decimals *)

Lemma Qmake_100 (n : Z) : n # 100 == inject_Z n * (1 # 100).
Proof. unfold Qeq, inject_Z, Qmult. simpl. lia. Qed.

(** [toFixed2 x] is a whole number of hundredths within half a hundredth of [x]. *)
Lemma toFixed2_close (x : Q) :
  (exists n : Z, toFixed2 x = n # 100) /\ Qabs (toFixed2 x - x) <= 1 # 200.
Proof.
  unfold toFixed2.
  set (n := Qfloor (Qabs x * 100 + (1 # 2))).
  pose proof (Qfloor_le (Qabs x * 100 + (1 # 2))) as Hlo.
  pose proof (Qlt_floor (Qabs x * 100 + (1 # 2))) as Hhi.
  fold n in Hlo, Hhi. rewrite inject_Z_plus in Hhi.
  change (inject_Z 1) with 1 in Hhi.
  destruct (Qle_bool 0 x) eqn:E.
  - split; [eauto|]. apply Qle_bool_true in E.
    rewrite (Qabs_pos x E) in Hlo, Hhi.
    rewrite Qmake_100. apply Qabs_Qle_condition.
    revert Hlo Hhi. generalize (inject_Z n). intros z Hlo Hhi. split; lra.
  - split; [eauto|]. apply Qle_bool_false in E.
    rewrite (Qabs_neg x) in Hlo, Hhi by lra.
    rewrite Qmake_100, inject_Z_opp. apply Qabs_Qle_condition.
    revert Hlo Hhi. generalize (inject_Z n). intros z Hlo Hhi. split; lra.
Qed.

(** *** Export then import *)

Lemma importItem_exported (dims : Z -> option PageDim) (f : Field.t) (d : PageDim)
    (src : nat -> string) (n : nat) :
  dims (Field.page f) = Some d ->
  Field.id f <> EmptyString ->
  importItem (exportField dims f) src n = Ok (toJField (rounded f), n).
Proof.
  intros Hd Hid. unfold exportField. rewrite Hd.
  unfold importItem, bind, lift, idOrFresh, ret.
  cbn -[toFixed2 inject_Z Qdiv Qmult Qminus Qplus].
  destruct (String.eqb_spec (Field.id f) EmptyString); [contradiction | reflexivity].
Qed.

Lemma mapM_importItem_exported (dims : Z -> option PageDim) (fs : list Field.t)
    (src : nat -> string) (n : nat) :
  (forall f, In f fs -> Field.id f <> EmptyString) ->
  (forall f, In f fs -> dims (Field.page f) <> None) ->
  mapM importItem (map (exportField dims) fs) src n
  = Ok (map toJField (map rounded fs), n).
Proof.
  induction fs as [|f rest IH]; intros Hid Hdim; [reflexivity|].
  simpl. unfold bind at 1.
  destruct (dims (Field.page f)) as [d|] eqn:Hd;
    [|exfalso; apply (Hdim f); [now left | assumption]].
  rewrite (importItem_exported dims f d src n Hd (Hid f (or_introl eq_refl))).
  unfold bind at 1. rewrite IH.
  - reflexivity.
  - intros g Hg. apply Hid. now right.
  - intros g Hg. apply Hdim. now right.
Qed.

(** Without page dimensions the bare field is exported and comes back as
    it is: x stays 1.234 where the statement expects 1.23. *)
Lemma round_trip_unrounded_without_dimensions :
  ~ roundTripAsStated
      (mkApp [Field.mk "a" 2 1.234 10 20 5 "var_1"] [] 1 letterDims).
Proof.
  intro H.
  assert (Hid : forall f, In f [Field.mk "a" 2 1.234 10 20 5 "var_1"] -> Field.id f <> EmptyString).
  { intros f [<- | []]. discriminate. }
  specialize (H Hid [] sampleIds 0%nat). vm_compute in H. discriminate H.
Qed.

(** Claim C1 (amended).  When every field has a non-empty id and a page
    whose dimensions are known, importing the exported array replaces the
    store by the same fields in the same order, each with its id,
    variableName and page as they were and x, y, width, height rounded to 2
    decimals; no id is generated. *)
Theorem export_import_round_trip :
  forall (a : App) (store : list JField.t) (src : nat -> string) (n : nat),
    (forall f, In f (fields a) -> Field.id f <> EmptyString) ->
    (forall f, In f (fields a) -> pageDimensions a (Field.page f) <> None) ->
    handleJsonUpload (Some (handleExport a)) store src n
    = (map toJField (map rounded (fields a)),
       AlertImported (List.length (fields a)), n).
Proof.
  intros a store src n Hid Hdim.
  unfold handleJsonUpload, handleExport, importArray.
  rewrite (mapM_importItem_exported _ _ src n Hid Hdim).
  rewrite !length_map. reflexivity.
Qed.

Lemma export_import_round_trip_witness :
  handleJsonUpload
    (Some (handleExport (mkApp [Field.mk "a" 1 1.234 10 20 5 "var_1"] [] 1 letterDims)))
    [] sampleIds 0%nat
  = (map toJField (map rounded [Field.mk "a" 1 1.234 10 20 5 "var_1"]),
     AlertImported 1, 0%nat).
Proof.
  apply (export_import_round_trip
           (mkApp [Field.mk "a" 1 1.234 10 20 5 "var_1"] [] 1 letterDims)
           [] sampleIds 0%nat).
  - intros f [<- | []]. discriminate.
  - intros f [<- | []]. discriminate.
Defined.

(** ** Lasso *)

Lemma insideLasso_spec (lx ly lw lh : Q) (f : Field.t) :
  insideLasso lx ly lw lh f = true <-> fullyInside lx ly lw lh f.
Proof.
  unfold insideLasso, fullyInside.
  rewrite !andb_true_iff, !Qle_bool_true. tauto.
Qed.

(** The lasso rectangle spans from the smaller to the larger coordinate. *)
Lemma lasso_far_edge (s c : Q) :
  Math_min s c + Math_abs (c - s) == Math_max s c.
Proof.
  unfold Math_min, Math_max, Math_abs.
  destruct (Qle_bool s c) eqn:E.
  - apply Qle_bool_true in E. rewrite Qabs_pos by lra. lra.
  - apply Qle_bool_false in E. rewrite Qabs_neg by lra. lra.
Qed.

Lemma insideLassoWith_spec (ar : arith) (lx ly lw lh : Q) (f : Field.t) :
  insideLassoWith ar lx ly lw lh f = true <-> fullyInsideWith ar lx ly lw lh f.
Proof.
  unfold insideLassoWith, fullyInsideWith.
  rewrite !andb_true_iff, !Qle_bool_true. tauto.
Qed.

(** Claim C3.  On a pointer move while lassoing (no drag session), under
    whatever arithmetic the four operations are evaluated with, the
    selection becomes the ids, in store order, of the fields of the current
    page that satisfy the four inequalities against the lasso rectangle
    spanned by the press position and the clamped pointer position, the
    sums x + width, y + height, lassoX + lassoWidth and lassoY + lassoHeight
    being those the handler computes: an id is selected exactly when some
    field of the current page with that id lies fully inside.  The store
    is untouched, and the gesture stays active, so every further move
    recomputes the set. *)
Theorem lasso_move_selects_enclosed_fields :
  forall (ar : arith) (e : MouseEvent) (r : Rect) (a : App) (o : Overlay),
    visible r ->
    dragState o = None ->
    isLasso o = true ->
    let x := Math_max 0 (Math_min 100
               (num_mul ar (num_div ar (num_sub ar (clientX e) (rect_left r))
                              (rect_width r)) 100)) in
    let y := Math_max 0 (Math_min 100
               (num_mul ar (num_div ar (num_sub ar (clientY e) (rect_top r))
                              (rect_height r)) 100)) in
    let lx := Math_min (px (startPos o)) x in
    let ly := Math_min (py (startPos o)) y in
    let lw := Math_abs (num_sub ar x (px (startPos o))) in
    let lh := Math_abs (num_sub ar y (py (startPos o))) in
    exists a' o',
      handleMouseMoveWith ar e (Some r) a o = Ok (a', o')
      /\ fields a' = fields a
      /\ isLasso o' = true /\ dragState o' = None /\ startPos o' = startPos o
      /\ currentPos o' = mkPoint x y
      /\ (forall i, In i (selectedFieldIds a') <->
                    exists f, In f (fields a) /\ Field.id f = i
                              /\ Field.page f = currentPage a
                              /\ fullyInsideWith ar lx ly lw lh f)
      /\ (forall f, In f (fields a) -> Field.page f <> currentPage a \/
                                       ~ fullyInsideWith ar lx ly lw lh f ->
                    (forall g, In g (fields a) -> Field.id g = Field.id f ->
                               Field.page g = currentPage a ->
                               fullyInsideWith ar lx ly lw lh g -> g = f) ->
                    ~ In (Field.id f) (selectedFieldIds a'))
      /\ exists enclosed,
           selectedFieldIds a' = map Field.id enclosed
           /\ (forall f, In f enclosed <->
                         In f (fields a) /\ Field.page f = currentPage a
                         /\ fullyInsideWith ar lx ly lw lh f).
Proof.
  intros ar e r a o _ Hd Hl x y lx ly lw lh.
  unfold handleMouseMoveWith, toPctWith. rewrite Hd, Hl. simpl orb. cbv iota.
  fold x y. fold lx ly lw lh.
  eexists; eexists. split; [reflexivity|].
  assert (Hin : forall f,
             In f (filter (insideLassoWith ar lx ly lw lh)
                     (filter (fun f => Z.eqb (Field.page f) (currentPage a)) (fields a)))
             <-> In f (fields a) /\ Field.page f = currentPage a
                 /\ fullyInsideWith ar lx ly lw lh f).
  { intro f. rewrite !filter_In, insideLassoWith_spec, Z.eqb_eq. tauto. }
  simpl. repeat split; try assumption.
  - intro Hi. apply in_map_iff in Hi. destruct Hi as [f [Hf Hi]].
    apply Hin in Hi. exists f. tauto.
  - intros [f [Hf [Hi [Hp Hins]]]]. apply in_map_iff. exists f.
    split; [assumption|]. apply Hin. tauto.
  - intros f Hf Hout Huniq Hi. apply in_map_iff in Hi.
    destruct Hi as [g [Hg Hi]]. apply Hin in Hi. destruct Hi as [Hgin [Hgp Hgi]].
    assert (g = f) by (apply Huniq; assumption). subst g.
    destruct Hout as [Hout | Hout]; contradiction.
  - eexists. split; [reflexivity|]. exact Hin.
Qed.

(** Under the browser's arithmetic, the press at pixel (16, 8) and the
    pointer at pixel (432, 320) of the 600 by 800 overlay: both far edges
    are computed as 72, and the boundary field is selected. *)
Lemma lasso_move_selects_enclosed_fields_witness :
  exists a' o',
    handleMouseMoveWith IEEE.arithmetic (plainEvent 432 320) (Some sampleRect)
      boundaryStore boundaryLasso = Ok (a', o')
    /\ selectedFieldIds a' = ["F"].
Proof.
  destruct (lasso_move_selects_enclosed_fields IEEE.arithmetic
              (plainEvent 432 320) sampleRect boundaryStore boundaryLasso)
    as (a' & o' & Hrun & _).
  - split; reflexivity.
  - reflexivity.
  - reflexivity.
  - exists a', o'. split; [exact Hrun|].
    vm_compute in Hrun. injection Hrun as <- _. reflexivity.
Defined.

(** With exact sums the field's right edge is beyond the lasso's by less
    than one part in 10^14, and the same move selects nothing. *)
Example lasso_boundary_exact_arithmetic :
  exists a' o',
    handleMouseMoveWith exactArith (plainEvent 432 320) (Some sampleRect)
      boundaryStore boundaryLasso = Ok (a', o')
    /\ selectedFieldIds a' = [].
Proof.
  eexists; eexists. split; [reflexivity|]. vm_compute. reflexivity.
Qed.

(** ** syncY *)

Lemma filter_first_split {A} (p : A -> bool) (pre : list A) (first : A) (post : list A) :
  p first = true ->
  (forall f, In f pre -> p f = false) ->
  filter p (pre ++ first :: post) = first :: filter p post.
Proof.
  intros Hf Hpre. induction pre as [|g pre IH]; simpl.
  - now rewrite Hf.
  - rewrite (Hpre g (or_introl eq_refl)). apply IH.
    intros f Hin. apply Hpre. now right.
Qed.

Lemma includes_In (ids : list string) (i : string) :
  includes ids i = true <-> In i ids.
Proof.
  unfold includes. rewrite existsb_exists. split.
  - intros [j [Hj He]]. apply String.eqb_eq in He. now subst.
  - intro Hi. exists i. split; [assumption | apply String.eqb_refl].
Qed.

Lemma includes_perm (l l' : list string) (i : string) :
  Permutation l l' -> includes l i = includes l' i.
Proof.
  intro Hp. destruct (includes l i) eqn:E; symmetry.
  - apply includes_In. apply (Permutation_in _ Hp). now apply includes_In.
  - destruct (includes l' i) eqn:E'; [|reflexivity].
    apply includes_In in E'. apply (Permutation_in _ (Permutation_sym Hp)) in E'.
    apply includes_In in E'. congruence.
Qed.

(** Claim C6.  [syncY] returns the state as it is when fewer than two ids
    are selected.  With two or more, and [first] the first field of the
    store (in store order) whose id is selected, the y of every field whose
    id is selected becomes [first]'s y, the y of every other field stays,
    and no field changes its id, page, x, width, height or name, nor its
    place in the store.  With A(y=10), B(y=30), C(y=50) in the store and
    selected, in whatever order they were clicked, all three end at y=10. *)
Theorem syncY_aligns_to_first_in_store_order :
  (forall a : App,
      (List.length (selectedFieldIds a) < 2)%nat -> syncY a = Ok a)
  /\ (forall (a : App) (pre : list Field.t) (first : Field.t) (post : list Field.t),
        (2 <= List.length (selectedFieldIds a))%nat ->
        fields a = (pre ++ first :: post)%list ->
        In (Field.id first) (selectedFieldIds a) ->
        (forall f, In f pre -> ~ In (Field.id f) (selectedFieldIds a)) ->
        exists a',
          syncY a = Ok a'
          /\ selectedFieldIds a' = selectedFieldIds a
          /\ currentPage a' = currentPage a
          /\ List.length (fields a') = List.length (fields a)
          /\ forall k f, nth_error (fields a) k = Some f ->
               exists f', nth_error (fields a') k = Some f'
                 /\ Field.id f' = Field.id f
                 /\ Field.page f' = Field.page f
                 /\ Field.x f' = Field.x f
                 /\ Field.width f' = Field.width f
                 /\ Field.height f' = Field.height f
                 /\ Field.variableName f' = Field.variableName f
                 /\ (In (Field.id f) (selectedFieldIds a) ->
                     Field.y f' = Field.y first)
                 /\ (~ In (Field.id f) (selectedFieldIds a) ->
                     Field.y f' = Field.y f))
  /\ (forall clicks : list string,
        Permutation clicks ["A"; "B"; "C"] ->
        exists a',
          syncY (storeABC clicks) = Ok a'
          /\ fields a' = [Field.mk "A" 1 10 10 20 5 "var_1";
                          Field.mk "B" 1 40 10 20 5 "var_2";
                          Field.mk "C" 1 70 10 20 5 "var_3"]
          /\ map Field.y (fields a') = [10; 10; 10]).
Proof.
  split; [|split].
  - intros a Hlt. unfold syncY.
    destruct (Nat.ltb_spec (List.length (selectedFieldIds a)) 2); [reflexivity | lia].
  - intros a pre first post Hge Hsplit Hfirst Hpre. unfold syncY.
    destruct (Nat.ltb_spec (List.length (selectedFieldIds a)) 2); [lia|].
    cbv zeta.
    assert (Hsel : filter (fun f => includes (selectedFieldIds a) (Field.id f)) (fields a)
                   = first :: filter (fun f => includes (selectedFieldIds a) (Field.id f)) post).
    { rewrite Hsplit. apply filter_first_split.
      - now apply includes_In.
      - intros f Hf.
        destruct (includes (selectedFieldIds a) (Field.id f)) eqn:E; [|reflexivity].
        apply includes_In in E. exfalso. exact (Hpre f Hf E). }
    rewrite Hsel. eexists. split; [reflexivity|]. simpl.
    split; [reflexivity|]. split; [reflexivity|]. split; [apply length_map|].
    intros k f Hk. rewrite nth_error_map, Hk. simpl.
    eexists. split; [reflexivity|].
    destruct (includes (selectedFieldIds a) (Field.id f)) eqn:E.
    + apply includes_In in E. simpl. repeat split; try reflexivity. tauto.
    + assert (~ In (Field.id f) (selectedFieldIds a)).
      { intro Hin. apply includes_In in Hin. congruence. }
      repeat split; try reflexivity. tauto.
  - intros clicks Hp. unfold syncY, storeABC. simpl selectedFieldIds. simpl fields.
    rewrite (Permutation_length Hp). simpl Nat.ltb. cbv iota.
    simpl filter. simpl map.
    rewrite !(includes_perm _ _ _ Hp). simpl.
    eexists. split; [reflexivity|]. split; reflexivity.
Qed.

Lemma syncY_aligns_to_first_in_store_order_witness :
  exists a',
    syncY (mkApp [fieldA; fieldB; fieldC] ["C"; "B"] 1 letterDims) = Ok a'
    /\ fields a' = [Field.mk "A" 1 10 10 20 5 "var_1";
                    Field.mk "B" 1 40 30 20 5 "var_2";
                    Field.mk "C" 1 70 30 20 5 "var_3"].
Proof.
  destruct (proj1 (proj2 syncY_aligns_to_first_in_store_order)
              (mkApp [fieldA; fieldB; fieldC] ["C"; "B"] 1 letterDims)
              [fieldA] fieldB [fieldC]) as (a' & Hrun & _).
  - simpl. lia.
  - reflexivity.
  - simpl. auto.
  - intros f [<- | []]. simpl. intros [H | [H | []]]; discriminate H.
  - exists a'. split; [exact Hrun|].
    vm_compute in Hrun. injection Hrun as <-. reflexivity.
Defined.

(** ** Mode toggle *)

(** Claim C7 (the code departs from it).  [handleMouseDown] on the empty
    canvas sets [isLasso] whatever the mode button set, and leaves
    [isDrawing] as it was.  With the mode button on, a press therefore has
    both flags set; the move that follows computes a lasso selection, the
    release ends the lasso without adding a field, and [isDrawing] is still
    set afterwards. *)
Theorem pointer_down_ignores_drawing_mode :
  (forall (e : MouseEvent) (r : Rect) (a : App) (o : Overlay),
      isLasso (snd (handleMouseDown e true r a o)) = true
      /\ isDrawing (snd (handleMouseDown e true r a o)) = isDrawing o)
  /\ (let o1 := toggleDrawingMode initialOverlay in
      let s2 := handleMouseDown (plainEvent 30 40) true sampleRect (storeABC []) o1 in
      isDrawing o1 = true /\ isLasso o1 = false
      /\ isDrawing (snd s2) = true /\ isLasso (snd s2) = true
      /\ exists a3 o3 a4 o4 n,
           handleMouseMove (plainEvent 390 320) (Some sampleRect) (fst s2) (snd s2)
           = Ok (a3, o3)
           /\ selectedFieldIds a3 = ["A"; "B"]
           /\ handleMouseUp a3 o3 sampleIds 0%nat = Ok ((a4, o4), n)
           /\ fields a4 = [fieldA; fieldB; fieldC]
           /\ n = 0%nat
           /\ isLasso o4 = false /\ isDrawing o4 = true).
Proof.
  split.
  - intros e r a o. unfold handleMouseDown. simpl negb. cbv iota.
    destruct (negb (shiftKey e) && negb (ctrlKey e) && negb (metaKey e));
      split; reflexivity.
  - cbv zeta. repeat (split; [reflexivity|]).
    do 5 eexists. split; [reflexivity|]. split; [reflexivity|].
    split; [reflexivity|]. repeat split.
Qed.

(** ** Deletion and the selection *)

Lemma setFields_same (a : App) : setFields (fields a) a = a.
Proof. destruct a; reflexivity. Qed.

Lemma map_id_on {A} (g : A -> A) (l : list A) :
  (forall f, In f l -> g f = f) -> map g l = l.
Proof.
  induction l as [|f l IH]; simpl; intro H; [reflexivity|].
  rewrite H by now left. f_equal. apply IH. intros. apply H. now right.
Qed.

Lemma find_none_when {A} (p : A -> bool) (l : list A) :
  (forall u, In u l -> p u = false) -> find p l = None.
Proof.
  induction l as [|u l IH]; simpl; intro H; [reflexivity|].
  rewrite H by now left. apply IH. intros. apply H. now right.
Qed.

(** A batch that names no field of the store changes nothing. *)
Lemma onUpdateFields_foreign (updates : list Update.t) (a : App) :
  (forall u f, In u updates -> In f (fields a) -> Update.id u <> Field.id f) ->
  onUpdateFields updates a = a.
Proof.
  intro H. unfold onUpdateFields. rewrite map_id_on; [apply setFields_same|].
  intros f Hf. rewrite find_none_when; [reflexivity|].
  intros u Hu. apply String.eqb_neq. now apply H.
Qed.

Lemma renameField_foreign (i name : string) (a : App) :
  (forall f, In f (fields a) -> Field.id f <> i) ->
  renameField i name a = a.
Proof.
  intro H. unfold renameField. rewrite map_id_on; [apply setFields_same|].
  intros f Hf. apply H in Hf. apply String.eqb_neq in Hf. now rewrite Hf.
Qed.

Lemma deleteField_fields (i : string) (a : App) (f : Field.t) :
  In f (fields (deleteField i a)) <-> In f (fields a) /\ Field.id f <> i.
Proof.
  unfold deleteField. simpl. rewrite filter_In, negb_true_iff, String.eqb_neq. tauto.
Qed.

Lemma deleteField_selection (i : string) (a : App) (j : string) :
  In j (selectedFieldIds (deleteField i a)) <-> In j (selectedFieldIds a) /\ j <> i.
Proof.
  unfold deleteField. simpl. rewrite filter_In, negb_true_iff, String.eqb_neq. tauto.
Qed.

Lemma deleteSelected_fields (a : App) (f : Field.t) :
  In f (fields (deleteSelected a)) <->
  In f (fields a) /\ ~ In (Field.id f) (selectedFieldIds a).
Proof.
  unfold deleteSelected. simpl. rewrite filter_In, negb_true_iff.
  rewrite <- includes_In. rewrite not_true_iff_false. tauto.
Qed.

(** Field A is drawn (and selected), a file holding only field B is
    imported, B is deleted with its trash button: the selection still
    holds A's id, which no field of the store carries. *)
Lemma delete_after_import_leaves_dangling_id :
  exists a2 n,
    importJson (Some (handleExport (mkApp [fieldB] [] 1 letterDims)))
               (onAddField fieldA emptyApp) sampleIds 0%nat
    = Some (a2, AlertImported 1, n)
    /\ ~ noDangling (deleteField "B" a2).
Proof.
  eexists; eexists. split; [reflexivity|].
  intro H. destruct (H "A") as [f [Hf _]].
  - simpl. now left.
  - simpl in Hf. exact Hf.
Qed.

(** Claim C5 (amended).  Deleting the field with id [i] removes every
    field carrying [i] from the store and [i] from the selection in the same
    handler, keeping every other field and selected id; deleting the selected
    fields removes every field whose id is selected and empties the
    selection.  After either, a selection that named only stored fields
    before still does, and a batch move or a rename aimed at a deleted id
    returns the state as it is. *)
Theorem delete_prunes_selection :
  forall (a : App) (i : string),
    (~ In i (selectedFieldIds (deleteField i a))
     /\ (forall f, In f (fields (deleteField i a)) <-> In f (fields a) /\ Field.id f <> i)
     /\ (forall j, In j (selectedFieldIds (deleteField i a)) <->
                   In j (selectedFieldIds a) /\ j <> i)
     /\ (noDangling a -> noDangling (deleteField i a))
     /\ (forall updates, (forall u, In u updates -> Update.id u = i) ->
                         onUpdateFields updates (deleteField i a) = deleteField i a)
     /\ (forall name, renameField i name (deleteField i a) = deleteField i a))
    /\
    (selectedFieldIds (deleteSelected a) = []
     /\ (forall f, In f (fields (deleteSelected a)) <->
                   In f (fields a) /\ ~ In (Field.id f) (selectedFieldIds a))
     /\ noDangling (deleteSelected a)
     /\ (forall updates,
            (forall u, In u updates -> In (Update.id u) (selectedFieldIds a)) ->
            onUpdateFields updates (deleteSelected a) = deleteSelected a)
     /\ (forall name, In i (selectedFieldIds a) ->
                      renameField i name (deleteSelected a) = deleteSelected a)).
Proof.
  intros a i. split.
  - split; [|split; [|split; [|split; [|split]]]].
    + rewrite deleteField_selection. tauto.
    + apply deleteField_fields.
    + apply deleteField_selection.
    + intros Hnd j Hj. apply deleteField_selection in Hj. destruct Hj as [Hj Hne].
      destruct (Hnd j Hj) as [f [Hf Hid]]. exists f. split; [|assumption].
      apply deleteField_fields. split; [assumption | congruence].
    + intros updates Hu. apply onUpdateFields_foreign.
      intros u f Hin Hf. apply deleteField_fields in Hf. rewrite (Hu u Hin).
      intro E. symmetry in E. tauto.
    + intro name. apply renameField_foreign.
      intros f Hf. apply deleteField_fields in Hf. tauto.
  - split; [reflexivity|]. split; [apply deleteSelected_fields|]. split; [|split].
    + intros j []. 
    + intros updates Hu. apply onUpdateFields_foreign.
      intros u f Hin Hf E. apply deleteSelected_fields in Hf.
      apply (proj2 Hf). rewrite <- E. now apply Hu.
    + intros name Hi. apply renameField_foreign.
      intros f Hf E. apply deleteSelected_fields in Hf. apply (proj2 Hf). now rewrite E.
Qed.

Lemma delete_prunes_selection_witness :
  noDangling (deleteField "B" (storeABC ["A"; "B"]))
  /\ selectedFieldIds (deleteField "B" (storeABC ["A"; "B"])) = ["A"]
  /\ fields (deleteField "B" (storeABC ["A"; "B"])) = [fieldA; fieldC].
Proof.
  split; [|split; reflexivity].
  apply (proj1 (delete_prunes_selection (storeABC ["A"; "B"]) "B")).
  intros i [<- | [<- | []]].
  - exists fieldA. simpl. auto.
  - exists fieldB. simpl. auto.
Defined.

(** ** Drag: snapping *)

Lemma snapStep_spec (selected : list string) (page : Z) (margin cand : Q) (f : Field.t) :
  (negb (includes selected (Field.id f)) && Z.eqb (Field.page f) page
   && Qle_bool (Math_abs (cand - Field.y f)) margin) = true
  <-> snapCandidate selected page margin cand f.
Proof.
  unfold snapCandidate, Math_abs.
  rewrite !andb_true_iff, negb_true_iff, Z.eqb_eq, Qle_bool_true.
  rewrite <- includes_In, not_true_iff_false. tauto.
Qed.

Lemma snapScan_step (selected : list string) (page : Z) (margin cand : Q)
    (f : Field.t) (rest : list Field.t) :
  snapScan selected page margin cand (f :: rest)
  = if negb (includes selected (Field.id f)) && Z.eqb (Field.page f) page
       && Qle_bool (Math_abs (cand - Field.y f)) margin
    then Some (Field.y f)
    else snapScan selected page margin cand rest.
Proof.
  simpl. destruct (negb (includes selected (Field.id f)) && Z.eqb (Field.page f) page);
    reflexivity.
Qed.

Lemma snapScan_none (selected : list string) (page : Z) (margin cand : Q)
    (fs : list Field.t) :
  (forall f, In f fs -> ~ snapCandidate selected page margin cand f) ->
  snapScan selected page margin cand fs = None.
Proof.
  induction fs as [|f rest IH]; intro H; [reflexivity|].
  rewrite snapScan_step.
  destruct (negb (includes selected (Field.id f)) && Z.eqb (Field.page f) page
            && Qle_bool (Math_abs (cand - Field.y f)) margin) eqn:E.
  - apply snapStep_spec in E. exfalso. exact (H f (or_introl eq_refl) E).
  - apply IH. intros g Hg. apply H. now right.
Qed.

Lemma snapScan_first (selected : list string) (page : Z) (margin cand : Q)
    (pre : list Field.t) (other : Field.t) (post : list Field.t) :
  snapCandidate selected page margin cand other ->
  (forall f, In f pre -> ~ snapCandidate selected page margin cand f) ->
  snapScan selected page margin cand (pre ++ other :: post) = Some (Field.y other).
Proof.
  intros Ho Hpre. induction pre as [|f pre IH].
  - simpl app. rewrite snapScan_step.
    apply snapStep_spec in Ho. now rewrite Ho.
  - simpl app. rewrite snapScan_step.
    destruct (negb (includes selected (Field.id f)) && Z.eqb (Field.page f) page
              && Qle_bool (Math_abs (cand - Field.y f)) margin) eqn:E.
    + apply snapStep_spec in E. exfalso. exact (Hpre f (or_introl eq_refl) E).
    + apply IH. intros g Hg. apply Hpre. now right.
Qed.

Lemma snapStepWith_spec (ar : arith) (selected : list string) (page : Z)
    (margin cand : Q) (f : Field.t) :
  (negb (includes selected (Field.id f)) && Z.eqb (Field.page f) page
   && Qle_bool (Math_abs (num_sub ar cand (Field.y f))) margin) = true
  <-> snapCandidateWith ar selected page margin cand f.
Proof.
  unfold snapCandidateWith.
  rewrite !andb_true_iff, negb_true_iff, Z.eqb_eq, Qle_bool_true.
  rewrite <- includes_In, not_true_iff_false. tauto.
Qed.

Lemma snapScanWith_step (ar : arith) (selected : list string) (page : Z)
    (margin cand : Q) (f : Field.t) (rest : list Field.t) :
  snapScanWith ar selected page margin cand (f :: rest)
  = if negb (includes selected (Field.id f)) && Z.eqb (Field.page f) page
       && Qle_bool (Math_abs (num_sub ar cand (Field.y f))) margin
    then Some (Field.y f)
    else snapScanWith ar selected page margin cand rest.
Proof.
  simpl. destruct (negb (includes selected (Field.id f)) && Z.eqb (Field.page f) page);
    reflexivity.
Qed.

Lemma snapScanWith_none (ar : arith) (selected : list string) (page : Z)
    (margin cand : Q) (fs : list Field.t) :
  (forall f, In f fs -> ~ snapCandidateWith ar selected page margin cand f) ->
  snapScanWith ar selected page margin cand fs = None.
Proof.
  induction fs as [|f rest IH]; intro H; [reflexivity|].
  rewrite snapScanWith_step.
  destruct (negb (includes selected (Field.id f)) && Z.eqb (Field.page f) page
            && Qle_bool (Math_abs (num_sub ar cand (Field.y f))) margin) eqn:E.
  - apply snapStepWith_spec in E. exfalso. exact (H f (or_introl eq_refl) E).
  - apply IH. intros g Hg. apply H. now right.
Qed.

Lemma snapScanWith_first (ar : arith) (selected : list string) (page : Z)
    (margin cand : Q) (pre : list Field.t) (other : Field.t) (post : list Field.t) :
  snapCandidateWith ar selected page margin cand other ->
  (forall f, In f pre -> ~ snapCandidateWith ar selected page margin cand f) ->
  snapScanWith ar selected page margin cand (pre ++ other :: post) = Some (Field.y other).
Proof.
  intros Ho Hpre. induction pre as [|f pre IH].
  - simpl app. rewrite snapScanWith_step.
    apply snapStepWith_spec in Ho. now rewrite Ho.
  - simpl app. rewrite snapScanWith_step.
    destruct (negb (includes selected (Field.id f)) && Z.eqb (Field.page f) page
              && Qle_bool (Math_abs (num_sub ar cand (Field.y f))) margin) eqn:E.
    + apply snapStepWith_spec in E. exfalso. exact (Hpre f (or_introl eq_refl) E).
    + apply IH. intros g Hg. apply Hpre. now right.
Qed.

(** Claim C4.  In a drag move whose session holds the anchor's snapshot,
    under whatever arithmetic the four operations are evaluated with, the
    candidate is the anchor's snapshot y plus the pointer's y delta in
    percent.  If [other] is the first field of the store, in store order,
    that is not selected, is on the current page and whose y is within
    (5 / viewport height) * 100 of the candidate, the distance being the one
    the handler computes, the snap guide is set to [other]'s y and every
    snapshot is moved by the pointer's x delta and by ([other]'s y - anchor
    snapshot y), then clamped, whatever fields follow [other].  If the store
    has no such field, the guide is cleared and every snapshot is moved by
    (candidate - anchor snapshot y). *)
Theorem drag_move_snaps_to_first_match :
  forall (ar : arith) (e : MouseEvent) (r : Rect) (a : App) (o : Overlay)
         (ds : DragState) (anchor : Pos.t),
    visible r ->
    dragState o = Some ds ->
    find (fun p => String.eqb (Pos.id p) (mainFieldId ds)) (initialPositions ds)
    = Some anchor ->
    let deltaX :=
      num_mul ar (num_div ar (num_sub ar (clientX e) (startX ds)) (rect_width r)) 100 in
    let deltaY :=
      num_mul ar (num_div ar (num_sub ar (clientY e) (startY ds)) (rect_height r)) 100 in
    let candidate := num_add ar (Pos.y anchor) deltaY in
    let margin := num_mul ar (num_div ar 5 (rect_height r)) 100 in
    let moved (finalDeltaY : Q) :=
      map (fun pos =>
             Update.mk (Pos.id pos)
               (Math_max 0 (Math_min (num_sub ar 100 (Pos.width pos))
                              (num_add ar (Pos.x pos) deltaX)))
               (Math_max 0 (Math_min (num_sub ar 100 (Pos.height pos))
                              (num_add ar (Pos.y pos) finalDeltaY))))
          (initialPositions ds) in
    (forall (pre : list Field.t) (other : Field.t) (post : list Field.t),
        fields a = (pre ++ other :: post)%list ->
        snapCandidateWith ar (selectedFieldIds a) (currentPage a) margin candidate other ->
        (forall f, In f pre ->
                   ~ snapCandidateWith ar (selectedFieldIds a) (currentPage a)
                       margin candidate f) ->
        handleMouseMoveWith ar e (Some r) a o
        = Ok (onUpdateFields (moved (num_sub ar (Field.y other) (Pos.y anchor))) a,
              setSnapLineY (Some (Field.y other)) o))
    /\ ((forall f, In f (fields a) ->
                   ~ snapCandidateWith ar (selectedFieldIds a) (currentPage a)
                       margin candidate f) ->
        handleMouseMoveWith ar e (Some r) a o
        = Ok (onUpdateFields (moved (num_sub ar candidate (Pos.y anchor))) a,
              setSnapLineY None o)).
Proof.
  intros ar e r a o ds anchor _ Hds Hanchor deltaX deltaY candidate margin moved.
  split.
  - intros pre other post Hsplit Hother Hpre.
    unfold handleMouseMoveWith. rewrite Hds, Hanchor. cbv zeta.
    fold deltaX deltaY. fold candidate. fold margin.
    assert (Hscan : snapScanWith ar (selectedFieldIds a) (currentPage a) margin candidate
                      (fields a) = Some (Field.y other)).
    { rewrite Hsplit. now apply snapScanWith_first. }
    rewrite Hscan. reflexivity.
  - intro Hnone.
    unfold handleMouseMoveWith. rewrite Hds, Hanchor. cbv zeta.
    fold deltaX deltaY. fold candidate. fold margin.
    rewrite (snapScanWith_none _ _ _ _ _ _ Hnone). reflexivity.
Qed.

(** Under the browser's arithmetic.  Pointer 18px below the press on the
    800px high overlay: the candidate is within the margin of both D (12)
    and E (12.5), and D comes first.  Pointer 5px below the press on the
    600px high overlay, A and D both at y = 10: the candidate 10 + 0.8333...
    is rounded up, its computed distance from 10 exceeds the computed margin,
    and the guide is cleared. *)
Lemma drag_move_snaps_to_first_match_witness :
  (exists a', handleMouseMoveWith IEEE.arithmetic (plainEvent 100 118) (Some sampleRect)
                storeADE dragOfA
              = Ok (a', setSnapLineY (Some (Field.y fieldD)) dragOfA))
  /\ (exists a', handleMouseMoveWith IEEE.arithmetic (plainEvent 100 105) (Some wideRect)
                   storeLevel dragOfA
                 = Ok (a', setSnapLineY None dragOfA)).
Proof.
  split.
  - eexists.
    apply (proj1 (drag_move_snaps_to_first_match IEEE.arithmetic
                    (plainEvent 100 118) sampleRect storeADE dragOfA
                    (mkDragState 100 100 [snapshot fieldA] "A") (snapshot fieldA)
                    (conj eq_refl eq_refl) eq_refl eq_refl)
                 [fieldA] fieldD [fieldE]).
    + reflexivity.
    + split; [|split].
      * simpl. intros [H | []]. discriminate H.
      * reflexivity.
      * vm_compute. discriminate.
    + intros f [<- | []] [Hsel _]. apply Hsel. simpl. now left.
  - eexists.
    apply (proj2 (drag_move_snaps_to_first_match IEEE.arithmetic
                    (plainEvent 100 105) wideRect storeLevel dragOfA
                    (mkDragState 100 100 [snapshot fieldA] "A") (snapshot fieldA)
                    (conj eq_refl eq_refl) eq_refl eq_refl)).
    intros f [<- | [<- | []]] [Hsel [_ Hnear]].
    + apply Hsel. simpl. now left.
    + vm_compute in Hnear. apply Hnear. reflexivity.
Defined.

(** With exact arithmetic the same 5px move is at distance exactly the
    margin, and the guide is set. *)
Example drag_boundary_exact_arithmetic :
  exists a', handleMouseMoveWith exactArith (plainEvent 100 105) (Some wideRect)
               storeLevel dragOfA
             = Ok (a', setSnapLineY (Some 10) dragOfA).
Proof.
  eexists. reflexivity.
Qed.

(** ** Drag: staying on the page *)

Lemma Math_max_low (v : Q) : 0 <= Math_max 0 v.
Proof.
  unfold Math_max. destruct (Qle_bool 0 v) eqn:E.
  - now apply Qle_bool_true.
  - apply Qle_refl.
Qed.

Lemma clamp_high (w v : Q) :
  w <= 100 -> Math_max 0 (Math_min (100 - w) v) + w <= 100.
Proof.
  intro Hw. unfold Math_max, Math_min.
  destruct (Qle_bool (100 - w) v) eqn:E1.
  - destruct (Qle_bool 0 (100 - w)) eqn:E2; lra.
  - apply Qle_bool_false in E1.
    destruct (Qle_bool 0 v) eqn:E2; lra.
Qed.

Lemma find_dragUpdate (dx dy : Q) (i : string) (ps : list Pos.t) :
  find (fun u => String.eqb (Update.id u) i) (map (dragUpdate dx dy) ps)
  = option_map (dragUpdate dx dy) (find (fun p => String.eqb (Pos.id p) i) ps).
Proof.
  induction ps as [|p ps IH]; [reflexivity|].
  simpl. destruct (String.eqb (Pos.id p) i); [reflexivity | exact IH].
Qed.

Lemma find_some_when (i : string) (ps : list Pos.t) :
  (exists p, In p ps /\ Pos.id p = i) ->
  exists q, find (fun p => String.eqb (Pos.id p) i) ps = Some q /\ In q ps /\ Pos.id q = i.
Proof.
  intros [p [Hin Hid]].
  destruct (find (fun p => String.eqb (Pos.id p) i) ps) as [q|] eqn:E.
  - exists q. split; [reflexivity|]. apply find_some in E.
    destruct E as [Hq He]. apply String.eqb_eq in He. tauto.
  - exfalso. apply (find_none _ _ E) in Hin. apply String.eqb_neq in Hin. contradiction.
Qed.

(** What one field becomes under a batch built from the snapshots. *)
Lemma moved_field (dx dy : Q) (ps : list Pos.t) (f : Field.t) :
  let f' := match find (fun u => String.eqb (Update.id u) (Field.id f))
                         (map (dragUpdate dx dy) ps) with
            | Some update => applyUpdate f update
            | None => f
            end in
  Field.id f' = Field.id f
  /\ Field.page f' = Field.page f
  /\ Field.width f' = Field.width f
  /\ Field.height f' = Field.height f
  /\ Field.variableName f' = Field.variableName f
  /\ ((forall p, In p ps -> Pos.id p <> Field.id f) -> f' = f)
  /\ ((exists p, In p ps /\ Pos.id p = Field.id f) ->
      (forall p, find (fun q => String.eqb (Pos.id q) (Field.id f)) ps = Some p ->
                 Pos.width p = Field.width f /\ Pos.height p = Field.height f) ->
      (forall p, In p ps -> Pos.width p <= 100 /\ Pos.height p <= 100) ->
      onPage f').
Proof.
  cbv zeta. rewrite find_dragUpdate.
  destruct (find (fun p => String.eqb (Pos.id p) (Field.id f)) ps) as [q|] eqn:E; simpl.
  - pose proof (find_some _ _ E) as [Hq He]. apply String.eqb_eq in He.
    split; [assumption|]. do 4 (split; [reflexivity|]). split.
    + intro Hno. exfalso. exact (Hno q Hq He).
    + intros _ Hagree Hsmall. destruct (Hagree q eq_refl) as [Hw Hh].
      destruct (Hsmall q Hq) as [Hw100 Hh100].
      unfold onPage. simpl. rewrite <- Hw, <- Hh.
      split; [apply Math_max_low|]. split; [apply Math_max_low|].
      split; apply clamp_high; assumption.
  - do 5 (split; [reflexivity|]). split; [reflexivity|].
    intros [p [Hp Hid]] _ _. exfalso.
    apply (find_none _ _ E) in Hp. apply String.eqb_neq in Hp. contradiction.
Qed.




(** The press that opens a session snapshots fields of a store with
    unique ids so that the snapshots agree with the store, and a move
    keeps them in agreement. *)
Lemma unique_id_field (fs : list Field.t) (f g : Field.t) :
  NoDup (map Field.id fs) -> In f fs -> In g fs -> Field.id f = Field.id g -> f = g.
Proof.
  induction fs as [|h fs IH]; simpl; intros Hnd Hf Hg Hid; [contradiction|].
  inversion Hnd as [|? ? Hnotin Hnd']; subst.
  destruct Hf as [<- | Hf], Hg as [<- | Hg].
  - reflexivity.
  - exfalso. apply Hnotin. rewrite Hid. now apply in_map.
  - exfalso. apply Hnotin. rewrite <- Hid. now apply in_map.
  - now apply IH.
Qed.

Lemma fieldMouseDown_snapshotsAgree (e : MouseEvent) (field : Field.t)
    (a : App) (o : Overlay) :
  NoDup (map Field.id (fields a)) ->
  exists ds,
    dragState (snd (fieldMouseDown e field a o)) = Some ds
    /\ fields (fst (fieldMouseDown e field a o)) = fields a
    /\ snapshotsAgree (fields a) (initialPositions ds).
Proof.
  intro Hnd. unfold fieldMouseDown. cbv zeta. simpl.
  eexists. split; [reflexivity|]. split; [reflexivity|]. simpl.
  intros f p Hf Hfind. apply find_some in Hfind. destruct Hfind as [Hp He].
  apply String.eqb_eq in He. apply in_map_iff in Hp. destruct Hp as [g [<- Hg]].
  apply filter_In in Hg. destruct Hg as [Hg _]. simpl in He.
  rewrite (unique_id_field _ g f Hnd Hg Hf He). split; reflexivity.
Qed.

Lemma handleMouseMove_snapshotsAgree (e : MouseEvent) (r : Rect) (a a' : App)
    (o o' : Overlay) (ds : DragState) :
  dragState o = Some ds ->
  snapshotsAgree (fields a) (initialPositions ds) ->
  handleMouseMove e (Some r) a o = Ok (a', o') ->
  dragState o' = Some ds /\ snapshotsAgree (fields a') (initialPositions ds).
Proof.
  intros Hds Hagree Hrun. unfold handleMouseMove in Hrun. rewrite Hds in Hrun.
  destruct (find _ (initialPositions ds)) as [anchor|]; [|discriminate].
  cbv zeta in Hrun. injection Hrun as <- <-. split; [exact Hds|].
  intros f' p Hf' Hfind. unfold onUpdateFields in Hf'. simpl in Hf'.
  apply in_map_iff in Hf'. destruct Hf' as [f [<- Hf]].
  match goal with
  | H : context [map (dragUpdate ?dx ?dy) _] |- _ =>
      pose proof (moved_field dx dy (initialPositions ds) f) as Hm
  end.
  cbv zeta in Hm. destruct Hm as (Hi & _ & Hw & Hh & _).
  rewrite Hi in Hfind. rewrite Hw, Hh. now apply Hagree.
Qed.

(** ** Handlers that throw *)

(** A press with a modifier key on a field that is already selected takes
    the field out of the selection and out of the snapshots, yet names it
    as the anchor: the next move finds no anchor snapshot and throws, and
    no batch is emitted. *)
Example drag_move_without_anchor_throws :
  let s := fieldMouseDown (mkMouseEvent 100 100 true false false) fieldA
             (storeABC ["A"; "B"]) initialOverlay in
  selectedFieldIds (fst s) = ["B"]
  /\ handleMouseMove (plainEvent 100 118) (Some sampleRect) (fst s) (snd s)
     = Throw TypeError.
Proof. split; reflexivity. Qed.

(** With two selected ids of which none is in the store, [syncY] throws
    on [selectedFields[0].y]. *)
Lemma syncY_throws_on_dangling_selection (a : App) :
  (2 <= List.length (selectedFieldIds a))%nat ->
  (forall f, In f (fields a) -> ~ In (Field.id f) (selectedFieldIds a)) ->
  syncY a = Throw TypeError.
Proof.
  intros Hge Hnone. unfold syncY.
  destruct (Nat.ltb_spec (List.length (selectedFieldIds a)) 2); [lia|].
  cbv zeta.
  assert (Hf : filter (fun f => includes (selectedFieldIds a) (Field.id f)) (fields a) = []).
  { induction (fields a) as [|f fs IH]; [reflexivity|]. simpl.
    destruct (includes (selectedFieldIds a) (Field.id f)) eqn:E.
    - apply includes_In in E. exfalso. exact (Hnone f (or_introl eq_refl) E).
    - apply IH. intros g Hg. apply Hnone. now right. }
  rewrite Hf. reflexivity.
Qed.

(** * Further properties of the handlers *)

(** ** Drawing *)

Lemma Math_min_cases (a b : Q) :
  (a <= b /\ Math_min a b = a) \/ (b < a /\ Math_min a b = b).
Proof.
  unfold Math_min. destruct (Qle_bool a b) eqn:E.
  - left. split; [now apply Qle_bool_true | reflexivity].
  - right. split; [now apply Qle_bool_false | reflexivity].
Qed.

Lemma Math_max_cases (a b : Q) :
  (a <= b /\ Math_max a b = b) \/ (b < a /\ Math_max a b = a).
Proof.
  unfold Math_max. destruct (Qle_bool a b) eqn:E.
  - left. split; [now apply Qle_bool_true | reflexivity].
  - right. split; [now apply Qle_bool_false | reflexivity].
Qed.

Lemma clamp100_range (v : Q) :
  0 <= Math_max 0 (Math_min 100 v) <= 100.
Proof.
  destruct (Math_min_cases 100 v) as [[H1 ->] | [H1 ->]];
    destruct (Math_max_cases 0 100) as [[H2 E2] | [H2 E2]];
    try (destruct (Math_max_cases 0 v) as [[H3 ->] | [H3 ->]]);
    try rewrite E2; lra.
Qed.

Lemma Math_abs_cases (a : Q) :
  (0 <= a /\ Math_abs a = a) \/ (a < 0 /\ Math_abs a = - a).
Proof.
  unfold Math_abs. destruct (Qlt_le_dec a 0) as [H | H].
  - right. split; [assumption|]. unfold Qabs. destruct a as [[|p|p] d]; simpl;
      try reflexivity; unfold Qlt in H; simpl in H; lia.
  - left. split; [assumption|]. unfold Qabs. destruct a as [[|p|p] d]; simpl;
      try reflexivity. unfold Qle in H; simpl in H; lia.
Qed.

(** Property X1.  The release that ends a drawing, under whatever arithmetic the
    subtraction is evaluated with, adds a field only when the rectangle's
    width and height, as the handler computes them, are both more than 0.5:
    the field goes to the end of the store, on the current page, with the
    corner and size of the rectangle, a fresh id and the name
    var_(count + 1), and becomes the whole selection.  Otherwise the store,
    the selection and the id counter stay as they are.  Either way the
    drawing flag is cleared. *)
Theorem mouse_up_commits_drawn_rectangle :
  forall (ar : arith) (a : App) (o : Overlay) (src : nat -> string) (n : nat),
    dragState o = None -> isLasso o = false -> isDrawing o = true ->
    let x := Math_min (px (startPos o)) (px (currentPos o)) in
    let y := Math_min (py (startPos o)) (py (currentPos o)) in
    let width := Math_abs (num_sub ar (px (currentPos o)) (px (startPos o))) in
    let height := Math_abs (num_sub ar (py (currentPos o)) (py (startPos o))) in
    (0.5 < width -> 0.5 < height ->
     exists a',
       handleMouseUpWith ar a o src n = Ok ((a', setIsDrawing false o), S n)
       /\ fields a'
          = (fields a ++ [Field.mk (src n) (currentPage a) x y width height
                            (var_name (List.length (fields a) + 1))])%list
       /\ selectedFieldIds a' = [src n]
       /\ currentPage a' = currentPage a)
    /\ (width <= 0.5 \/ height <= 0.5 ->
        handleMouseUpWith ar a o src n = Ok ((a, setIsDrawing false o), n)).
Proof.
  intros ar a o src n Hd Hl Hdr x y width height.
  unfold handleMouseUpWith. rewrite Hd, Hl, Hdr. fold x y width height.
  split.
  - intros Hw Hh. apply Qle_bool_false in Hw, Hh. rewrite Hw, Hh. simpl.
    eexists. split; [reflexivity|]. repeat split.
  - intros [Hw | Hh].
    + apply Qle_bool_true in Hw. rewrite Hw. reflexivity.
    + apply Qle_bool_true in Hh. rewrite Hh.
      destruct (Qle_bool width 0.5); reflexivity.
Qed.

(** Under the browser's arithmetic.  A 20 by 10 rectangle is committed.
    A drawing from x = 0.3 to x = 0.8 has computed width exactly 0.5, and
    nothing is added. *)
Lemma mouse_up_commits_drawn_rectangle_witness :
  (exists a',
     handleMouseUpWith IEEE.arithmetic (storeABC [])
       (mkOverlay true false (mkPoint 10 60) (mkPoint 30 70) None None) sampleIds 7%nat
     = Ok ((a', setIsDrawing false
                  (mkOverlay true false (mkPoint 10 60) (mkPoint 30 70) None None)), 8%nat)
     /\ selectedFieldIds a' = ["id7"])
  /\ handleMouseUpWith IEEE.arithmetic (storeABC []) thresholdDrawing sampleIds 7%nat
     = Ok ((storeABC [], setIsDrawing false thresholdDrawing), 7%nat).
Proof.
  split.
  - destruct (proj1 (mouse_up_commits_drawn_rectangle IEEE.arithmetic (storeABC [])
                       (mkOverlay true false (mkPoint 10 60) (mkPoint 30 70) None None)
                       sampleIds 7%nat eq_refl eq_refl eq_refl))
      as (a' & Hrun & _ & Hsel & _).
    + vm_compute. reflexivity.
    + vm_compute. reflexivity.
    + exists a'. split; [exact Hrun | exact Hsel].
  - apply (proj2 (mouse_up_commits_drawn_rectangle IEEE.arithmetic (storeABC [])
                    thresholdDrawing sampleIds 7%nat eq_refl eq_refl eq_refl)).
    left. vm_compute. discriminate.
Defined.

(** With an exact subtraction the same drawing is wider than 0.5 by less
    than one part in 10^16, and a field is added. *)
Example threshold_drawing_exact_arithmetic :
  exists a',
    handleMouseUpWith exactArith (storeABC []) thresholdDrawing sampleIds 7%nat
    = Ok ((a', setIsDrawing false thresholdDrawing), 8%nat)
    /\ List.length (fields a') = 4%nat.
Proof.
  eexists. split; [vm_compute; reflexivity | reflexivity].
Qed.

(** ** The exact instance *)

(** With exact operations the parametrised handlers are the handlers
    above. *)
Lemma snapScanWith_exact (selected : list string) (page : Z) (margin cand : Q)
    (fs : list Field.t) :
  snapScanWith exactArith selected page margin cand fs
  = snapScan selected page margin cand fs.
Proof.
  induction fs as [|f rest IH]; [reflexivity|].
  simpl. rewrite IH. reflexivity.
Qed.

Lemma handleMouseDownWith_exact (e : MouseEvent) (onOverlay : bool) (r : Rect)
    (a : App) (o : Overlay) :
  handleMouseDownWith exactArith e onOverlay r a o = handleMouseDown e onOverlay r a o.
Proof.
  reflexivity.
Qed.

Lemma handleMouseMoveWith_exact (e : MouseEvent) (rect : option Rect)
    (a : App) (o : Overlay) :
  handleMouseMoveWith exactArith e rect a o = handleMouseMove e rect a o.
Proof.
  unfold handleMouseMoveWith, handleMouseMove.
  destruct rect as [r|]; [|reflexivity].
  destruct (dragState o) as [ds|]; [|reflexivity].
  destruct (find _ _) as [p|]; [|reflexivity].
  cbv zeta. rewrite snapScanWith_exact. reflexivity.
Qed.

Lemma handleMouseUpWith_exact (a : App) (o : Overlay) (src : nat -> string) (n : nat) :
  handleMouseUpWith exactArith a o src n = handleMouseUp a o src n.
Proof.
  reflexivity.
Qed.

Lemma v1_handleMouseUpWith_exact (a : V1.App) (o : V1.Overlay)
    (src : nat -> string) (n : nat) :
  V1Rounded.handleMouseUpWith exactArith a o src n = V1.handleMouseUp a o src n.
Proof.
  reflexivity.
Qed.

(** The first revision's release adds a field exactly when both computed
    sizes exceed 0.5, whatever the arithmetic. *)
Lemma v1_mouse_up_threshold (ar : arith) (a : V1.App) (o : V1.Overlay)
    (src : nat -> string) (n : nat) :
  V1.isDrawing o = true ->
  let width := Math_abs (num_sub ar (px (V1.currentPos o)) (px (V1.startPos o))) in
  let height := Math_abs (num_sub ar (py (V1.currentPos o)) (py (V1.startPos o))) in
  (0.5 < width -> 0.5 < height ->
   exists a' o', V1Rounded.handleMouseUpWith ar a o src n = Ok ((a', o'), S n)
                 /\ List.length (V1.fields a') = S (List.length (V1.fields a)))
  /\ (width <= 0.5 \/ height <= 0.5 ->
      exists o', V1Rounded.handleMouseUpWith ar a o src n = Ok ((a, o'), n)).
Proof.
  intros Hdr width height. unfold V1Rounded.handleMouseUpWith.
  rewrite Hdr. cbn [negb]. fold width height. split.
  - intros Hw Hh. apply Qle_bool_false in Hw, Hh. rewrite Hw, Hh.
    eexists; eexists. split; [reflexivity|].
    cbn [V1.onAddField V1.fields]. rewrite length_app. simpl. lia.
  - intros [Hw | Hh].
    + apply Qle_bool_true in Hw. rewrite Hw. eexists. reflexivity.
    + apply Qle_bool_true in Hh. rewrite Hh.
      destruct (Qle_bool width 0.5); eexists; reflexivity.
Qed.

(** Property X2.  A move while drawing keeps the store and the selection and puts the
    pointer position, clamped to the page, in [currentPos]; if the press
    was on the page, the release that follows adds nothing or one field
    that lies on the page and is more than 0.5 wide and high. *)
Theorem drawn_field_lies_on_page :
  forall (e : MouseEvent) (r : Rect) (a : App) (o : Overlay)
         (src : nat -> string) (n : nat),
    dragState o = None -> isLasso o = false -> isDrawing o = true ->
    0 <= px (startPos o) <= 100 -> 0 <= py (startPos o) <= 100 ->
    exists o1 a2 o2 n2,
      handleMouseMove e (Some r) a o = Ok (a, o1)
      /\ 0 <= px (currentPos o1) <= 100 /\ 0 <= py (currentPos o1) <= 100
      /\ handleMouseUp a o1 src n = Ok ((a2, o2), n2)
      /\ isDrawing o2 = false
      /\ (a2 = a
          \/ exists f, fields a2 = (fields a ++ [f])%list
                       /\ Field.page f = currentPage a
                       /\ onPage f /\ 0.5 < Field.width f /\ 0.5 < Field.height f).
Proof.
  intros e r a o src n Hd Hl Hdr Hsx Hsy.
  unfold handleMouseMove. rewrite Hd, Hl, Hdr. simpl orb. cbv iota.
  set (cx := Math_max 0 (Math_min 100 (toPct (clientX e) (rect_left r) (rect_width r)))).
  set (cy := Math_max 0 (Math_min 100 (toPct (clientY e) (rect_top r) (rect_height r)))).
  pose proof (clamp100_range (toPct (clientX e) (rect_left r) (rect_width r))) as Hcx.
  pose proof (clamp100_range (toPct (clientY e) (rect_top r) (rect_height r))) as Hcy.
  fold cx in Hcx. fold cy in Hcy.
  set (o1 := setCurrentPos (mkPoint cx cy) o).
  exists o1.
  assert (Hup : forall P : App -> Overlay -> nat -> Prop,
             (forall a2 o2 n2, handleMouseUp a o1 src n = Ok ((a2, o2), n2) -> P a2 o2 n2) ->
             exists a2 o2 n2, handleMouseUp a o1 src n = Ok ((a2, o2), n2) /\ P a2 o2 n2).
  { intros P HP. destruct (handleMouseUp a o1 src n) as [[[a2 o2] n2]|err] eqn:E.
    - exists a2, o2, n2. split; [reflexivity | now apply HP].
    - exfalso. unfold handleMouseUp in E.
      change (dragState o1) with (dragState o) in E.
      change (isLasso o1) with (isLasso o) in E.
      change (isDrawing o1) with (isDrawing o) in E.
      rewrite Hd, Hl, Hdr in E.
      destruct (negb _ && negb _) in E; discriminate E. }
  destruct (Hup (fun a2 o2 n2 =>
                   isDrawing o2 = false
                   /\ (a2 = a
                       \/ exists f, fields a2 = (fields a ++ [f])%list
                                    /\ Field.page f = currentPage a
                                    /\ onPage f /\ 0.5 < Field.width f
                                    /\ 0.5 < Field.height f)))
    as (a2 & o2 & n2 & Hrun & Hdone & Hres).
  - intros a2 o2 n2 Hrun. unfold handleMouseUp in Hrun.
    change (dragState o1) with (dragState o) in Hrun.
    change (isLasso o1) with (isLasso o) in Hrun.
    change (isDrawing o1) with (isDrawing o) in Hrun.
    rewrite Hd, Hl, Hdr in Hrun.
    change (px (currentPos o1)) with cx in Hrun.
    change (py (currentPos o1)) with cy in Hrun.
    change (px (startPos o1)) with (px (startPos o)) in Hrun.
    change (py (startPos o1)) with (py (startPos o)) in Hrun.
    destruct (Qle_bool (Math_abs (cx - px (startPos o))) 0.5) eqn:Ew;
      [simpl in Hrun; injection Hrun as <- <- <-; split; [reflexivity | now left]|].
    destruct (Qle_bool (Math_abs (cy - py (startPos o))) 0.5) eqn:Eh;
      [simpl in Hrun; injection Hrun as <- <- <-; split; [reflexivity | now left]|].
    cbv [bind generateId ret negb andb] in Hrun.
    injection Hrun as <- <- <-. split; [reflexivity|]. right.
    exists (Field.mk (src n) (currentPage a)
              (Math_min (px (startPos o)) cx) (Math_min (py (startPos o)) cy)
              (Math_abs (cx - px (startPos o))) (Math_abs (cy - py (startPos o)))
              (var_name (List.length (fields a) + 1))).
    split; [reflexivity|]. split; [reflexivity|].
    apply Qle_bool_false in Ew, Eh. split; [|split; assumption].
    unfold onPage. cbn [Field.x Field.y Field.width Field.height].
    destruct (Math_min_cases (px (startPos o)) cx) as [[Hx ->] | [Hx ->]];
      destruct (Math_min_cases (py (startPos o)) cy) as [[Hy ->] | [Hy ->]];
      destruct (Math_abs_cases (cx - px (startPos o))) as [[Hax ->] | [Hax ->]];
      destruct (Math_abs_cases (cy - py (startPos o))) as [[Hay ->] | [Hay ->]];
      repeat split; lra.
  - exists a2, o2, n2. split; [reflexivity|]. split; [exact Hcx|]. split; [exact Hcy|].
    split; [exact Hrun|]. split; assumption.
Qed.

Lemma drawn_field_lies_on_page_witness :
  exists o1 a2 o2 n2,
    handleMouseMove (plainEvent 900 320) (Some sampleRect) (storeABC [])
      (mkOverlay true false (mkPoint 10 60) (mkPoint 10 60) None None)
    = Ok (storeABC [], o1)
    /\ handleMouseUp (storeABC []) o1 sampleIds 0%nat = Ok ((a2, o2), n2)
    /\ (a2 = storeABC []
        \/ exists f, fields a2 = (fields (storeABC []) ++ [f])%list /\ onPage f).
Proof.
  destruct (drawn_field_lies_on_page (plainEvent 900 320) sampleRect (storeABC [])
              (mkOverlay true false (mkPoint 10 60) (mkPoint 10 60) None None)
              sampleIds 0%nat eq_refl eq_refl eq_refl)
    as (o1 & a2 & o2 & n2 & Hmove & _ & _ & Hup & _ & Hres).
  - split; vm_compute; discriminate.
  - split; vm_compute; discriminate.
  - exists o1, a2, o2, n2. split; [exact Hmove|]. split; [exact Hup|].
    destruct Hres as [-> | (f & Hf & _ & Hon & _)]; [now left|].
    right. exists f. split; assumption.
Defined.

(** ** Pressing a field *)

Lemma includes_false (ids : list string) (i : string) :
  includes ids i = false <-> ~ In i ids.
Proof. rewrite <- includes_In. symmetry. apply not_true_iff_false. Qed.

Lemma find_snapshot_none (i : string) (fs : list Field.t) :
  (forall f, In f fs -> Field.id f <> i) ->
  find (fun p => String.eqb (Pos.id p) i) (map snapshot fs) = None.
Proof.
  intro H. apply find_none_when. intros p Hp.
  apply in_map_iff in Hp. destruct Hp as [f [<- Hf]].
  apply String.eqb_neq. simpl. now apply H.
Qed.

(** Property X3.  A press on a stored field, unless it carries a modifier key and the
    field is already selected, leaves the field selected (a selection that
    already held it is kept whole when no modifier is down), snapshots
    exactly the stored fields whose id is selected, names the pressed field
    as anchor, and every move that follows succeeds. *)
Theorem press_opens_session_with_anchor :
  forall (e : MouseEvent) (field : Field.t) (a : App) (o : Overlay),
    In field (fields a) ->
    additive e = false \/ ~ In (Field.id field) (selectedFieldIds a) ->
    let s := fieldMouseDown e field a o in
    fields (fst s) = fields a
    /\ In (Field.id field) (selectedFieldIds (fst s))
    /\ (additive e = false -> In (Field.id field) (selectedFieldIds a) ->
        selectedFieldIds (fst s) = selectedFieldIds a)
    /\ (additive e = false -> ~ In (Field.id field) (selectedFieldIds a) ->
        selectedFieldIds (fst s) = [Field.id field])
    /\ (additive e = true ->
        selectedFieldIds (fst s) = (selectedFieldIds a ++ [Field.id field])%list)
    /\ exists ds,
         dragState (snd s) = Some ds
         /\ mainFieldId ds = Field.id field
         /\ startX ds = clientX e /\ startY ds = clientY e
         /\ (forall p, In p (initialPositions ds) <->
                       exists f, In f (fields a)
                                 /\ In (Field.id f) (selectedFieldIds (fst s))
                                 /\ p = snapshot f)
         /\ forall (e2 : MouseEvent) (r : Rect),
              exists a2 o2, handleMouseMove e2 (Some r) (fst s) (snd s) = Ok (a2, o2).
Proof.
  intros e field a o Hin Hcase s.
  assert (Hsel : In (Field.id field) (selectedFieldIds (fst s))).
  { subst s. unfold fieldMouseDown. cbv zeta. simpl.
    destruct (additive e) eqn:Ea.
    - destruct Hcase as [Hc | Hc]; [discriminate|].
      apply includes_false in Hc. rewrite Hc. apply in_or_app. right. now left.
    - destruct (includes (selectedFieldIds a) (Field.id field)) eqn:Ei; simpl.
      + now apply includes_In.
      + now left. }
  split; [reflexivity|]. split; [exact Hsel|].
  split; [|split; [|split]].
  - intros Ea Hi. subst s. unfold fieldMouseDown. cbv zeta. simpl.
    apply includes_In in Hi. now rewrite Ea, Hi.
  - intros Ea Hi. subst s. unfold fieldMouseDown. cbv zeta. simpl.
    apply includes_false in Hi. now rewrite Ea, Hi.
  - intros Ea. subst s. unfold fieldMouseDown. cbv zeta. simpl.
    destruct Hcase as [Hc | Hc]; [congruence|].
    apply includes_false in Hc. now rewrite Ea, Hc.
  - assert (Hsnap : forall p,
               In p (map snapshot
                       (filter (fun f => includes (selectedFieldIds (fst s)) (Field.id f))
                          (fields a)))
               <-> exists f, In f (fields a)
                             /\ In (Field.id f) (selectedFieldIds (fst s))
                             /\ p = snapshot f).
    { intro p. rewrite in_map_iff. split.
      - intros [f [<- Hf]]. apply filter_In in Hf. destruct Hf as [Hf Hi].
        apply includes_In in Hi. eauto.
      - intros [f [Hf [Hi ->]]]. exists f. split; [reflexivity|].
        apply filter_In. split; [assumption | now apply includes_In]. }
    eexists. split; [reflexivity|]. split; [reflexivity|].
    split; [reflexivity|]. split; [reflexivity|]. split; [exact Hsnap|].
    intros e2 r. unfold handleMouseMove.
    change (dragState (snd s)) with
      (Some (mkDragState (clientX e) (clientY e)
               (map snapshot
                  (filter (fun f => includes (selectedFieldIds (fst s)) (Field.id f))
                     (fields a)))
               (Field.id field))).
    cbv iota. cbn [initialPositions mainFieldId].
    destruct (find_some_when (Field.id field)
                (map snapshot
                   (filter (fun f => includes (selectedFieldIds (fst s)) (Field.id f))
                      (fields a)))) as [q [Hq _]].
    { exists (snapshot field). split; [|reflexivity].
      apply Hsnap. exists field. auto. }
    rewrite Hq. eauto.
Qed.

Lemma press_opens_session_with_anchor_witness :
  selectedFieldIds (fst (fieldMouseDown (plainEvent 100 100) fieldB
                           (storeABC ["A"; "B"]) initialOverlay)) = ["A"; "B"]
  /\ exists a2 o2,
       handleMouseMove (plainEvent 130 90) (Some sampleRect)
         (fst (fieldMouseDown (plainEvent 100 100) fieldB (storeABC ["A"; "B"]) initialOverlay))
         (snd (fieldMouseDown (plainEvent 100 100) fieldB (storeABC ["A"; "B"]) initialOverlay))
       = Ok (a2, o2).
Proof.
  destruct (press_opens_session_with_anchor (plainEvent 100 100) fieldB
              (storeABC ["A"; "B"]) initialOverlay)
    as (_ & _ & Hkeep & _ & _ & ds & _ & _ & _ & _ & _ & Hmove).
  - simpl. auto.
  - left. reflexivity.
  - split.
    + apply Hkeep; [reflexivity | simpl; auto].
    + apply Hmove.
Defined.

(** Property X4.  A press with a modifier key on a field that is selected takes the
    field out of the selection and leaves no snapshot with its id, yet
    names it as anchor: every move of that session throws and changes
    nothing. *)
Theorem modifier_press_on_selected_field_breaks_drag :
  forall (e : MouseEvent) (field : Field.t) (a : App) (o : Overlay),
    additive e = true ->
    In (Field.id field) (selectedFieldIds a) ->
    let s := fieldMouseDown e field a o in
    ~ In (Field.id field) (selectedFieldIds (fst s))
    /\ (forall j, j <> Field.id field ->
                  (In j (selectedFieldIds (fst s)) <-> In j (selectedFieldIds a)))
    /\ forall (e2 : MouseEvent) (r : Rect),
         handleMouseMove e2 (Some r) (fst s) (snd s) = Throw TypeError.
Proof.
  intros e field a o Ea Hi s.
  assert (Hs : selectedFieldIds (fst s)
               = filter (fun j => negb (String.eqb j (Field.id field))) (selectedFieldIds a)).
  { subst s. unfold fieldMouseDown. cbv zeta. simpl.
    apply includes_In in Hi. now rewrite Ea, Hi. }
  assert (Hmem : forall j, In j (selectedFieldIds (fst s))
                           <-> In j (selectedFieldIds a) /\ j <> Field.id field).
  { intro j. rewrite Hs, filter_In, negb_true_iff, String.eqb_neq. tauto. }
  split; [|split].
  - intro H. apply Hmem in H. tauto.
  - intros j Hj. rewrite Hmem. tauto.
  - intros e2 r. unfold handleMouseMove.
    change (dragState (snd s)) with
      (Some (mkDragState (clientX e) (clientY e)
               (map snapshot
                  (filter (fun f => includes (selectedFieldIds (fst s)) (Field.id f))
                     (fields a)))
               (Field.id field))).
    cbv iota. cbn [initialPositions mainFieldId].
    rewrite find_snapshot_none; [reflexivity|].
    intros f Hf E. apply filter_In in Hf. destruct Hf as [_ Hf].
    apply includes_In in Hf. rewrite E in Hf. apply Hmem in Hf. tauto.
Qed.

Lemma modifier_press_on_selected_field_breaks_drag_witness :
  handleMouseMove (plainEvent 130 90) (Some sampleRect)
    (fst (fieldMouseDown (mkMouseEvent 100 100 false true false) fieldB
            (storeABC ["A"; "B"]) initialOverlay))
    (snd (fieldMouseDown (mkMouseEvent 100 100 false true false) fieldB
            (storeABC ["A"; "B"]) initialOverlay))
  = Throw TypeError.
Proof.
  apply (modifier_press_on_selected_field_breaks_drag
           (mkMouseEvent 100 100 false true false) fieldB (storeABC ["A"; "B"])
           initialOverlay).
  - reflexivity.
  - simpl. auto.
Defined.

(** ** Successive drag moves *)

Lemma snapScan_map (selected : list string) (page : Z) (margin cand : Q)
    (g : Field.t -> Field.t) (fs : list Field.t) :
  (forall f, In f fs ->
             Field.id (g f) = Field.id f /\ Field.page (g f) = Field.page f
             /\ (~ In (Field.id f) selected -> Field.y (g f) = Field.y f)) ->
  snapScan selected page margin cand (map g fs) = snapScan selected page margin cand fs.
Proof.
  induction fs as [|f fs IH]; intro H; [reflexivity|].
  destruct (H f (or_introl eq_refl)) as (Hi & Hp & Hy).
  simpl. rewrite Hi, Hp, IH by (intros h Hh; apply H; now right).
  destruct (includes selected (Field.id f)) eqn:E; [reflexivity|].
  apply includes_false in E. now rewrite (Hy E).
Qed.

Lemma onUpdateFields_drag_twice (dx1 dy1 dx2 dy2 : Q) (ps : list Pos.t) (a : App) :
  onUpdateFields (map (dragUpdate dx2 dy2) ps)
    (onUpdateFields (map (dragUpdate dx1 dy1) ps) a)
  = onUpdateFields (map (dragUpdate dx2 dy2) ps) a.
Proof.
  unfold onUpdateFields. simpl. unfold setFields. simpl. f_equal.
  rewrite map_map. apply map_ext. intro f.
  rewrite !find_dragUpdate.
  destruct (find (fun p => String.eqb (Pos.id p) (Field.id f)) ps) as [q|] eqn:E; simpl.
  - assert (Hq : Pos.id q = Field.id f).
    { apply find_some in E. now apply String.eqb_eq. }
    try rewrite find_dragUpdate. rewrite Hq, E. reflexivity.
  - try rewrite find_dragUpdate. rewrite E. reflexivity.
Qed.

(** Property X5.  A drag is computed from the snapshots of the press, not from where the
    previous move left the fields: when every snapshot's id is selected (as
    the press leaves it), a move made after another move gives the same
    state as that move made alone. *)
Theorem drag_moves_do_not_accumulate :
  forall (e1 e2 : MouseEvent) (r1 r2 : Rect) (a : App) (o : Overlay)
         (ds : DragState) (anchor : Pos.t),
    dragState o = Some ds ->
    find (fun p => String.eqb (Pos.id p) (mainFieldId ds)) (initialPositions ds)
    = Some anchor ->
    (forall p, In p (initialPositions ds) -> In (Pos.id p) (selectedFieldIds a)) ->
    exists a1 o1,
      handleMouseMove e1 (Some r1) a o = Ok (a1, o1)
      /\ handleMouseMove e2 (Some r2) a1 o1 = handleMouseMove e2 (Some r2) a o.
Proof.
  intros e1 e2 r1 r2 a o ds anchor Hds Hanchor Hsel.
  unfold handleMouseMove at 1. rewrite Hds, Hanchor. cbv zeta.
  eexists; eexists. split; [reflexivity|].
  unfold handleMouseMove. cbn [dragState setSnapLineY]. rewrite Hds, Hanchor. cbv zeta.
  match goal with
  | |- context [onUpdateFields (map (dragUpdate ?dx ?dy) _) a] =>
      set (dx1 := dx); set (dy1 := dy)
  end.
  assert (Hscan : forall margin cand,
             snapScan (selectedFieldIds (onUpdateFields
                                           (map (dragUpdate dx1 dy1) (initialPositions ds)) a))
                      (currentPage (onUpdateFields
                                      (map (dragUpdate dx1 dy1) (initialPositions ds)) a))
                      margin cand
                      (fields (onUpdateFields
                                 (map (dragUpdate dx1 dy1) (initialPositions ds)) a))
             = snapScan (selectedFieldIds a) (currentPage a) margin cand (fields a)).
  { intros margin cand. unfold onUpdateFields. simpl.
    apply snapScan_map. intros f Hf.
    pose proof (moved_field dx1 dy1 (initialPositions ds) f) as Hm. cbv zeta in Hm.
    destruct Hm as (Hi & Hp & _ & _ & _ & Hsame & _).
    split; [assumption|]. split; [assumption|].
    intro Hns. rewrite Hsame; [reflexivity|].
    intros p Hp' E. apply Hns. rewrite <- E. now apply Hsel. }
  rewrite Hscan, onUpdateFields_drag_twice. reflexivity.
Qed.

Lemma drag_moves_do_not_accumulate_witness :
  exists a1 o1,
    handleMouseMove (plainEvent 130 170) (Some sampleRect) storeADE dragOfA = Ok (a1, o1)
    /\ handleMouseMove (plainEvent 100 118) (Some sampleRect) a1 o1
       = handleMouseMove (plainEvent 100 118) (Some sampleRect) storeADE dragOfA.
Proof.
  apply (drag_moves_do_not_accumulate (plainEvent 130 170) (plainEvent 100 118)
           sampleRect sampleRect storeADE dragOfA
           (mkDragState 100 100 [snapshot fieldA] "A") (snapshot fieldA) eq_refl eq_refl).
  intros p [<- | []]. simpl. now left.
Defined.

(** ** Lasso and the selection *)

Lemma lasso_ids_on_page (lx ly lw lh : Q) (a : App) (i : string) :
  In i (map Field.id
          (filter (insideLasso lx ly lw lh)
             (filter (fun f => Z.eqb (Field.page f) (currentPage a)) (fields a)))) ->
  exists f, In f (fields a) /\ Field.id f = i /\ Field.page f = currentPage a.
Proof.
  intro Hi. apply in_map_iff in Hi. destruct Hi as [f [<- Hf]].
  apply filter_In in Hf. destruct Hf as [Hf _]. apply filter_In in Hf.
  destruct Hf as [Hf Hp]. apply Z.eqb_eq in Hp. eauto.
Qed.

(** Property X6.  After a lasso move every selected id is the id of a stored field of
    the current page, whatever was selected before. *)
Theorem lasso_move_selection_is_valid :
  forall (e : MouseEvent) (r : Rect) (a : App) (o : Overlay),
    dragState o = None -> isLasso o = true ->
    exists a' o',
      handleMouseMove e (Some r) a o = Ok (a', o')
      /\ noDangling a'
      /\ forall i, In i (selectedFieldIds a') ->
           exists f, In f (fields a') /\ Field.id f = i
                     /\ Field.page f = currentPage a'.
Proof.
  intros e r a o Hd Hl. unfold handleMouseMove. rewrite Hd, Hl. simpl orb. cbv iota zeta.
  eexists; eexists. split; [reflexivity|]. split.
  - intros i Hi. simpl in Hi. apply lasso_ids_on_page in Hi.
    destruct Hi as (f & Hf & Hid & _). exists f. simpl. auto.
  - intros i Hi. simpl in Hi. apply lasso_ids_on_page in Hi. exact Hi.
Qed.

Lemma lasso_move_selection_is_valid_witness :
  exists a' o',
    handleMouseMove (plainEvent 390 320) (Some sampleRect) (storeABC ["gone"]) lassoOverlay
    = Ok (a', o')
    /\ noDangling a'.
Proof.
  destruct (lasso_move_selection_is_valid (plainEvent 390 320) sampleRect
              (storeABC ["gone"]) lassoOverlay eq_refl eq_refl)
    as (a' & o' & Hrun & Hnd & _).
  exists a', o'. split; assumption.
Defined.

(** ** Import: all or nothing *)

Lemma importItem_undefined_throws (src : nat -> string) (n : nat) :
  importItem VNull src n = Throw TypeError /\ importItem VUndef src n = Throw TypeError.
Proof. split; reflexivity. Qed.

Lemma mapM_importItem_throws (items : list value) (src : nat -> string) (n : nat) :
  In VNull items -> exists err, mapM importItem items src n = Throw err.
Proof.
  revert n. induction items as [|item rest IH]; intros n Hin; [contradiction|].
  simpl. unfold bind at 1. destruct Hin as [-> | Hin].
  - exists TypeError. reflexivity.
  - destruct (importItem item src n) as [[j n1]|err]; [|eauto].
    unfold bind at 1. destruct (IH n1 Hin) as [err ->]. eauto.
Qed.

Lemma importItem_ids_used (item : value) (src : nat -> string) (n : nat)
    (j : JField.t) (n' : nat) :
  importItem item src n = Ok (j, n') -> (n <= n' <= n + 2)%nat.
Proof.
  unfold importItem, bind, lift, idOrFresh, nameOrFresh, generateId, ret.
  destruct (get item "percentageCoordinates") as [pc|]; [|discriminate].
  destruct (get item "id") as [i|]; [|destruct (truthy pc); discriminate].
  destruct (get item "page") as [p|];
    [|destruct (truthy pc), (truthy i); discriminate].
  destruct (get item "variableName") as [v|];
    [|destruct (truthy pc), (truthy i); discriminate].
  destruct (truthy pc).
  - destruct (get pc "x"); [|destruct (truthy i); discriminate].
    destruct (get pc "y"); [|destruct (truthy i); discriminate].
    destruct (get pc "width"); [|destruct (truthy i); discriminate].
    destruct (get pc "height"); [|destruct (truthy i); discriminate].
    destruct (truthy i); intro H; injection H as _ <-; lia.
  - destruct (get item "x"); [|destruct (truthy i), (truthy v); discriminate].
    destruct (get item "y"); [|destruct (truthy i), (truthy v); discriminate].
    destruct (get item "width"); [|destruct (truthy i), (truthy v); discriminate].
    destruct (get item "height"); [|destruct (truthy i), (truthy v); discriminate].
    destruct (truthy i), (truthy v); intro H; injection H as _ <-; lia.
Qed.

Lemma mapM_importItem_each (items : list value) (src : nat -> string) (n : nat)
    (js : list JField.t) (n' : nat) :
  mapM importItem items src n = Ok (js, n') ->
  (n <= n' <= n + 2 * List.length items)%nat
  /\ Forall2 (fun item j => exists m m', (n <= m)%nat
                                         /\ importItem item src m = Ok (j, m'))
             items js.
Proof.
  revert n js n'. induction items as [|item rest IH]; intros n js n' H.
  - simpl in H. unfold ret in H. injection H as <- <-. split; [simpl; lia | constructor].
  - simpl in H. unfold bind at 1 in H.
    destruct (importItem item src n) as [[j n1]|] eqn:E1; [|discriminate].
    unfold bind at 1 in H.
    destruct (mapM importItem rest src n1) as [[js1 n2]|] eqn:E2; [|discriminate].
    unfold ret in H. injection H as <- <-.
    pose proof (importItem_ids_used _ _ _ _ _ E1) as Hn1.
    destruct (IH _ _ _ E2) as [Hn2 Hall]. split; [simpl; lia|].
    constructor.
    + exists n, n1. split; [lia | exact E1].
    + eapply Forall2_impl; [|exact Hall]. intros it jt (m & m' & Hm & Hrun).
      exists m, m'. split; [lia | exact Hrun].
Qed.

Lemma mapM_importItem_stops (pre post : list value) (src : nat -> string) :
  forall (n : nat) (js : list JField.t) (n1 : nat),
    mapM importItem pre src n = Ok (js, n1) ->
    (exists err, mapM importItem (pre ++ VNull :: post) src n = Throw err)
    /\ idsDrawnBeforeThrow (pre ++ VNull :: post) src n = n1.
Proof.
  induction pre as [|item pre IH]; intros n js n1 H.
  - simpl in H. unfold ret in H. injection H as _ <-. split; [|reflexivity].
    exists TypeError. reflexivity.
  - simpl in H. unfold bind at 1 in H.
    destruct (importItem item src n) as [[j n2]|] eqn:E1; [|discriminate].
    unfold bind at 1 in H.
    destruct (mapM importItem pre src n2) as [[js1 n3]|] eqn:E2; [|discriminate].
    unfold ret in H. injection H as _ <-.
    destruct (IH _ _ _ E2) as [[err Herr] Hcount]. split.
    + exists err. simpl. unfold bind at 1. rewrite E1. unfold bind at 1. now rewrite Herr.
    + simpl. now rewrite E1.
Qed.

(** Property X7.  A [null] element makes the callback throw: the whole
    file is rejected with the error alert, the store keeps its content and
    no element is imported, neither those before the [null] nor those after
    it.  The ids the elements before the first [null] made the source draw
    (at most two each) stay drawn. *)
Theorem import_null_element_rejects_file :
  forall (pre post : list value) (store : list JField.t) (src : nat -> string) (n : nat),
    (forall item, In item pre -> item <> VNull /\ item <> VUndef) ->
    exists js n',
      mapM importItem pre src n = Ok (js, n')
      /\ handleJsonUpload (Some (VArr (pre ++ VNull :: post))) store src n
         = (store, AlertJsonError, n')
      /\ (n <= n' <= n + 2 * List.length pre)%nat.
Proof.
  intros pre post store src n Hok.
  destruct (mapM_importItem_total pre src n Hok) as (js & n' & Hrun).
  destruct (mapM_importItem_stops pre post src n js n' Hrun) as [[err Herr] Hcount].
  exists js, n'. split; [exact Hrun|]. split.
  - unfold handleJsonUpload, importArray, counterAtThrow. now rewrite Herr, Hcount.
  - apply (mapM_importItem_each pre src n js n' Hrun).
Qed.

Lemma import_null_element_rejects_file_witness :
  handleJsonUpload (Some (VArr [rawFoo; VNull; rawFoo])) [toJField fieldA] sampleIds 0%nat
  = ([toJField fieldA], AlertJsonError, 1%nat).
Proof.
  destruct (import_null_element_rejects_file [rawFoo] [rawFoo] [toJField fieldA]
              sampleIds 0%nat) as (js & n' & Hpre & Hrun & _).
  - intros item [<- | []]. split; discriminate.
  - vm_compute in Hpre. injection Hpre as _ <-. exact Hrun.
Defined.

(** Property X8.  A file whose elements are all different from [null] is never
    rejected, whatever the elements are: the store becomes one field per
    element, in the order of the file, each the result of the callback on
    its element, the alert counts the elements, and at most two ids are
    drawn per element. *)
Theorem import_keeps_one_field_per_element :
  forall (items : list value) (store : list JField.t) (src : nat -> string) (n : nat),
    (forall item, In item items -> item <> VNull /\ item <> VUndef) ->
    exists js n',
      handleJsonUpload (Some (VArr items)) store src n
      = (js, AlertImported (List.length items), n')
      /\ (n <= n' <= n + 2 * List.length items)%nat
      /\ Forall2 (fun item j => exists m m', (n <= m)%nat
                                             /\ importItem item src m = Ok (j, m'))
                 items js.
Proof.
  intros items store src n Hok.
  destruct (mapM_importItem_total items src n Hok) as (js & n' & Hrun).
  exists js, n'. unfold handleJsonUpload, importArray. rewrite Hrun.
  rewrite (mapM_length _ _ _ _ _ _ Hrun).
  split; [reflexivity|]. now apply mapM_importItem_each.
Qed.

Lemma import_keeps_one_field_per_element_witness :
  exists js n',
    handleJsonUpload (Some (VArr [VNum 7; VStr "x"; VObj []])) [] sampleIds 0%nat
    = (js, AlertImported 3, n')
    /\ (0 <= n' <= 0 + 2 * 3)%nat.
Proof.
  destruct (import_keeps_one_field_per_element [VNum 7; VStr "x"; VObj []] []
              sampleIds 0%nat) as (js & n' & Hrun & Hn & _).
  - intros item [<- | [<- | [<- | []]]]; split; discriminate.
  - exists js, n'. split; [exact Hrun | exact Hn].
Defined.

(** ** Export then import, with or without page dimensions *)

Lemma asField_toJField (f : Field.t) : asField (toJField f) = Some f.
Proof.
  destruct f as [i p x y w h v]. unfold asField, toJField.
  cbn [JField.id JField.page JField.variableName JField.x JField.y JField.width
       JField.height Field.id Field.page Field.variableName Field.x Field.y
       Field.width Field.height].
  rewrite Qfloor_Z, Qeq_bool_refl. reflexivity.
Qed.

Lemma truthy_num (q : Q) : ~ q == 0 -> truthy (VNum q) = true.
Proof.
  intro H. simpl. destruct (Qeq_bool q 0) eqn:E; [|reflexivity].
  apply Qeq_bool_iff in E. contradiction.
Qed.

Lemma or_else_num (q : Q) :
  exists q', or_else (VNum q) (VNum 0) = VNum q' /\ q' == q.
Proof.
  unfold or_else. simpl. destruct (Qeq_bool q 0) eqn:E; simpl.
  - apply Qeq_bool_iff in E. exists 0. split; [reflexivity | now symmetry].
  - exists q. split; reflexivity.
Qed.

Lemma importItem_bare_field (f : Field.t) (src : nat -> string) (n : nat) :
  Field.id f <> EmptyString ->
  Field.variableName f <> EmptyString ->
  Field.page f <> 0%Z ->
  ~ Field.width f == 0 -> ~ Field.height f == 0 ->
  importItem (fieldObject f) src n
  = Ok (JField.mk (VStr (Field.id f)) (VNum (inject_Z (Field.page f)))
                  (VStr (Field.variableName f))
                  (or_else (VNum (Field.x f)) (VNum 0))
                  (or_else (VNum (Field.y f)) (VNum 0))
                  (VNum (Field.width f)) (VNum (Field.height f)), n).
Proof.
  intros Hid Hname Hpage Hw Hh.
  assert (Hp : truthy (VNum (inject_Z (Field.page f))) = true).
  { apply truthy_num. unfold Qeq, inject_Z. simpl. lia. }
  unfold importItem, bind, lift, idOrFresh, nameOrFresh, ret, fieldObject.
  cbn [get lookup String.eqb Ascii.eqb Bool.eqb].
  change (truthy VUndef) with false. cbv iota.
  rewrite (truthy_str _ Hid), (truthy_str _ Hname).
  unfold or_else at 1. rewrite Hp.
  unfold or_else at 3. rewrite (truthy_num _ Hw).
  unfold or_else at 3. rewrite (truthy_num _ Hh).
  reflexivity.
Qed.

Lemma export_import_field (dims : Z -> option PageDim) (f : Field.t)
    (src : nat -> string) (n : nat) :
  Field.id f <> EmptyString ->
  (dims (Field.page f) = None ->
   Field.variableName f <> EmptyString /\ Field.page f <> 0%Z
   /\ ~ Field.width f == 0 /\ ~ Field.height f == 0) ->
  exists j f',
    importItem (exportField dims f) src n = Ok (j, n)
    /\ asField j = Some f' /\ cameBack dims f f'.
Proof.
  intros Hid Hbare. destruct (dims (Field.page f)) as [d|] eqn:Hd.
  - exists (toJField (rounded f)), (rounded f).
    split; [now apply (importItem_exported dims f d)|].
    split; [apply asField_toJField|].
    unfold cameBack. rewrite Hd. simpl. repeat split.
  - destruct (Hbare eq_refl) as (Hname & Hpage & Hw & Hh).
    destruct (or_else_num (Field.x f)) as (x' & Ex & Hx).
    destruct (or_else_num (Field.y f)) as (y' & Ey & Hy).
    eexists.
    exists (Field.mk (Field.id f) (Field.page f) x' y' (Field.width f) (Field.height f)
              (Field.variableName f)).
    split.
    + unfold exportField. rewrite Hd. now apply importItem_bare_field.
    + split.
      * unfold asField. cbn [JField.id JField.page JField.variableName JField.x
                              JField.y JField.width JField.height].
        rewrite Ex, Ey, Qfloor_Z, Qeq_bool_refl. reflexivity.
      * unfold cameBack. rewrite Hd. simpl. repeat split; assumption.
Qed.

(** Property X9.  Whatever pages have known dimensions, the exported array is accepted
    by the import and no id is drawn: the store becomes well-typed fields,
    one per exported field in the same order, with id, page and name as
    they were; coordinates are rounded to 2 decimals where the page's
    dimensions are known and are the same numbers where they are not.  A
    field without page dimensions must have a non-empty name, a page other
    than 0 and a width and height other than 0 for this to hold. *)
Theorem export_is_always_importable :
  forall (a : App) (store : list JField.t) (src : nat -> string) (n : nat),
    (forall f, In f (fields a) -> Field.id f <> EmptyString) ->
    (forall f, In f (fields a) -> pageDimensions a (Field.page f) = None ->
               Field.variableName f <> EmptyString /\ Field.page f <> 0%Z
               /\ ~ Field.width f == 0 /\ ~ Field.height f == 0) ->
    exists js fs',
      handleJsonUpload (Some (handleExport a)) store src n
      = (js, AlertImported (List.length (fields a)), n)
      /\ traverse asField js = Some fs'
      /\ Forall2 (cameBack (pageDimensions a)) (fields a) fs'.
Proof.
  intros a store src n Hid Hbare.
  assert (H : exists js fs',
             mapM importItem (map (exportField (pageDimensions a)) (fields a)) src n
             = Ok (js, n)
             /\ List.length js = List.length (fields a)
             /\ traverse asField js = Some fs'
             /\ Forall2 (cameBack (pageDimensions a)) (fields a) fs').
  { induction (fields a) as [|f fs IH].
    - exists [], []. repeat split. constructor.
    - destruct (export_import_field (pageDimensions a) f src n
                  (Hid f (or_introl eq_refl)) (Hbare f (or_introl eq_refl)))
        as (j & f' & Hj & Hf' & Hback).
      destruct IH as (js & fs' & Hjs & Hlen & Hfs' & Hall).
      + intros g Hg. apply Hid. now right.
      + intros g Hg. apply Hbare. now right.
      + exists (j :: js), (f' :: fs'). split; [|split; [|split]].
        * simpl. unfold bind at 1. rewrite Hj. unfold bind at 1. rewrite Hjs. reflexivity.
        * simpl. now rewrite Hlen.
        * simpl. now rewrite Hf', Hfs'.
        * now constructor. }
  destruct H as (js & fs' & Hrun & Hlen & Hfs' & Hall).
  exists js, fs'. unfold handleJsonUpload, handleExport, importArray.
  rewrite Hrun, Hlen. repeat split; assumption.
Qed.

Lemma export_is_always_importable_witness :
  exists js fs',
    handleJsonUpload
      (Some (handleExport (mkApp [fieldA; Field.mk "far" 9 1.234 0 20 5 "var_2"] [] 1 letterDims)))
      [] sampleIds 0%nat
    = (js, AlertImported 2, 0%nat)
    /\ traverse asField js = Some fs'
    /\ Forall2 (cameBack letterDims) [fieldA; Field.mk "far" 9 1.234 0 20 5 "var_2"] fs'.
Proof.
  apply (export_is_always_importable
           (mkApp [fieldA; Field.mk "far" 9 1.234 0 20 5 "var_2"] [] 1 letterDims)
           [] sampleIds 0%nat).
  - intros f [<- | [<- | []]]; discriminate.
  - intros f [<- | [<- | []]] Hd; [discriminate Hd|].
    repeat split; try discriminate; vm_compute; discriminate.
Defined.

(** ** Absolute coordinates *)

Lemma scale_within (t extent : Q) :
  0 <= t -> t <= 100 -> 0 <= extent ->
  0 <= (t / 100) * extent /\ (t / 100) * extent <= extent.
Proof.
  intros H0 H1 He.
  assert (Ht0 : 0 <= t / 100) by (apply Qle_shift_div_l; lra).
  assert (Ht1 : t / 100 <= 1) by (apply Qle_shift_div_r; lra).
  split.
  - now apply Qmult_le_0_compat.
  - setoid_replace extent with (1 * extent) at 2 by ring.
    apply Qmult_le_compat_r; assumption.
Qed.

(** Property X10.  For a field that lies on the page, with known non-negative page
    dimensions, the [pdfCoordinates] block holds the four numbers of a
    rectangle inside the page, each rounded to 2 decimals: x and width are
    the percentages of the page width, height the percentage of the page
    height, and y is measured from the bottom of the page to the field's
    lower edge, so that y + height is the page height less the field's
    top offset. *)
Theorem exported_pdf_rectangle_within_page :
  forall (dims : Z -> option PageDim) (field : Field.t) (dim : PageDim),
    dims (Field.page field) = Some dim ->
    0 <= dim_width dim -> 0 <= dim_height dim ->
    onPage field -> 0 <= Field.width field -> 0 <= Field.height field ->
    exists pdfX pdfY pdfW pdfH,
      get (exportField dims field) "pdfCoordinates"
      = Ok (VObj [("x", VNum (toFixed2 pdfX)); ("y", VNum (toFixed2 pdfY));
                  ("width", VNum (toFixed2 pdfW)); ("height", VNum (toFixed2 pdfH))])
      /\ 0 <= pdfX /\ 0 <= pdfY /\ 0 <= pdfW /\ 0 <= pdfH
      /\ pdfX + pdfW <= dim_width dim
      /\ pdfY + pdfH <= dim_height dim
      /\ pdfY + pdfH == dim_height dim - (Field.y field / 100) * dim_height dim
      /\ Qabs (toFixed2 pdfX - pdfX) <= 1 # 200
      /\ Qabs (toFixed2 pdfY - pdfY) <= 1 # 200
      /\ Qabs (toFixed2 pdfW - pdfW) <= 1 # 200
      /\ Qabs (toFixed2 pdfH - pdfH) <= 1 # 200.
Proof.
  intros dims field dim Hd HW HH (Hx & Hy & Hxw & Hyh) Hw Hh.
  unfold exportField. rewrite Hd. cbv zeta.
  do 4 eexists. split; [reflexivity|].
  destruct (scale_within (Field.x field) (dim_width dim)) as [Hx0 Hx1]; try lra.
  destruct (scale_within (Field.width field) (dim_width dim)) as [Hw0 Hw1]; try lra.
  destruct (scale_within (Field.height field) (dim_height dim)) as [Hh0 Hh1]; try lra.
  destruct (scale_within (Field.y field) (dim_height dim)) as [Hy0 Hy1]; try lra.
  destruct (scale_within (Field.x field + Field.width field) (dim_width dim))
    as [Hs0 Hs1]; try lra.
  destruct (scale_within (Field.y field + Field.height field) (dim_height dim))
    as [Ht0 Ht1]; try lra.
  assert (Ex : (Field.x field + Field.width field) / 100 * dim_width dim
               == Field.x field / 100 * dim_width dim
                  + Field.width field / 100 * dim_width dim) by (field).
  assert (Ey : (Field.y field + Field.height field) / 100 * dim_height dim
               == Field.y field / 100 * dim_height dim
                  + Field.height field / 100 * dim_height dim) by (field).
  repeat split; try apply toFixed2_close; lra.
Qed.

Lemma exported_pdf_rectangle_within_page_witness :
  exists pdfX pdfY pdfW pdfH,
    get (exportField letterDims fieldA) "pdfCoordinates"
    = Ok (VObj [("x", VNum (toFixed2 pdfX)); ("y", VNum (toFixed2 pdfY));
                ("width", VNum (toFixed2 pdfW)); ("height", VNum (toFixed2 pdfH))])
    /\ pdfX + pdfW <= 612 /\ pdfY + pdfH <= 792.
Proof.
  destruct (exported_pdf_rectangle_within_page letterDims fieldA (mkPageDim 612 792) eq_refl)
    as (pdfX & pdfY & pdfW & pdfH & Hget & _ & _ & _ & _ & Hw & Hh & _).
  - vm_compute. discriminate.
  - vm_compute. discriminate.
  - repeat split; vm_compute; discriminate.
  - vm_compute. discriminate.
  - vm_compute. discriminate.
  - exists pdfX, pdfY, pdfW, pdfH. split; [exact Hget|]. split; assumption.
Defined.

(** ** Composing the store handlers *)

Lemma filter_map_same_ids (p : string -> bool) (g : Field.t -> Field.t) (fs : list Field.t) :
  (forall f, Field.id (g f) = Field.id f) ->
  filter (fun f => p (Field.id f)) (map g fs) = map g (filter (fun f => p (Field.id f)) fs).
Proof.
  intro Hg. induction fs as [|f fs IH]; [reflexivity|].
  simpl. rewrite Hg. destruct (p (Field.id f)); simpl; now rewrite IH.
Qed.

(** Property X11.  [syncY] keeps ids, pages, sizes, names, x and the order of the store
    and leaves the selection alone, and running it again on its result
    changes nothing. *)
Theorem syncY_is_idempotent :
  forall a a' : App,
    syncY a = Ok a' ->
    syncY a' = Ok a'
    /\ selectedFieldIds a' = selectedFieldIds a
    /\ map (fun f => (Field.id f, Field.page f, Field.x f, Field.width f,
                      Field.height f, Field.variableName f)) (fields a')
       = map (fun f => (Field.id f, Field.page f, Field.x f, Field.width f,
                        Field.height f, Field.variableName f)) (fields a).
Proof.
  intros a a' H. unfold syncY in H.
  destruct (Nat.ltb (List.length (selectedFieldIds a)) 2) eqn:Elen.
  - injection H as <-. unfold syncY. rewrite Elen. auto.
  - cbv zeta in H.
    destruct (filter (fun f => includes (selectedFieldIds a) (Field.id f)) (fields a))
      as [|first rest] eqn:Ef; [discriminate|].
    injection H as <-.
    set (g := fun f => if includes (selectedFieldIds a) (Field.id f)
                       then Field.with_y f (Field.y first) else f).
    assert (Hg : forall f, Field.id (g f) = Field.id f).
    { intro f. unfold g. destruct (includes _ _); reflexivity. }
    split; [|split].
    + unfold syncY. cbn [selectedFieldIds fields setFields]. rewrite Elen. cbv zeta.
      fold g.
      rewrite (filter_map_same_ids (includes (selectedFieldIds a)) g (fields a) Hg), Ef.
      cbn [map].
      assert (Hfirst : includes (selectedFieldIds a) (Field.id first) = true).
      { assert (Hin : In first (first :: rest)) by now left.
        rewrite <- Ef in Hin. apply filter_In in Hin. tauto. }
      assert (Hy : Field.y (g first) = Field.y first).
      { unfold g. rewrite Hfirst. reflexivity. }
      rewrite Hy. unfold setFields. cbn [fields selectedFieldIds currentPage pageDimensions].
      do 2 f_equal. rewrite map_map. apply map_ext. intro f.
      rewrite Hg. unfold g. destruct (includes (selectedFieldIds a) (Field.id f)); reflexivity.
    + reflexivity.
    + cbn [fields setFields]. rewrite map_map. apply map_ext. intro f.
      unfold g. destruct (includes (selectedFieldIds a) (Field.id f)); reflexivity.
Qed.

Lemma syncY_is_idempotent_witness :
  exists a', syncY (storeABC ["C"; "B"]) = Ok a' /\ syncY a' = Ok a'.
Proof.
  destruct (syncY (storeABC ["C"; "B"])) as [a'|] eqn:E; [|discriminate E].
  exists a'. split; [reflexivity|].
  exact (proj1 (syncY_is_idempotent (storeABC ["C"; "B"]) a' E)).
Defined.

Lemma filter_filter_comm {A} (p q : A -> bool) (l : list A) :
  filter p (filter q l) = filter q (filter p l).
Proof.
  induction l as [|x l IH]; [reflexivity|]. simpl.
  destruct (p x) eqn:Ep, (q x) eqn:Eq; simpl; rewrite ?Ep, ?Eq, IH; reflexivity.
Qed.

Lemma filter_filter_same {A} (p : A -> bool) (l : list A) :
  filter p (filter p l) = filter p l.
Proof.
  induction l as [|x l IH]; [reflexivity|]. simpl.
  destruct (p x) eqn:Ep; simpl; rewrite ?Ep, IH; reflexivity.
Qed.

Lemma filter_filter_same_neg (ids : list string) (l : list Field.t) :
  filter (fun f => negb (includes [] (Field.id f)))
    (filter (fun f => negb (includes ids (Field.id f))) l)
  = filter (fun f => negb (includes ids (Field.id f))) l.
Proof.
  induction l as [|x l IH]; [reflexivity|]. simpl in *.
  destruct (includes ids (Field.id x)); simpl; now rewrite IH.
Qed.

(** Property X12.  Deleting two fields gives the same state in either order, deleting
    the same field twice is deleting it once, and after "delete selected"
    a second "delete selected" changes nothing. *)
Theorem deletions_commute :
  forall (a : App) (i j : string),
    deleteField i (deleteField j a) = deleteField j (deleteField i a)
    /\ deleteField i (deleteField i a) = deleteField i a
    /\ deleteSelected (deleteSelected a) = deleteSelected a.
Proof.
  intros a i j. unfold deleteField, deleteSelected, setSelectedFieldIds, setFields.
  cbn [fields selectedFieldIds currentPage pageDimensions]. split; [|split].
  - f_equal; apply filter_filter_comm.
  - f_equal; apply filter_filter_same.
  - f_equal. apply filter_filter_same_neg.
Qed.

(** ** Sidebar cards and page navigation *)

Lemma filter_true_all {A} (p : A -> bool) (l : list A) :
  (forall x, In x l -> p x = true) -> filter p l = l.
Proof.
  intro H. apply forallb_filter_id. apply forallb_forall. exact H.
Qed.

(** Property X13.  A click on a card always makes the card's page the current page.
    Without a modifier key the card's field becomes the whole selection;
    with one, the field's id is added when absent and removed when present,
    the other ids stay, and a second click on a card that was not selected
    restores the selection as it was. *)
Theorem card_click_selects_and_navigates :
  forall (e : MouseEvent) (f : Field.t) (a : App),
    currentPage (clickCard e f a) = Field.page f
    /\ fields (clickCard e f a) = fields a
    /\ (additive e = false -> selectedFieldIds (clickCard e f a) = [Field.id f])
    /\ (additive e = true ->
        (forall j, j <> Field.id f ->
                   (In j (selectedFieldIds (clickCard e f a)) <-> In j (selectedFieldIds a)))
        /\ (In (Field.id f) (selectedFieldIds (clickCard e f a)) <->
            ~ In (Field.id f) (selectedFieldIds a))
        /\ (~ In (Field.id f) (selectedFieldIds a) ->
            selectedFieldIds (clickCard e f (clickCard e f a)) = selectedFieldIds a)).
Proof.
  intros e f a.
  assert (Hshape : forall a0,
             clickCard e f a0
             = mkApp (fields a0)
                 (if additive e then
                    if includes (selectedFieldIds a0) (Field.id f)
                    then filter (fun j => negb (String.eqb j (Field.id f))) (selectedFieldIds a0)
                    else (selectedFieldIds a0 ++ [Field.id f])%list
                  else [Field.id f])
                 (Field.page f) (pageDimensions a0)).
  { intro a0. unfold clickCard. cbv zeta.
    destruct (Z.eqb_spec (Field.page f) (currentPage a0)) as [E | E].
    - unfold setSelectedFieldIds. now rewrite E.
    - reflexivity. }
  rewrite !Hshape. cbn [currentPage fields selectedFieldIds].
  split; [reflexivity|]. split; [reflexivity|]. split.
  - intros ->. reflexivity.
  - intros ->. destruct (includes (selectedFieldIds a) (Field.id f)) eqn:E.
    + apply includes_In in E. split; [|split].
      * intros j Hj. rewrite filter_In, negb_true_iff, String.eqb_neq. tauto.
      * rewrite filter_In, negb_true_iff, String.eqb_neq. tauto.
      * intro Hn. contradiction.
    + apply includes_false in E. split; [|split].
      * intros j Hj. rewrite in_app_iff. simpl. split; [|tauto].
        intros [H | [H | []]]; [assumption | congruence].
      * rewrite in_app_iff. simpl. tauto.
      * intros _.
        assert (Hinc : includes (selectedFieldIds a ++ [Field.id f]) (Field.id f) = true).
        { apply includes_In. apply in_or_app. right. now left. }
        rewrite Hinc, filter_app. simpl. rewrite String.eqb_refl. simpl.
        rewrite app_nil_r. apply filter_true_all.
        intros j Hj. apply negb_true_iff. apply String.eqb_neq. congruence.
Qed.

Lemma card_click_selects_and_navigates_witness :
  selectedFieldIds
    (clickCard (mkMouseEvent 0 0 true false false) fieldC
       (clickCard (mkMouseEvent 0 0 true false false) fieldC (storeABC ["A"; "B"])))
  = ["A"; "B"].
Proof.
  destruct (card_click_selects_and_navigates (mkMouseEvent 0 0 true false false) fieldC
              (storeABC ["A"; "B"])) as (_ & _ & _ & Hadd).
  destruct (Hadd eq_refl) as (_ & _ & Htwice).
  apply Htwice. simpl. intros [H | [H | []]]; discriminate H.
Defined.

Lemma setCurrentPage_same (a : App) : setCurrentPage (currentPage a) a = a.
Proof. destruct a; reflexivity. Qed.

(** Property X14.  In a document of at least one page, with the current page inside it,
    the two navigation buttons keep the current page inside the document
    and touch nothing else; "previous" does nothing on page 1, "next"
    nothing on the last page, and each undoes the other where it moved. *)
Theorem page_navigation_stays_in_document :
  forall (numPages : Z) (a : App),
    (1 <= numPages)%Z ->
    (1 <= currentPage a <= numPages)%Z ->
    (1 <= currentPage (prevPage a) <= numPages)%Z
    /\ (1 <= currentPage (nextPage numPages a) <= numPages)%Z
    /\ fields (prevPage a) = fields a
    /\ fields (nextPage numPages a) = fields a
    /\ selectedFieldIds (prevPage a) = selectedFieldIds a
    /\ selectedFieldIds (nextPage numPages a) = selectedFieldIds a
    /\ (currentPage a = 1%Z -> prevPage a = a)
    /\ (currentPage a = numPages -> nextPage numPages a = a)
    /\ ((1 < currentPage a)%Z -> nextPage numPages (prevPage a) = a)
    /\ ((currentPage a < numPages)%Z -> prevPage (nextPage numPages a) = a).
Proof.
  intros np a Hnp Hcur. unfold prevPage, nextPage. cbn [currentPage fields selectedFieldIds setCurrentPage].
  repeat split; try lia.
  - intro E. replace (Z.max 1 (currentPage a - 1)) with (currentPage a) by lia.
    apply setCurrentPage_same.
  - intro E. replace (Z.min np (currentPage a + 1)) with (currentPage a) by lia.
    apply setCurrentPage_same.
  - intro H. unfold setCurrentPage. cbn [currentPage fields selectedFieldIds pageDimensions].
    replace (Z.min np (Z.max 1 (currentPage a - 1) + 1)) with (currentPage a) by lia.
    destruct a; reflexivity.
  - intro H. unfold setCurrentPage. cbn [currentPage fields selectedFieldIds pageDimensions].
    replace (Z.max 1 (Z.min np (currentPage a + 1) - 1)) with (currentPage a) by lia.
    destruct a; reflexivity.
Qed.

Lemma page_navigation_stays_in_document_witness :
  (1 <= currentPage (nextPage 3 (storeABC [])) <= 3)%Z
  /\ prevPage (nextPage 3 (storeABC [])) = storeABC [].
Proof.
  destruct (page_navigation_stays_in_document 3 (storeABC []))
    as (_ & Hnext & _ & _ & _ & _ & _ & _ & _ & Hback).
  - lia.
  - simpl. lia.
  - split; [exact Hnext|]. apply Hback. simpl. lia.
Defined.

(** ** Loading a document *)

Lemma fetchDimensions_lookup (pdf : PdfDocument) (remaining : nat) :
  forall (i : Z) (dims dims' : list (Z * PageDim)),
    fetchDimensions pdf i remaining dims = Some dims' ->
    forall p, dimsLookup dims' p
              = if (Z.leb i p && Z.ltb p (i + Z.of_nat remaining))%bool
                then pdf_viewport pdf p else dimsLookup dims p.
Proof.
  induction remaining as [|k IH]; intros i dims dims' H p.
  - simpl in H. injection H as <-.
    destruct (Z.leb_spec i p), (Z.ltb_spec p (i + Z.of_nat 0)); simpl; try reflexivity; lia.
  - simpl in H. destruct (pdf_viewport pdf i) as [vp|] eqn:Ev; [|discriminate].
    rewrite (IH _ _ _ H p). simpl dimsLookup.
    destruct (Z.leb_spec (i + 1) p), (Z.ltb_spec p (i + 1 + Z.of_nat k)),
             (Z.leb_spec i p), (Z.ltb_spec p (i + Z.of_nat (S k))),
             (Z.eqb_spec p i); simpl; subst; try reflexivity; try lia.
    now rewrite Ev.
Qed.

Lemma fetchDimensions_succeeds (pdf : PdfDocument) (remaining : nat) :
  forall (i : Z) (dims : list (Z * PageDim)),
    (forall p, (i <= p < i + Z.of_nat remaining)%Z -> pdf_viewport pdf p <> None) ->
    exists dims', fetchDimensions pdf i remaining dims = Some dims'.
Proof.
  induction remaining as [|k IH]; intros i dims H; simpl; [eauto|].
  destruct (pdf_viewport pdf i) as [vp|] eqn:Ev.
  - apply IH. intros p Hp. apply H. lia.
  - exfalso. apply (H i); [lia | assumption].
Qed.

Lemma fetchDimensions_fails (pdf : PdfDocument) (remaining : nat) :
  forall (i : Z) (dims : list (Z * PageDim)) (p : Z),
    (i <= p < i + Z.of_nat remaining)%Z -> pdf_viewport pdf p = None ->
    fetchDimensions pdf i remaining dims = None.
Proof.
  induction remaining as [|k IH]; intros i dims p Hp Hv; [lia|].
  simpl. destruct (pdf_viewport pdf i) as [vp|] eqn:Ev; [|reflexivity].
  apply (IH _ _ p); [|assumption].
  assert (p <> i) by congruence. lia.
Qed.

(** Property X15.  A load in which every page of the document gives its viewport ends
    without alert, with an empty store and selection, page 1 current, and
    page dimensions known for exactly the pages 1 to [numPages], each the
    viewport of its page; nothing of the previous document's dimensions
    remains. *)
Theorem load_fetches_every_page_dimension :
  forall (file : string) (pdf : PdfDocument) (s : Session),
    (forall p, (1 <= p <= Z.of_nat (pdf_numPages pdf))%Z -> pdf_viewport pdf p <> None) ->
    exists s',
      handleFileUpload file (Some pdf) s = (s', None)
      /\ fields (sessionApp s') = [] /\ selectedFieldIds (sessionApp s') = []
      /\ currentPage (sessionApp s') = 1%Z
      /\ numPages s' = Z.of_nat (pdf_numPages pdf)
      /\ pdfDocument s' = Some pdf /\ pdfFile s' = Some file /\ isLoading s' = false
      /\ forall p,
           pageDimensions (sessionApp s') p
           = if (Z.leb 1 p && Z.leb p (numPages s'))%bool
             then pdf_viewport pdf p else None.
Proof.
  intros file pdf s Hall.
  destruct (fetchDimensions_succeeds pdf (pdf_numPages pdf) 1 []) as [dims Hdims].
  { intros p Hp. apply Hall. lia. }
  unfold handleFileUpload. rewrite Hdims.
  eexists. split; [reflexivity|].
  cbn [sessionApp fields selectedFieldIds currentPage pageDimensions numPages
       pdfDocument pdfFile isLoading setPageDimensions setSelectedFieldIds setFields
       setCurrentPage].
  repeat split. intro p. rewrite (fetchDimensions_lookup _ _ _ _ _ Hdims p).
  cbn [dimsLookup].
  destruct (Z.leb_spec 1 p), (Z.ltb_spec p (1 + Z.of_nat (pdf_numPages pdf))),
           (Z.leb_spec p (Z.of_nat (pdf_numPages pdf))); simpl; try reflexivity; lia.
Qed.

Lemma load_fetches_every_page_dimension_witness :
  exists s',
    handleFileUpload "doc.pdf" (Some (mkPdf 2 (fun _ => Some (mkPageDim 612 792))))
      (mkSession emptyApp None None 0 false) = (s', None)
    /\ pageDimensions (sessionApp s') 2 = Some (mkPageDim 612 792)
    /\ pageDimensions (sessionApp s') 3 = None.
Proof.
  destruct (load_fetches_every_page_dimension "doc.pdf"
              (mkPdf 2 (fun _ => Some (mkPageDim 612 792)))
              (mkSession emptyApp None None 0 false))
    as (s' & Hrun & _ & _ & _ & Hn & _ & _ & _ & Hdims).
  - intros p _. discriminate.
  - exists s'. split; [exact Hrun|]. rewrite !Hdims, Hn. split; reflexivity.
Defined.

(** Property X16.  A load that fails shows the alert.  When the document itself cannot
    be opened the store, the selection, the page and the page dimensions
    stay.  When the document opens but one of its pages does not, the store
    and the selection are already emptied and the new page count is set,
    while the page dimensions are still those of the previous document. *)
Theorem load_failure_keeps_old_page_dimensions :
  forall (file : string) (s : Session),
    (exists s',
        handleFileUpload file None s = (s', Some AlertPdfError)
        /\ sessionApp s' = sessionApp s /\ numPages s' = numPages s
        /\ pdfDocument s' = pdfDocument s /\ isLoading s' = false)
    /\ (forall (pdf : PdfDocument) (p : Z),
          (1 <= p <= Z.of_nat (pdf_numPages pdf))%Z ->
          pdf_viewport pdf p = None ->
          exists s',
            handleFileUpload file (Some pdf) s = (s', Some AlertPdfError)
            /\ fields (sessionApp s') = [] /\ selectedFieldIds (sessionApp s') = []
            /\ currentPage (sessionApp s') = 1%Z
            /\ numPages s' = Z.of_nat (pdf_numPages pdf)
            /\ pdfDocument s' = Some pdf
            /\ pageDimensions (sessionApp s') = pageDimensions (sessionApp s)).
Proof.
  intros file s. split.
  - eexists. split; [reflexivity|]. repeat split.
  - intros pdf p Hp Hv. unfold handleFileUpload.
    rewrite (fetchDimensions_fails pdf (pdf_numPages pdf) 1 [] p); [|lia|assumption].
    eexists. split; [reflexivity|]. repeat split.
Qed.

Lemma load_failure_keeps_old_page_dimensions_witness :
  exists s',
    handleFileUpload "doc.pdf"
      (Some (mkPdf 2 (fun p => if Z.eqb p 2 then None else Some (mkPageDim 100 100))))
      (mkSession (storeABC ["A"]) None None 1 false) = (s', Some AlertPdfError)
    /\ fields (sessionApp s') = []
    /\ pageDimensions (sessionApp s') = letterDims.
Proof.
  destruct (proj2 (load_failure_keeps_old_page_dimensions "doc.pdf"
                     (mkSession (storeABC ["A"]) None None 1 false))
              (mkPdf 2 (fun p => if Z.eqb p 2 then None else Some (mkPageDim 100 100))) 2%Z)
    as (s' & Hrun & Hf & _ & _ & _ & _ & Hd).
  - simpl. lia.
  - reflexivity.
  - exists s'. split; [exact Hrun|]. split; [exact Hf | exact Hd].
Defined.

(** * Sessions *)

(** ** What the store handlers keep of a field *)

Lemma core_ids (fs fs' : list Field.t) :
  map core fs' = map core fs -> map Field.id fs' = map Field.id fs.
Proof.
  intro H. apply (f_equal (map (fun c : string * Z * Q * Q => fst (fst (fst c))))) in H.
  rewrite !map_map in H. exact H.
Qed.

Lemma core_member (fs fs' : list Field.t) (f' : Field.t) :
  map core fs' = map core fs -> In f' fs' -> exists f, In f fs /\ core f = core f'.
Proof.
  intros H Hin. apply (in_map core) in Hin. rewrite H in Hin.
  apply in_map_iff in Hin. destruct Hin as [f [E Hf]]. eauto.
Qed.

Lemma drawnField_core (src : nat -> string) (w w' : World) (f f' : Field.t) :
  core f = core f' ->
  numPages (session w') = numPages (session w) ->
  (nextId w <= nextId w')%nat ->
  drawnField src w f -> drawnField src w' f'.
Proof.
  unfold core, drawnField. intros E Hn Hid ([k [Hk Hi]] & Hp & Hw).
  injection E as Ei Ep Ew Eh. rewrite <- Ei, <- Ep, <- Ew, <- Eh, Hn.
  split; [|split; assumption]. exists k. split; [lia | assumption].
Qed.

Lemma noDangling_ids (a : App) :
  noDangling a <-> forall i, In i (selectedFieldIds a) -> In i (map Field.id (fields a)).
Proof.
  unfold noDangling. split; intros H i Hi.
  - destruct (H i Hi) as [f [Hf <-]]. now apply in_map.
  - apply H in Hi. apply in_map_iff in Hi. destruct Hi as [f [E Hf]]. eauto.
Qed.

Lemma onUpdateFields_drag_core (dx dy : Q) (ps : list Pos.t) (a : App) :
  map core (fields (onUpdateFields (map (dragUpdate dx dy) ps) a)) = map core (fields a).
Proof.
  unfold onUpdateFields. cbn [fields setFields]. rewrite map_map. apply map_ext.
  intro f. pose proof (moved_field dx dy ps f) as Hm. cbv zeta in Hm.
  destruct Hm as (Hi & Hp & Hw & Hh & _). unfold core. now rewrite Hi, Hp, Hw, Hh.
Qed.

Lemma renameField_core (i name : string) (a : App) :
  map core (fields (renameField i name a)) = map core (fields a).
Proof.
  unfold renameField. cbn [fields setFields]. rewrite map_map. apply map_ext.
  intro f. destruct (String.eqb (Field.id f) i); reflexivity.
Qed.

Lemma syncY_core (a a' : App) :
  syncY a = Ok a' ->
  map core (fields a') = map core (fields a)
  /\ selectedFieldIds a' = selectedFieldIds a
  /\ currentPage a' = currentPage a /\ pageDimensions a' = pageDimensions a.
Proof.
  unfold syncY. destruct (Nat.ltb _ 2).
  - intro H. injection H as <-. auto.
  - cbv zeta. destruct (filter _ (fields a)) as [|first rest]; [discriminate|].
    intro H. injection H as <-. cbn [fields setFields selectedFieldIds currentPage pageDimensions].
    split; [|auto]. rewrite map_map. apply map_ext. intro f.
    destruct (includes _ _); reflexivity.
Qed.

Lemma NoDup_map_filter {A B} (g : A -> B) (p : A -> bool) (l : list A) :
  NoDup (map g l) -> NoDup (map g (filter p l)).
Proof.
  induction l as [|x l IH]; simpl; intro H; [constructor|].
  inversion H as [|? ? Hnotin Hnd]; subst.
  destruct (p x); [|now apply IH].
  simpl. constructor; [|now apply IH].
  intro Hin. apply Hnotin. apply in_map_iff in Hin. destruct Hin as [y [E Hy]].
  apply filter_In in Hy. rewrite <- E. apply in_map. tauto.
Qed.

Lemma toPct_range (c origin extent : Q) :
  0 < extent -> origin <= c -> c <= origin + extent ->
  0 <= toPct c origin extent /\ toPct c origin extent <= 100.
Proof.
  intros He Hlo Hhi. unfold toPct.
  assert (H0 : 0 <= (c - origin) / extent) by (apply Qle_shift_div_l; lra).
  assert (H1 : (c - origin) / extent <= 1) by (apply Qle_shift_div_r; lra).
  split; lra.
Qed.

(** ** The invariant, handler by handler *)

Lemma storeOk_same_core (src : nat -> string) (w w' : World) (fs fs' : list Field.t) :
  map core fs' = map core fs ->
  numPages (session w') = numPages (session w) ->
  (nextId w <= nextId w')%nat ->
  StoreOk src w fs -> StoreOk src w' fs'.
Proof.
  intros Hc Hn Hid [Hnd Hdr]. split.
  - now rewrite (core_ids _ _ Hc).
  - intros f' Hf'. destruct (core_member _ _ _ Hc Hf') as [f [Hf E]].
    apply (drawnField_core src w w' f f'); auto.
Qed.

Lemma storeOk_filter (src : nat -> string) (w w' : World) (p : Field.t -> bool)
    (fs : list Field.t) :
  numPages (session w') = numPages (session w) ->
  (nextId w <= nextId w')%nat ->
  StoreOk src w fs -> StoreOk src w' (filter p fs).
Proof.
  intros Hn Hid [Hnd Hdr]. split.
  - now apply NoDup_map_filter.
  - intros f Hf. apply filter_In in Hf.
    apply (drawnField_core src w w' f f); auto. apply Hdr. tauto.
Qed.

Lemma sessionInv_intro (src : nat -> string) (s : Session) (a' : App) (o' : Overlay)
    (n' : nat) :
  noDangling a' ->
  StoreOk src (mkWorld (withApp a' s) o' n') (fields a') ->
  (1 <= currentPage a' <= numPages s)%Z ->
  (forall p, (1 <= p <= numPages s)%Z -> pageDimensions a' p <> None) ->
  onCanvas (startPos o') -> onCanvas (currentPos o') ->
  SessionInv src (mkWorld (withApp a' s) o' n').
Proof.
  intros Hnd [Hno Hdr] Hp Hd Hs Hc. unfold SessionInv.
  cbn [session sessionApp withApp overlay numPages].
  split; [exact Hnd|]. split; [exact Hno|]. split; [exact Hdr|].
  split; [exact Hp|]. split; [exact Hd|]. split; assumption.
Qed.

Lemma sessionInv_elim (src : nat -> string) (w : World) :
  SessionInv src w ->
  noDangling (sessionApp (session w))
  /\ StoreOk src w (fields (sessionApp (session w)))
  /\ (1 <= currentPage (sessionApp (session w)) <= numPages (session w))%Z
  /\ (forall p, (1 <= p <= numPages (session w))%Z ->
                pageDimensions (sessionApp (session w)) p <> None)
  /\ onCanvas (startPos (overlay w)) /\ onCanvas (currentPos (overlay w)).
Proof.
  unfold SessionInv, StoreOk. tauto.
Qed.

(** The state keeps the invariant when the handler kept every field's id,
    page and size, the selection names stored fields, and the page and the
    pointer positions stay in range. *)
Lemma sessionInv_same_core (src : nat -> string) (w : World) (a' : App) (o' : Overlay) :
  SessionInv src w ->
  map core (fields a') = map core (fields (sessionApp (session w))) ->
  (forall i, In i (selectedFieldIds a') ->
             In i (selectedFieldIds (sessionApp (session w)))
             \/ In i (map Field.id (fields a'))) ->
  (1 <= currentPage a' <= numPages (session w))%Z ->
  pageDimensions a' = pageDimensions (sessionApp (session w)) ->
  onCanvas (startPos o') -> onCanvas (currentPos o') ->
  SessionInv src (withAppOverlay a' o' w).
Proof.
  intros Hinv Hcore Hsel Hpage Hdims Hs Hc.
  destruct (sessionInv_elim _ _ Hinv) as (Hnd & Hstore & _ & Hd & _ & _).
  unfold withAppOverlay. apply sessionInv_intro; try assumption.
  - apply noDangling_ids. intros i Hi. destruct (Hsel i Hi) as [H | H]; [|assumption].
    rewrite (core_ids _ _ Hcore). apply (proj1 (noDangling_ids _) Hnd). assumption.
  - apply (storeOk_same_core src w _ _ _ Hcore); [reflexivity | apply Nat.le_refl | exact Hstore].
  - intros p Hp'. rewrite Hdims. now apply Hd.
Qed.

Lemma sessionInv_filter (src : nat -> string) (w : World) (a' : App)
    (p : Field.t -> bool) :
  SessionInv src w ->
  fields a' = filter p (fields (sessionApp (session w))) ->
  noDangling a' ->
  currentPage a' = currentPage (sessionApp (session w)) ->
  pageDimensions a' = pageDimensions (sessionApp (session w)) ->
  SessionInv src (withAppOverlay a' (overlay w) w).
Proof.
  intros Hinv Hf Hnd Hpage Hdims.
  destruct (sessionInv_elim _ _ Hinv) as (_ & Hstore & Hp & Hd & Hs & Hc).
  unfold withAppOverlay. apply sessionInv_intro; try assumption.
  - rewrite Hf. apply (storeOk_filter src w); [reflexivity | apply Nat.le_refl | exact Hstore].
  - now rewrite Hpage.
  - intros q Hq. rewrite Hdims. now apply Hd.
Qed.

Lemma withAppOverlay_same (w : World) :
  withAppOverlay (sessionApp (session w)) (overlay w) w = w.
Proof. destruct w as [[a f d n l] o k]. reflexivity. Qed.

Lemma sessionInv_overlay (src : nat -> string) (w : World) (o' : Overlay) :
  SessionInv src w ->
  onCanvas (startPos o') -> onCanvas (currentPos o') ->
  SessionInv src (withAppOverlay (sessionApp (session w)) o' w).
Proof.
  intros Hinv Hs Hc. destruct (sessionInv_elim _ _ Hinv) as (_ & _ & Hp & _ & _ & _).
  apply sessionInv_same_core; auto.
Qed.

Lemma handleMouseDown_facts (e : MouseEvent) (r : Rect) (a : App) (o : Overlay) :
  wellPlaced (CanvasDown e r) ->
  fields (fst (handleMouseDown e true r a o)) = fields a
  /\ (forall i, In i (selectedFieldIds (fst (handleMouseDown e true r a o))) ->
                In i (selectedFieldIds a))
  /\ currentPage (fst (handleMouseDown e true r a o)) = currentPage a
  /\ pageDimensions (fst (handleMouseDown e true r a o)) = pageDimensions a
  /\ onCanvas (startPos (snd (handleMouseDown e true r a o)))
  /\ onCanvas (currentPos (snd (handleMouseDown e true r a o))).
Proof.
  intros ([Hw Hh] & [Hx0 Hx1] & [Hy0 Hy1]).
  destruct (toPct_range (clientX e) (rect_left r) (rect_width r) Hw Hx0 Hx1) as [Hpx0 Hpx1].
  destruct (toPct_range (clientY e) (rect_top r) (rect_height r) Hh Hy0 Hy1) as [Hpy0 Hpy1].
  unfold handleMouseDown. cbn [negb]. cbv zeta.
  destruct (negb (shiftKey e) && negb (ctrlKey e) && negb (metaKey e));
    cbn [fst snd fields selectedFieldIds currentPage pageDimensions setSelectedFieldIds
         startPos currentPos setIsLasso setCurrentPos setStartPos];
    unfold onCanvas; cbn [px py]; repeat split; auto; intros i [].
Qed.

Lemma fieldMouseDown_facts (e : MouseEvent) (field : Field.t) (a : App) (o : Overlay) :
  fields (fst (fieldMouseDown e field a o)) = fields a
  /\ (forall i, In i (selectedFieldIds (fst (fieldMouseDown e field a o))) ->
                In i (selectedFieldIds a) \/ i = Field.id field)
  /\ currentPage (fst (fieldMouseDown e field a o)) = currentPage a
  /\ pageDimensions (fst (fieldMouseDown e field a o)) = pageDimensions a
  /\ startPos (snd (fieldMouseDown e field a o)) = startPos o
  /\ currentPos (snd (fieldMouseDown e field a o)) = currentPos o.
Proof.
  unfold fieldMouseDown. cbv zeta.
  cbn [fst snd fields selectedFieldIds currentPage pageDimensions setSelectedFieldIds
       startPos currentPos setDragState].
  repeat split.
  intros i. destruct (additive e), (includes (selectedFieldIds a) (Field.id field));
    cbn [negb]; intro Hi.
  - apply filter_In in Hi. tauto.
  - apply in_app_iff in Hi. simpl in Hi. destruct Hi as [H | [H | []]]; auto.
  - now left.
  - destruct Hi as [H | []]. auto.
Qed.

Lemma handleMouseMove_facts (e : MouseEvent) (r : Rect) (a a' : App) (o o' : Overlay) :
  handleMouseMove e (Some r) a o = Ok (a', o') ->
  onCanvas (currentPos o) ->
  map core (fields a') = map core (fields a)
  /\ (forall i, In i (selectedFieldIds a') ->
                In i (selectedFieldIds a) \/ In i (map Field.id (fields a')))
  /\ currentPage a' = currentPage a
  /\ pageDimensions a' = pageDimensions a
  /\ startPos o' = startPos o
  /\ onCanvas (currentPos o').
Proof.
  intros H Hc. unfold handleMouseMove in H.
  destruct (dragState o) as [ds|].
  - destruct (find _ (initialPositions ds)) as [anchor|]; [|discriminate].
    cbv zeta in H. injection H as <- <-.
    split; [apply onUpdateFields_drag_core|].
    split; [intros i Hi; left; exact Hi|].
    split; [reflexivity|]. split; [reflexivity|]. split; [reflexivity | exact Hc].
  - destruct (isLasso o) eqn:El.
    + cbn [orb] in H. cbv zeta in H. injection H as <- <-.
      cbn [fields selectedFieldIds currentPage pageDimensions setSelectedFieldIds
           startPos currentPos setCurrentPos].
      split; [reflexivity|]. split.
      * intros i Hi. right. apply lasso_ids_on_page in Hi.
        destruct Hi as (f & Hf & <- & _). now apply in_map.
      * split; [reflexivity|]. split; [reflexivity|]. split; [reflexivity|].
        unfold onCanvas. cbn [px py].
        pose proof (clamp100_range (toPct (clientX e) (rect_left r) (rect_width r))).
        pose proof (clamp100_range (toPct (clientY e) (rect_top r) (rect_height r))).
        tauto.
    + cbn [orb] in H. destruct (isDrawing o).
      * injection H as <- <-.
        cbn [startPos currentPos setCurrentPos].
        split; [reflexivity|]. split; [intros i Hi; left; exact Hi|].
        split; [reflexivity|]. split; [reflexivity|]. split; [reflexivity|].
        unfold onCanvas. cbn [px py].
        pose proof (clamp100_range (toPct (clientX e) (rect_left r) (rect_width r))).
        pose proof (clamp100_range (toPct (clientY e) (rect_top r) (rect_height r))).
        tauto.
      * injection H as <- <-.
        split; [reflexivity|]. split; [intros i Hi; left; exact Hi|].
        split; [reflexivity|]. split; [reflexivity|]. split; [reflexivity | exact Hc].
Qed.

Lemma clickCard_facts (e : MouseEvent) (f : Field.t) (a : App) :
  fields (clickCard e f a) = fields a
  /\ (forall i, In i (selectedFieldIds (clickCard e f a)) ->
                In i (selectedFieldIds a) \/ i = Field.id f)
  /\ currentPage (clickCard e f a) = Field.page f
  /\ pageDimensions (clickCard e f a) = pageDimensions a.
Proof.
  unfold clickCard. cbv zeta.
  destruct (Z.eqb_spec (Field.page f) (currentPage a)) as [E | E];
    cbn [fields selectedFieldIds currentPage pageDimensions setSelectedFieldIds setCurrentPage];
    (split; [reflexivity|]); (split; [|split; [auto|reflexivity]]);
    intro i; destruct (additive e), (includes (selectedFieldIds a) (Field.id f));
    intro Hi;
    try (apply filter_In in Hi; tauto);
    try (apply in_app_iff in Hi; simpl in Hi; destruct Hi as [H | [H | []]]; auto);
    try (destruct Hi as [H | []]; auto).
Qed.

Lemma deleteField_noDangling (i : string) (a : App) :
  noDangling a -> noDangling (deleteField i a).
Proof.
  intros Hnd j Hj. apply deleteField_selection in Hj. destruct Hj as [Hj Hne].
  destruct (Hnd j Hj) as [f [Hf Hid]]. exists f. split; [|assumption].
  apply deleteField_fields. split; [assumption | congruence].
Qed.

Lemma abs_diff_on_canvas (s c : Q) :
  0 <= s -> s <= 100 -> 0 <= c -> c <= 100 -> Math_abs (c - s) <= 100.
Proof.
  intros. destruct (Math_abs_cases (c - s)) as [[H' ->] | [H' ->]]; lra.
Qed.

Lemma handleMouseUp_keeps_invariant (src : nat -> string) (w : World) :
  (forall i j, src i = src j -> i = j) ->
  SessionInv src w ->
  exists a' o' n',
    handleMouseUp (sessionApp (session w)) (overlay w) src (nextId w) = Ok ((a', o'), n')
    /\ SessionInv src (mkWorld (withApp a' (session w)) o' n').
Proof.
  intros Hinj Hinv.
  destruct (sessionInv_elim _ _ Hinv) as (Hnd & [Hnodup Hdrawn] & Hpage & Hdims & Hs & Hc).
  set (a := sessionApp (session w)) in *. set (o := overlay w) in *.
  unfold handleMouseUp.
  destruct (dragState o) as [ds|] eqn:Ed.
  { do 3 eexists. split; [reflexivity|]. now apply (sessionInv_overlay src w). }
  destruct (isLasso o) eqn:El.
  { do 3 eexists. split; [reflexivity|]. now apply (sessionInv_overlay src w). }
  destruct (isDrawing o) eqn:Edr.
  2:{ do 3 eexists. split; [reflexivity|]. fold (withAppOverlay a o w).
      subst a o. now rewrite withAppOverlay_same. }
  destruct (Qle_bool (Math_abs (px (currentPos o) - px (startPos o))) 0.5) eqn:Ew.
  { do 3 eexists. split; [reflexivity|]. now apply (sessionInv_overlay src w). }
  destruct (Qle_bool (Math_abs (py (currentPos o) - py (startPos o))) 0.5) eqn:Eh.
  { do 3 eexists. split; [reflexivity|]. now apply (sessionInv_overlay src w). }
  cbn [negb andb]. cbv [bind generateId ret].
  do 3 eexists. split; [reflexivity|].
  apply Qle_bool_false in Ew, Eh.
  destruct Hs as (Hs1 & Hs2 & Hs3 & Hs4). destruct Hc as (Hc1 & Hc2 & Hc3 & Hc4).
  apply sessionInv_intro.
  - intros i [<- | []]. eexists. split; [|reflexivity].
    cbn [onAddField fields setSelectedFieldIds setFields]. unfold onAddField.
    cbn [fields setSelectedFieldIds setFields]. apply in_or_app. right. now left.
  - unfold onAddField. cbn [fields setSelectedFieldIds setFields]. split.
    + rewrite map_app. cbn [map Field.id].
      apply NoDup_app; [exact Hnodup | constructor; [intros [] | constructor] |].
      intros i Hi [E | []]. apply in_map_iff in Hi. destruct Hi as [f [Hid Hf]].
      destruct (Hdrawn f Hf) as ([k [Hk Hfk]] & _).
      assert (k = nextId w) by (apply Hinj; congruence). lia.
    + intros f Hf. apply in_app_iff in Hf. destruct Hf as [Hf | [<- | []]].
      * apply (drawnField_core src w _ f f); auto. cbn [nextId]. lia.
      * unfold drawnField.
        cbn [nextId session numPages withApp Field.id Field.page Field.width Field.height].
        split; [exists (nextId w); split; [lia | reflexivity]|].
        split; [exact Hpage|].
        split; [exact Ew|]. split; [now apply abs_diff_on_canvas|].
        split; [exact Eh|]. now apply abs_diff_on_canvas.
  - exact Hpage.
  - exact Hdims.
  - repeat split; assumption.
  - repeat split; assumption.
Qed.

(** ** The invariant along a session *)

Lemma step_keeps_invariant (src : nat -> string) (ev : Event) (w : World) :
  (forall i j, src i = src j -> i = j) ->
  editing ev -> wellPlaced ev ->
  SessionInv src w ->
  exists w', step src ev w = Some w' /\ SessionInv src w'.
Proof.
  intros Hinj Hed Hwp Hinv.
  pose proof (sessionInv_elim _ _ Hinv) as (Hnd & [Hnodup Hdrawn] & Hpage & Hdims & Hs & Hc).
  assert (Hstay : exists w', Some w = Some w' /\ SessionInv src w') by eauto.
  destruct ev as [e r | e k | e r | | | e k | k | k name | | | | | | parsed | file loaded];
    try contradiction; unfold step; cbv zeta.
  - (* CanvasDown *)
    destruct (overlayMounted (session w)); [|exact Hstay].
    pose proof (handleMouseDown_facts e r (sessionApp (session w)) (overlay w) Hwp)
      as (Hf & Hsel & Hp & Hd & Hs' & Hc').
    destruct (handleMouseDown e true r (sessionApp (session w)) (overlay w)) as [a' o'].
    cbn [fst snd] in *. eexists. split; [reflexivity|].
    apply sessionInv_same_core; auto.
    + now rewrite Hf.
    + now rewrite Hp.
  - (* FieldDown *)
    destruct (overlayMounted (session w)); [|exact Hstay].
    destruct (nth_error (fields (sessionApp (session w))) k) as [field|] eqn:Ek; [|exact Hstay].
    destruct (Z.eqb (Field.page field) (currentPage (sessionApp (session w)))); [|exact Hstay].
    pose proof (fieldMouseDown_facts e field (sessionApp (session w)) (overlay w))
      as (Hf & Hsel & Hp & Hd & Hs' & Hc').
    destruct (fieldMouseDown e field (sessionApp (session w)) (overlay w)) as [a' o'].
    cbn [fst snd] in *. eexists. split; [reflexivity|].
    apply sessionInv_same_core; auto.
    + now rewrite Hf.
    + intros i Hi. destruct (Hsel i Hi) as [H | ->]; [now left|]. right.
      rewrite Hf. apply in_map. eapply nth_error_In; eassumption.
    + now rewrite Hp.
    + now rewrite Hs'.
    + now rewrite Hc'.
  - (* PointerMove *)
    destruct (overlayMounted (session w)); [|exact Hstay].
    destruct (handleMouseMove e (Some r) (sessionApp (session w)) (overlay w))
      as [[a' o']|err] eqn:Em; [|exact Hstay].
    destruct (handleMouseMove_facts _ _ _ _ _ _ Em Hc) as (Hf & Hsel & Hp & Hd & Hs' & Hc').
    eexists. split; [reflexivity|].
    apply sessionInv_same_core; auto.
    + now rewrite Hp.
    + now rewrite Hs'.
  - (* PointerUp *)
    destruct (overlayMounted (session w)); [|exact Hstay].
    destruct (handleMouseUp_keeps_invariant src w Hinj Hinv) as (a' & o' & n' & Hrun & Hinv').
    rewrite Hrun. eauto.
  - (* ModeButton *)
    destruct (overlayMounted (session w)); [|exact Hstay].
    eexists. split; [reflexivity|]. now apply sessionInv_overlay.
  - (* CardClick *)
    destruct (nth_error (fields (sessionApp (session w))) k) as [field|] eqn:Ek; [|exact Hstay].
    pose proof (clickCard_facts e field (sessionApp (session w))) as (Hf & Hsel & Hp & Hd).
    assert (Hin : In field (fields (sessionApp (session w))))
      by (eapply nth_error_In; eassumption).
    eexists. split; [reflexivity|].
    apply sessionInv_same_core; auto.
    + now rewrite Hf.
    + intros i Hi. destruct (Hsel i Hi) as [H | ->]; [now left|]. right.
      rewrite Hf. now apply in_map.
    + rewrite Hp. apply (Hdrawn field Hin).
  - (* CardTrash *)
    destruct (nth_error (fields (sessionApp (session w))) k) as [field|] eqn:Ek; [|exact Hstay].
    eexists. split; [reflexivity|].
    apply (sessionInv_filter src w _
             (fun f => negb (String.eqb (Field.id f) (Field.id field)))); auto.
    now apply deleteField_noDangling.
  - (* CardRename *)
    destruct (nth_error (fields (sessionApp (session w))) k) as [field|] eqn:Ek; [|exact Hstay].
    destruct (includes _ _ && Nat.eqb _ 1); [|exact Hstay].
    eexists. split; [reflexivity|].
    apply sessionInv_same_core; auto.
    apply renameField_core.
  - (* TrashSelected *)
    destruct (Nat.ltb 0 _); [|exact Hstay].
    eexists. split; [reflexivity|].
    apply (sessionInv_filter src w _
             (fun f => negb (includes (selectedFieldIds (sessionApp (session w)))
                               (Field.id f)))); auto.
    intros i [].
  - (* SyncYButton *)
    destruct (syncY (sessionApp (session w))) as [a'|err] eqn:Ey; [|exact Hstay].
    destruct (syncY_core _ _ Ey) as (Hf & Hsel & Hp & Hd).
    eexists. split; [reflexivity|].
    apply sessionInv_same_core; auto.
    + intros i Hi. left. now rewrite <- Hsel.
    + now rewrite Hp.
  - (* PrevButton *)
    destruct (hasDocument (session w) && Z.ltb 1 (currentPage (sessionApp (session w))));
      [|exact Hstay].
    eexists. split; [reflexivity|].
    apply sessionInv_same_core; auto.
    unfold prevPage. cbn [currentPage setCurrentPage]. lia.
  - (* NextButton *)
    destruct (hasDocument (session w)
              && Z.ltb (currentPage (sessionApp (session w))) (numPages (session w)));
      [|exact Hstay].
    eexists. split; [reflexivity|].
    apply sessionInv_same_core; auto.
    unfold nextPage. cbn [currentPage setCurrentPage]. lia.
  - (* ExportButton *)
    exact Hstay.
Qed.

Lemma run_keeps_invariant (src : nat -> string) (evs : list Event) :
  (forall i j, src i = src j -> i = j) ->
  Forall editing evs -> Forall wellPlaced evs ->
  forall w, SessionInv src w ->
            exists w', run src evs w = Some w' /\ SessionInv src w'.
Proof.
  intros Hinj Hed Hwp. induction evs as [|ev evs IH]; intros w Hinv.
  - exists w. split; [reflexivity | assumption].
  - inversion Hed as [|? ? Hev Hrest]; subst.
    inversion Hwp as [|? ? Hpv Hprest]; subst.
    destruct (step_keeps_invariant src ev w Hinj Hev Hpv Hinv) as (w1 & Hstep & Hinv1).
    destruct (IH Hrest Hprest w1 Hinv1) as (w' & Hrun & Hinv').
    exists w'. split; [|assumption]. simpl. now rewrite Hstep.
Qed.

Lemma loadedWorld_invariant (src : nat -> string) (file : string) (pdf : PdfDocument)
    (n : nat) :
  (1 <= pdf_numPages pdf)%nat ->
  (forall p, (1 <= p <= Z.of_nat (pdf_numPages pdf))%Z -> pdf_viewport pdf p <> None) ->
  SessionInv src (loadedWorld file pdf n).
Proof.
  intros Hpages Hall. unfold loadedWorld, handleFileUpload.
  destruct (fetchDimensions_succeeds pdf (pdf_numPages pdf) 1 []) as [dims Hdims].
  { intros p Hp. apply Hall. lia. }
  rewrite Hdims. cbn [fst]. unfold SessionInv.
  cbn [session sessionApp overlay numPages fields selectedFieldIds currentPage
       pageDimensions setPageDimensions setSelectedFieldIds setFields setCurrentPage
       freshSession initialOverlay startPos currentPos].
  split; [intros i []|]. split; [constructor|]. split; [intros f []|].
  split; [lia|]. split.
  - intros p Hp. rewrite (fetchDimensions_lookup _ _ _ _ _ Hdims p).
    destruct (Z.leb_spec 1 p), (Z.ltb_spec p (1 + Z.of_nat (pdf_numPages pdf)));
      cbn [andb]; try lia. apply Hall. lia.
  - unfold onCanvas. cbn [px py]. repeat split; lra.
Qed.

Lemma tallyIds_injective (i j : nat) : tallyIds i = tallyIds j -> i = j.
Proof.
  revert j. induction i as [|i IH]; intros [|j] H; simpl in H;
    try reflexivity; try discriminate.
  injection H as H. f_equal. now apply IH.
Qed.

Lemma tallyIds_nonempty (k : nat) : tallyIds k <> EmptyString.
Proof. destruct k; discriminate. Qed.

Lemma sampleEvents_session :
  exists w, editingSession tallyIds "doc.pdf" letterPdf 0 sampleEvents w.
Proof.
  eexists. unfold editingSession.
  split; [exact tallyIds_injective|]. split; [simpl; lia|].
  split; [intros p _; discriminate|].
  split; [repeat constructor|]. split; [repeat constructor|].
  vm_compute. reflexivity.
Qed.

(** Property X17.  A session that loads a document and then only edits can always go on
    (no handler leaves the typed state), and in the state it reaches:
    every selected id names a stored field; the ids of the store are
    pairwise different; every field is on a page of the document and is
    more than 0.5 and at most 100 wide and high; the current page is a page
    of the document; every page of the document has known dimensions. *)
Theorem editing_session_keeps_invariant :
  forall (src : nat -> string) (file : string) (pdf : PdfDocument) (n : nat)
         (evs : list Event),
    (forall i j, src i = src j -> i = j) ->
    (1 <= pdf_numPages pdf)%nat ->
    (forall p, (1 <= p <= Z.of_nat (pdf_numPages pdf))%Z -> pdf_viewport pdf p <> None) ->
    Forall editing evs -> Forall wellPlaced evs ->
    exists w,
      run src evs (loadedWorld file pdf n) = Some w
      /\ SessionInv src w
      /\ numPages (session w) = Z.of_nat (pdf_numPages pdf).
Proof.
  intros src file pdf n evs Hinj Hpages Hall Hed Hwp.
  assert (Hnum : forall evs' w,
             Forall editing evs' ->
             forall w', run src evs' w = Some w' ->
                        numPages (session w') = numPages (session w)).
  { induction evs' as [|ev evs' IH]; intros w Hed' w' Hrun.
    - simpl in Hrun. now injection Hrun as <-.
    - inversion Hed' as [|? ? Hev Hrest]; subst. simpl in Hrun.
      destruct (step src ev w) as [w1|] eqn:Es; [|discriminate].
      rewrite (IH w1 Hrest w' Hrun).
      destruct ev; try contradiction; unfold step in Es; cbv zeta in Es;
        repeat match type of Es with
               | context [match ?c with _ => _ end] => destruct c
               end;
        try injection Es as <-; try discriminate; reflexivity. }
  destruct (run_keeps_invariant src evs Hinj Hed Hwp (loadedWorld file pdf n)
              (loadedWorld_invariant src file pdf n Hpages Hall)) as (w & Hrun & Hinv).
  exists w. split; [exact Hrun|]. split; [exact Hinv|].
  rewrite (Hnum evs _ Hed w Hrun). unfold loadedWorld, handleFileUpload.
  destruct (fetchDimensions pdf 1 (pdf_numPages pdf) []); reflexivity.
Qed.

Lemma editing_session_keeps_invariant_witness :
  exists w,
    run tallyIds sampleEvents (loadedWorld "doc.pdf" letterPdf 0) = Some w
    /\ SessionInv tallyIds w.
Proof.
  destruct (editing_session_keeps_invariant tallyIds "doc.pdf" letterPdf 0 sampleEvents)
    as (w & Hrun & Hinv & _).
  - exact tallyIds_injective.
  - simpl. lia.
  - intros p _. discriminate.
  - repeat constructor.
  - repeat constructor.
  - exists w. split; assumption.
Defined.

Lemma editingSession_invariant (src : nat -> string) (file : string) (pdf : PdfDocument)
    (n : nat) (evs : list Event) (w : World) :
  editingSession src file pdf n evs w -> SessionInv src w.
Proof.
  intros (Hinj & Hpages & Hall & Hed & Hwp & Hrun).
  destruct (run_keeps_invariant src evs Hinj Hed Hwp (loadedWorld file pdf n)
              (loadedWorld_invariant src file pdf n Hpages Hall)) as (w' & Hrun' & Hinv).
  rewrite Hrun in Hrun'. now injection Hrun' as <-.
Qed.

(** Property X18.  At any point of a session that loads a document and then only edits,
    with an id source that never gives the empty id, the export followed by
    the import of the exported array gives every field back in order with
    its id, name and page and its coordinates rounded to 2 decimals, and
    draws no id: every field of such a session is on a page with known
    dimensions. *)
Theorem editing_session_round_trip :
  forall (src : nat -> string) (file : string) (pdf : PdfDocument) (n : nat)
         (evs : list Event) (w : World) (store : list JField.t),
    editingSession src file pdf n evs w ->
    (forall k, src k <> EmptyString) ->
    handleJsonUpload (Some (handleExport (sessionApp (session w)))) store src (nextId w)
    = (map toJField (map rounded (fields (sessionApp (session w)))),
       AlertImported (List.length (fields (sessionApp (session w)))), nextId w).
Proof.
  intros src file pdf n evs w store Hsess Hne.
  pose proof (editingSession_invariant _ _ _ _ _ _ Hsess) as Hinv.
  destruct (sessionInv_elim _ _ Hinv) as (_ & [_ Hdrawn] & _ & Hdims & _ & _).
  unfold handleJsonUpload, handleExport, importArray.
  rewrite mapM_importItem_exported.
  - now rewrite !length_map.
  - intros f Hf. destruct (Hdrawn f Hf) as ([k [_ ->]] & _). apply Hne.
  - intros f Hf. apply Hdims. apply (Hdrawn f Hf).
Qed.

Lemma editing_session_round_trip_witness :
  exists w,
    run tallyIds sampleEvents (loadedWorld "doc.pdf" letterPdf 0) = Some w
    /\ handleJsonUpload (Some (handleExport (sessionApp (session w)))) [] tallyIds (nextId w)
       = (map toJField (map rounded (fields (sessionApp (session w)))),
          AlertImported (List.length (fields (sessionApp (session w)))), nextId w).
Proof.
  destruct sampleEvents_session as [w Hsess].
  exists w. split; [apply Hsess|].
  exact (editing_session_round_trip tallyIds "doc.pdf" letterPdf 0 sampleEvents w []
           Hsess tallyIds_nonempty).
Defined.

(** Property X19.  At any point of such a session, a press on a stored field (not a
    modifier press on a selected field) followed by a move succeeds, and
    every field whose id is selected ends with 0 <= x, 0 <= y,
    x + width <= 100 and y + height <= 100; the other fields are not
    changed. *)
Theorem editing_session_drag_stays_on_page :
  forall (src : nat -> string) (file : string) (pdf : PdfDocument) (n : nat)
         (evs : list Event) (w : World)
         (e e2 : MouseEvent) (r : Rect) (k : nat) (field : Field.t),
    editingSession src file pdf n evs w ->
    nth_error (fields (sessionApp (session w))) k = Some field ->
    additive e = false
    \/ ~ In (Field.id field) (selectedFieldIds (sessionApp (session w))) ->
    let s := fieldMouseDown e field (sessionApp (session w)) (overlay w) in
    exists a2 o2,
      handleMouseMove e2 (Some r) (fst s) (snd s) = Ok (a2, o2)
      /\ List.length (fields a2) = List.length (fields (sessionApp (session w)))
      /\ forall m f, nth_error (fields (sessionApp (session w))) m = Some f ->
           exists f',
             nth_error (fields a2) m = Some f'
             /\ Field.id f' = Field.id f
             /\ (In (Field.id f) (selectedFieldIds (fst s)) -> onPage f')
             /\ (~ In (Field.id f) (selectedFieldIds (fst s)) -> f' = f).
Proof.
  intros src file pdf n evs w e e2 r k field Hsess Hk Hcase s.
  pose proof (editingSession_invariant _ _ _ _ _ _ Hsess) as Hinv.
  destruct (sessionInv_elim _ _ Hinv) as (_ & [Hnodup Hdrawn] & _ & _ & _ & _).
  set (a := sessionApp (session w)) in *. set (o := overlay w) in *.
  assert (Hin : In field (fields a)) by (eapply nth_error_In; eassumption).
  set (ps := map snapshot
               (filter (fun f => includes (selectedFieldIds (fst s)) (Field.id f)) (fields a))).
  assert (Hds : dragState (snd s)
                = Some (mkDragState (clientX e) (clientY e) ps (Field.id field)))
    by reflexivity.
  assert (Hps : forall p, In p ps <->
                          exists f, In f (fields a)
                                    /\ In (Field.id f) (selectedFieldIds (fst s))
                                    /\ p = snapshot f).
  { intro p. unfold ps. rewrite in_map_iff. split.
    - intros [f [<- Hf]]. apply filter_In in Hf. destruct Hf as [Hf Hi].
      apply includes_In in Hi. eauto.
    - intros [f [Hf [Hi ->]]]. exists f. split; [reflexivity|].
      apply filter_In. split; [assumption | now apply includes_In]. }
  assert (Hsel : In (Field.id field) (selectedFieldIds (fst s))).
  { subst s. unfold fieldMouseDown. cbv zeta. cbn [fst selectedFieldIds setSelectedFieldIds].
    destruct (additive e) eqn:Ea.
    - destruct Hcase as [Hc | Hc]; [discriminate|].
      apply includes_false in Hc. rewrite Hc. apply in_or_app. right. now left.
    - destruct (includes (selectedFieldIds a) (Field.id field)) eqn:Ei; cbn [negb].
      + now apply includes_In.
      + now left. }
  destruct (find_some_when (Field.id field) ps) as [q [Hq _]].
  { exists (snapshot field). split; [|reflexivity]. apply Hps. exists field. auto. }
  unfold handleMouseMove. rewrite Hds. cbv iota. cbn [initialPositions mainFieldId].
  rewrite Hq. cbv zeta.
  eexists; eexists. split; [reflexivity|].
  unfold onUpdateFields. cbn [fields setFields].
  change (fields (fst s)) with (fields a).
  split; [apply length_map|].
  intros m f Hm. rewrite nth_error_map, Hm. cbn [option_map].
  eexists. split; [reflexivity|].
  assert (Hf : In f (fields a)) by (eapply nth_error_In; eassumption).
  match goal with
  | |- context [map (dragUpdate ?dx ?dy) ps] =>
      pose proof (moved_field dx dy ps f) as Hmv
  end.
  cbv zeta in Hmv. destruct Hmv as (Hi & _ & _ & _ & _ & Hsame & Hon).
  split; [exact Hi|]. split.
  - intro Hfs. apply Hon.
    + exists (snapshot f). split; [|reflexivity]. apply Hps. exists f. auto.
    + intros p Hp. apply find_some in Hp. destruct Hp as [Hp He].
      apply String.eqb_eq in He. apply Hps in Hp. destruct Hp as (g & Hg & _ & ->).
      cbn [Pos.id snapshot] in He.
      rewrite (unique_id_field _ g f Hnodup Hg Hf He). split; reflexivity.
    + intros p Hp. apply Hps in Hp. destruct Hp as (g & Hg & _ & ->).
      destruct (Hdrawn g Hg) as (_ & _ & _ & Hw & _ & Hh). split; assumption.
  - intro Hns. apply Hsame. intros p Hp E. apply Hps in Hp.
    destruct Hp as (g & Hg & Hgs & ->). cbn [Pos.id snapshot] in E.
    apply Hns. now rewrite <- E.
Qed.

Lemma editing_session_drag_stays_on_page_witness :
  exists w field a2 o2,
    run tallyIds sampleEvents (loadedWorld "doc.pdf" letterPdf 0) = Some w
    /\ nth_error (fields (sessionApp (session w))) 0 = Some field
    /\ handleMouseMove (plainEvent 900 900) (Some sampleRect)
         (fst (fieldMouseDown (plainEvent 10 10) field (sessionApp (session w)) (overlay w)))
         (snd (fieldMouseDown (plainEvent 10 10) field (sessionApp (session w)) (overlay w)))
       = Ok (a2, o2).
Proof.
  destruct sampleEvents_session as [w Hsess].
  assert (Hrun : run tallyIds sampleEvents (loadedWorld "doc.pdf" letterPdf 0) = Some w)
    by apply Hsess.
  destruct (nth_error (fields (sessionApp (session w))) 0) as [field|] eqn:Ek.
  - destruct (editing_session_drag_stays_on_page tallyIds "doc.pdf" letterPdf 0
                sampleEvents w (plainEvent 10 10) (plainEvent 900 900) sampleRect
                0%nat field Hsess Ek (or_introl eq_refl)) as (a2 & o2 & Hmove & _).
    exists w, field, a2, o2. split; [exact Hrun|]. split; [exact Ek | exact Hmove].
  - exfalso. vm_compute in Hrun. injection Hrun as <-. discriminate Ek.
Defined.

(** * The single-selection revision *)

Lemma v1_moves_keep_drawing (ms : list (MouseEvent * Rect)) (o : V1.Overlay) :
  V1.isDrawing o = true -> onCanvas (V1.currentPos o) ->
  V1.isDrawing (V1.moves ms o) = true
  /\ V1.startPos (V1.moves ms o) = V1.startPos o
  /\ onCanvas (V1.currentPos (V1.moves ms o)).
Proof.
  revert o. induction ms as [|[e r] ms IH]; intros o Hd Hc; [auto|].
  simpl. destruct (IH (V1.handleMouseMove e r o)) as (H1 & H2 & H3).
  - unfold V1.handleMouseMove. now rewrite Hd.
  - unfold V1.handleMouseMove. rewrite Hd. cbn [negb V1.currentPos].
    unfold onCanvas. cbn [px py].
    pose proof (clamp100_range (toPct (clientX e) (rect_left r) (rect_width r))).
    pose proof (clamp100_range (toPct (clientY e) (rect_top r) (rect_height r))).
    tauto.
  - split; [assumption|]. split; [|assumption].
    rewrite H2. unfold V1.handleMouseMove. now rewrite Hd.
Qed.

(** Property X20.  In the single-selection revision a press inside the overlay, any
    number of moves and a release make one drawing gesture: the press
    clears the selection, and the release either adds nothing or appends one
    field with a fresh id, on the current page, lying on the page and more
    than 0.5 wide and high, and selects it. *)
Theorem v1_draw_gesture :
  forall (e : MouseEvent) (r : Rect) (ms : list (MouseEvent * Rect))
         (a : V1.App) (o : V1.Overlay) (src : nat -> string) (n : nat),
    wellPlaced (CanvasDown e r) ->
    let s1 := V1.handleMouseDown e true r a o in
    let o2 := V1.moves ms (snd s1) in
    exists a3 o3 n3,
      V1.handleMouseUp (fst s1) o2 src n = Ok ((a3, o3), n3)
      /\ V1.isDrawing o3 = false
      /\ ((a3 = V1.mkApp (V1.fields a) None (V1.currentPage a) /\ n3 = n)
          \/ exists f,
               a3 = V1.mkApp (V1.fields a ++ [f])%list (Some (src n)) (V1.currentPage a)
               /\ n3 = S n
               /\ Field.id f = src n
               /\ Field.page f = V1.currentPage a
               /\ Field.variableName f = var_name (List.length (V1.fields a) + 1)
               /\ onPage f /\ 0.5 < Field.width f /\ 0.5 < Field.height f).
Proof.
  intros e r ms a o src n ([Hw Hh] & [Hx0 Hx1] & [Hy0 Hy1]) s1 o2.
  destruct (toPct_range (clientX e) (rect_left r) (rect_width r) Hw Hx0 Hx1) as [Hpx0 Hpx1].
  destruct (toPct_range (clientY e) (rect_top r) (rect_height r) Hh Hy0 Hy1) as [Hpy0 Hpy1].
  assert (Hs1 : s1 = (V1.mkApp (V1.fields a) None (V1.currentPage a),
                      V1.mkOverlay true
                        (mkPoint (toPct (clientX e) (rect_left r) (rect_width r))
                                 (toPct (clientY e) (rect_top r) (rect_height r)))
                        (mkPoint (toPct (clientX e) (rect_left r) (rect_width r))
                                 (toPct (clientY e) (rect_top r) (rect_height r)))))
    by reflexivity.
  destruct (v1_moves_keep_drawing ms (snd s1)) as (Hd & Hstart & Hc).
  { rewrite Hs1. reflexivity. }
  { rewrite Hs1. cbn [snd V1.currentPos]. unfold onCanvas. cbn [px py]. tauto. }
  fold o2 in Hd, Hstart, Hc.
  assert (Hst : onCanvas (V1.startPos o2)).
  { rewrite Hstart, Hs1. cbn [snd V1.startPos]. unfold onCanvas. cbn [px py]. tauto. }
  destruct Hst as (Hs1' & Hs2 & Hs3 & Hs4). destruct Hc as (Hc1 & Hc2 & Hc3 & Hc4).
  unfold V1.handleMouseUp. rewrite Hd. cbn [negb]. cbv zeta.
  rewrite Hs1. cbn [fst V1.fields V1.currentPage].
  destruct (Qle_bool (Math_abs (px (V1.currentPos o2) - px (V1.startPos o2))) 0.5) eqn:Ew.
  { do 3 eexists. split; [reflexivity|]. split; [reflexivity|]. left. auto. }
  destruct (Qle_bool (Math_abs (py (V1.currentPos o2) - py (V1.startPos o2))) 0.5) eqn:Eh.
  { do 3 eexists. split; [reflexivity|]. split; [reflexivity|]. left. auto. }
  cbn [negb andb]. cbv [bind generateId ret].
  do 3 eexists. split; [reflexivity|]. split; [reflexivity|]. right.
  exists (Field.mk (src n) (V1.currentPage a)
            (Math_min (px (V1.startPos o2)) (px (V1.currentPos o2)))
            (Math_min (py (V1.startPos o2)) (py (V1.currentPos o2)))
            (Math_abs (px (V1.currentPos o2) - px (V1.startPos o2)))
            (Math_abs (py (V1.currentPos o2) - py (V1.startPos o2)))
            (var_name (List.length (V1.fields a) + 1))).
  apply Qle_bool_false in Ew, Eh.
  split; [reflexivity|]. do 4 (split; [reflexivity|]).
  split; [|split; assumption].
  unfold onPage. cbn [Field.x Field.y Field.width Field.height].
  destruct (Math_min_cases (px (V1.startPos o2)) (px (V1.currentPos o2))) as [[Hx ->] | [Hx ->]];
    destruct (Math_min_cases (py (V1.startPos o2)) (py (V1.currentPos o2))) as [[Hy ->] | [Hy ->]];
    destruct (Math_abs_cases (px (V1.currentPos o2) - px (V1.startPos o2))) as [[Hax ->] | [Hax ->]];
    destruct (Math_abs_cases (py (V1.currentPos o2) - py (V1.startPos o2))) as [[Hay ->] | [Hay ->]];
    repeat split; lra.
Qed.

Lemma v1_draw_gesture_witness :
  exists a3 o3 n3,
    V1.handleMouseUp
      (fst (V1.handleMouseDown (plainEvent 60 80) true sampleRect
              (V1.mkApp [fieldA] (Some "A") 1) (V1.mkOverlay false (mkPoint 0 0) (mkPoint 0 0))))
      (V1.moves [(plainEvent 390 320, sampleRect); (plainEvent 9000 640, sampleRect)]
         (snd (V1.handleMouseDown (plainEvent 60 80) true sampleRect
                 (V1.mkApp [fieldA] (Some "A") 1)
                 (V1.mkOverlay false (mkPoint 0 0) (mkPoint 0 0)))))
      sampleIds 4%nat
    = Ok ((a3, o3), n3)
    /\ V1.isDrawing o3 = false.
Proof.
  destruct (v1_draw_gesture (plainEvent 60 80) sampleRect
              [(plainEvent 390 320, sampleRect); (plainEvent 9000 640, sampleRect)]
              (V1.mkApp [fieldA] (Some "A") 1) (V1.mkOverlay false (mkPoint 0 0) (mkPoint 0 0))
              sampleIds 4%nat) as (a3 & o3 & n3 & Hrun & Hdone & _).
  - repeat split; vm_compute; discriminate.
  - exists a3, o3, n3. split; assumption.
Defined.

(** Property X21.  In the single-selection revision the trash button removes every field
    with the card's id and clears the selection exactly when it named that
    id; a selection that named a stored field still names one. *)
Theorem v1_delete_prunes_selection :
  forall (a : V1.App) (i : string),
    V1.selectedFieldId (V1.deleteField i a) <> Some i
    /\ (forall f, In f (V1.fields (V1.deleteField i a)) <->
                  In f (V1.fields a) /\ Field.id f <> i)
    /\ (forall j, j <> i ->
                  (V1.selectedFieldId (V1.deleteField i a) = Some j <->
                   V1.selectedFieldId a = Some j))
    /\ (V1.selectionValid a -> V1.selectionValid (V1.deleteField i a)).
Proof.
  intros a i.
  assert (Hf : forall f, In f (V1.fields (V1.deleteField i a)) <->
                         In f (V1.fields a) /\ Field.id f <> i).
  { intro f. unfold V1.deleteField. cbv zeta.
    destruct (V1.selectedFieldId a) as [j|]; [destruct (String.eqb j i)|];
      cbn [V1.fields]; rewrite filter_In, negb_true_iff, String.eqb_neq; tauto. }
  assert (Hs : forall j, V1.selectedFieldId (V1.deleteField i a) = Some j <->
                         V1.selectedFieldId a = Some j /\ j <> i).
  { intro j. unfold V1.deleteField. cbv zeta.
    destruct (V1.selectedFieldId a) as [k|]; [destruct (String.eqb_spec k i) as [E | E]|];
      cbn [V1.selectedFieldId].
    - split; [discriminate|]. intros [H Hne]. injection H as H. congruence.
    - split; [|tauto]. intro H. split; [assumption|]. injection H as H. congruence.
    - split; [discriminate | tauto]. }
  split; [|split; [exact Hf|split]].
  - intro H. apply Hs in H. tauto.
  - intros j Hj. rewrite Hs. tauto.
  - intros Hv j Hj. apply Hs in Hj. destruct Hj as [Hj Hne].
    destruct (Hv j Hj) as [f [Hin Hid]]. exists f. split; [|assumption].
    apply Hf. split; [assumption | congruence].
Qed.

Lemma v1_delete_prunes_selection_witness :
  V1.selectionValid (V1.deleteField "B" (V1.mkApp [fieldA; fieldB] (Some "A") 1)).
Proof.
  apply (v1_delete_prunes_selection (V1.mkApp [fieldA; fieldB] (Some "A") 1) "B").
  intros i H. injection H as <-. exists fieldA. simpl. auto.
Defined.
